(** * Incorrect-questions: image validation, AI extraction and the local
      question store

    A shallow embedding of the TypeScript sources

    - [src/types/question.ts], [src/types/ai.ts]        (data model)
    - [src/lib/validation/imageValidator.ts]            (validator, compressor)
    - [src/lib/ai/extraction.ts], [src/lib/ai/client.ts] (extraction client)
    - [src/lib/storage/schema.ts]                       (persisted container)
    - [src/lib/storage/questions.ts]                    (question CRUD)

    followed by the properties of these functions.

    Conventions.  A JavaScript [number] is a rational ([Q]); byte counts,
    HTTP statuses and counters only ever hold integers and are kept in [Z].
    Where the source rounds the result of an arithmetic operation (the
    two scaling operations of [compressImage]), the rounding is an explicit
    operator [fl].  A [string | null] is an [option string].  An ISO-8601
    time stamp written by [new Date().toISOString()] is represented by the
    instant it denotes, in milliseconds since the epoch, which is what
    [new Date(s).getTime()] reads back from it.  The sources are
    modules, hence strict code: an assignment to a property of a
    primitive value throws a [TypeError]. *)

From Stdlib Require Import ZArith QArith Qround Qabs Lia Lqa.
From Stdlib Require Import Bool List String Ascii DecimalString.
From Stdlib Require Import DecimalZ.
From Stdlib Require Import Sorted Permutation.
Import ListNotations.

Local Open Scope Z_scope.
Local Open Scope string_scope.

(** ** JavaScript primitives used by the sources *)

Module Js.

Definition number := Q.

(** Truthiness of a [string | null]: [null] and the empty string are
    falsy, every other string is truthy. *)
Definition truthy (s : option string) : bool :=
  match s with
  | Some (String _ _) => true
  | Some EmptyString => false
  | None => false
  end.

(** [String(n)] for an integral number. *)
Definition show (z : Z) : string := NilZero.string_of_int (Z.to_int z).

Definition pad2 (z : Z) : string :=
  if (z <? 10)%Z then "0" ++ show z else show z.

(** [x.toFixed(2)]: the sign is split off, then [n] is the integer for
    which [n / 100 - x] is closest to zero, the larger one on a tie. *)
Definition toFixedCents (x : Q) : Z := Qfloor (x * 100 + (1 # 2))%Q.

Definition toFixed2 (x : Q) : string :=
  let sign := if Qle_bool 0 x then "" else "-" in
  let n := toFixedCents (if Qle_bool 0 x then x else (- x)%Q) in
  sign ++ show (n / 100) ++ "." ++ pad2 (n mod 100).

(** An error object as the extraction client inspects it: the optional
    [status] of an API error and the [message]. *)
Record Error := mkError { status : option Z; message : string }.

(** [new Error(msg)] *)
Definition newError (msg : string) : Error :=
  {| status := None; message := msg |}.

Definition newline : string := String (ascii_of_nat 10) EmptyString.

Definition Qgtb (x y : Q) : bool := negb (Qle_bool x y).

(** [Array.prototype.sort(compare)]: the sort is stable, and [a] goes
    before [b] when [compare(a, b)] is negative.  For a comparator that
    orders by a key, as the one in the store does, the result is the
    one of this insertion sort. *)
Section Sort.
Context {A : Type} (compare : A -> A -> Z).

Fixpoint insert (a : A) (l : list A) : list A :=
  match l with
  | [] => [a]
  | b :: l' =>
      if (compare a b <=? 0)%Z then a :: b :: l' else b :: insert a l'
  end.

Definition sort (l : list A) : list A := fold_right insert [] l.
End Sort.

(** A plain object used as a dictionary: its own string-keyed
    properties in insertion order. *)
Section Object.
Context {V : Type}.

(** The own property [k] of [o], if it has one.  This is what
    [Object.values], [JSON.stringify] and [delete] go by; the value of
    the expression [o[k]] is [index] below, which goes on to the
    prototype where there is no own property. *)
Fixpoint get (o : list (string * V)) (k : string) : option V :=
  match o with
  | [] => None
  | (k', v) :: o' => if String.eqb k k' then Some v else get o' k
  end.

(** [o[k] = v]: an existing property keeps its place, a new one goes
    last. *)
Fixpoint assign (o : list (string * V)) (k : string) (v : V)
  : list (string * V) :=
  match o with
  | [] => [(k, v)]
  | (k', v') :: o' =>
      if String.eqb k k' then (k', v) :: o'
      else (k', v') :: assign o' k v
  end.

(** [delete o[k]] *)
Fixpoint delete (o : list (string * V)) (k : string)
  : list (string * V) :=
  match o with
  | [] => []
  | (k', v') :: o' =>
      if String.eqb k k' then delete o' k else (k', v') :: delete o' k
  end.

(** [Object.values(o)] *)
Definition values (o : list (string * V)) : list V := map snd o.
End Object.

(** *** Property access on a plain object

    An object literal and an object that [JSON.parse] returns have
    [Object.prototype] as their prototype.  [o[k]] is the own property
    [k] of [o] if there is one, and otherwise the property [k] of
    [Object.prototype]: one of its functions, its accessor [__proto__],
    which gives [Object.prototype] itself, or a property that was added
    to it. *)

(** The primitive values that the store code assigns to fields.
    [Time t] is an ISO time stamp, a string that is never empty, kept
    as the instant it denotes. *)
Inductive Primitive :=
| Null
| Boolean (b : bool)
| Number (x : number)
| Text (s : string)
| Time (t : Z).

Definition truthyPrimitive (p : Primitive) : bool :=
  match p with
  | Null => false
  | Boolean b => b
  | Number x => negb (Qeq_bool x 0)
  | Text EmptyString => false
  | Text (String _ _) => true
  | Time _ => true
  end.

(** The functions of [Object.prototype]. *)
Definition prototypeFunctions : list string :=
  ["constructor"; "hasOwnProperty"; "isPrototypeOf";
   "propertyIsEnumerable"; "toLocaleString"; "toString"; "valueOf";
   "__defineGetter__"; "__defineSetter__"; "__lookupGetter__";
   "__lookupSetter__"].

(** What a plain object inherits under a name: a property added to
    [Object.prototype], [Object.prototype] itself, or one of its
    functions. *)
Inductive Inherited :=
| Added (p : Primitive)
| ObjectPrototype
| Function (name : string).

Inductive Member (V : Type) :=
| Own (v : V)
| Inherit (i : Inherited).
Arguments Own {V} v.
Arguments Inherit {V} i.

(** [o[k]], [None] for [undefined]; [added] holds the properties that
    have been added to [Object.prototype]. *)
Definition index {V : Type} (added : list (string * Primitive))
  (o : list (string * V)) (k : string) : option (Member V) :=
  match get o k with
  | Some v => Some (Own v)
  | None =>
      match get added k with
      | Some p => Some (Inherit (Added p))
      | None =>
          if String.eqb k "__proto__" then Some (Inherit ObjectPrototype)
          else if existsb (String.eqb k) prototypeFunctions
               then Some (Inherit (Function k))
               else None
      end
  end.

(** Truthiness of what [o[k]] gave: objects and functions are truthy,
    a primitive by its value, [undefined] is falsy. *)
Definition truthyMember {V : Type} (m : option (Member V)) : bool :=
  match m with
  | Some (Own _) => true
  | Some (Inherit (Added p)) => truthyPrimitive p
  | Some (Inherit _) => true
  | None => false
  end.

(** [m || null], with [None] for [null]. *)
Definition orNull {V : Type} (m : option (Member V))
  : option (Member V) :=
  if truthyMember m then m else None.

End Js.

(** ** src/types/question.ts *)

Module question.

Inductive ProcessingStatus := pending | success | failed.

(** The string a status is. *)
Definition statusName (s : ProcessingStatus) : string :=
  match s with
  | pending => "pending"
  | success => "success"
  | failed => "failed"
  end.
Inductive GradeLevel := elementary | middle | high.

Definition Timestamp := Z.

Record Question := mkQuestion {
  id : string;
  imageBase64 : string;
  fileSize : Z;
  fileFormat : string;
  extractedText : string;
  confidence : Js.number;
  noiseFiltered : bool;
  processingStatus : ProcessingStatus;
  errorMessage : option string;
  uploadTimestamp : Timestamp;
  confirmedAt : option Timestamp;
  gradeLevel : option GradeLevel;
  subject : option string
}.

Record StorageMetadata := mkMetadata {
  createdAt : Timestamp;
  lastModified : Timestamp;
  totalQuestions : Z
}.

(** [questions: Record<string, Question>]: the own properties of the
    object in insertion order, which is the order [Object.values]
    enumerates them in. *)
Record LocalStorageSchema := mkSchema {
  version : string;
  questions : list (string * Question);
  metadata : StorageMetadata
}.

(** Field assignments [q.f = v]. *)
Definition set_extractedText (v : string) (q : Question) : Question :=
  mkQuestion (id q) (imageBase64 q) (fileSize q) (fileFormat q) v
    (confidence q) (noiseFiltered q) (processingStatus q) (errorMessage q)
    (uploadTimestamp q) (confirmedAt q) (gradeLevel q) (subject q).
Definition set_confidence (v : Js.number) (q : Question) : Question :=
  mkQuestion (id q) (imageBase64 q) (fileSize q) (fileFormat q)
    (extractedText q) v (noiseFiltered q) (processingStatus q)
    (errorMessage q) (uploadTimestamp q) (confirmedAt q) (gradeLevel q)
    (subject q).
Definition set_noiseFiltered (v : bool) (q : Question) : Question :=
  mkQuestion (id q) (imageBase64 q) (fileSize q) (fileFormat q)
    (extractedText q) (confidence q) v (processingStatus q)
    (errorMessage q) (uploadTimestamp q) (confirmedAt q) (gradeLevel q)
    (subject q).
Definition set_processingStatus (v : ProcessingStatus) (q : Question)
  : Question :=
  mkQuestion (id q) (imageBase64 q) (fileSize q) (fileFormat q)
    (extractedText q) (confidence q) (noiseFiltered q) v (errorMessage q)
    (uploadTimestamp q) (confirmedAt q) (gradeLevel q) (subject q).
Definition set_errorMessage (v : option string) (q : Question) : Question :=
  mkQuestion (id q) (imageBase64 q) (fileSize q) (fileFormat q)
    (extractedText q) (confidence q) (noiseFiltered q) (processingStatus q)
    v (uploadTimestamp q) (confirmedAt q) (gradeLevel q) (subject q).
Definition set_confirmedAt (v : option Timestamp) (q : Question)
  : Question :=
  mkQuestion (id q) (imageBase64 q) (fileSize q) (fileFormat q)
    (extractedText q) (confidence q) (noiseFiltered q) (processingStatus q)
    (errorMessage q) (uploadTimestamp q) v (gradeLevel q) (subject q).

Definition set_lastModified (v : Timestamp) (m : StorageMetadata)
  : StorageMetadata :=
  mkMetadata (createdAt m) v (totalQuestions m).
Definition set_totalQuestions (v : Z) (m : StorageMetadata)
  : StorageMetadata :=
  mkMetadata (createdAt m) (lastModified m) v.

Definition set_questions (v : list (string * Question))
  (s : LocalStorageSchema) : LocalStorageSchema :=
  mkSchema (version s) v (metadata s).
Definition set_metadata (v : StorageMetadata) (s : LocalStorageSchema)
  : LocalStorageSchema :=
  mkSchema (version s) (questions s) v.

End question.

(** ** src/types/ai.ts *)

Module ai.

Record AIExtractionResponse := mkResponse {
  questionText : string;
  confidence : Js.number;
  noiseFiltered : bool;
  errorMessage : option string;
  educationLevel : question.GradeLevel
}.

End ai.

(** ** src/lib/validation/imageValidator.ts *)

Module imageValidator.

(** The metadata of a [File] that the validator reads. *)
Record File := mkFile { type : string; size : Z }.

Record ValidationResult := mkResult {
  isValid : bool;
  errorMessage : option string
}.

Definition SUPPORTED_FORMATS : list string :=
  ["image/jpeg"; "image/png"; "image/webp"].

Definition MAX_FILE_SIZE : Z := 5 * 1024 * 1024.

(** [Array.prototype.includes] on strings. *)
Definition includes (l : list string) (s : string) : bool :=
  existsb (String.eqb s) l.

Definition validateImageFormat (file : File) : ValidationResult :=
  if negb (includes SUPPORTED_FORMATS (type file)) then
    {| isValid := false;
       errorMessage := Some
         ("Invalid file format. Please upload an image file (JPEG, PNG, or WebP). Your file type: "
            ++ type file) |}
  else
    {| isValid := true; errorMessage := None |}.

Definition validateImageSize (file : File) : ValidationResult :=
  if (MAX_FILE_SIZE <? size file)%Z then
    let sizeMB := Js.toFixed2 (inject_Z (size file) / inject_Z (1024 * 1024))%Q in
    {| isValid := false;
       errorMessage := Some
         ("Image is too large (" ++ sizeMB
            ++ "MB). Please use an image under 5MB.") |}
  else
    {| isValid := true; errorMessage := None |}.

Definition validateImage (file : File) : ValidationResult :=
  let formatResult := validateImageFormat file in
  if negb (isValid formatResult) then formatResult
  else
    let sizeResult := validateImageSize file in
    if negb (isValid sizeResult) then sizeResult
    else {| isValid := true; errorMessage := None |}.

(** The three results of [validateImage], named for the statements
    below: the format failure for a declared type, the size failure
    for a size printed as [units.dd] MB, and success. *)
Definition formatError (type : string) : ValidationResult :=
  {| isValid := false;
     errorMessage := Some
       ("Invalid file format. Please upload an image file (JPEG, PNG, or WebP). Your file type: "
          ++ type) |}.

Definition sizeError (cents : Z) : ValidationResult :=
  {| isValid := false;
     errorMessage := Some
       ("Image is too large ("
          ++ (Js.show (cents / 100) ++ "." ++ Js.pad2 (cents mod 100))
          ++ "MB). Please use an image under 5MB.") |}.

Definition valid : ValidationResult :=
  {| isValid := true; errorMessage := None |}.

Definition supported (type : string) : Prop :=
  type = "image/jpeg" \/ type = "image/png" \/ type = "image/webp".

(** The dimension computation of [compressImage]'s [img.onload]
    handler, for an image of [imgWidth] x [imgHeight] pixels.  [fl]
    rounds the exact result of a division or multiplication to a
    JavaScript number. *)
Definition maxDimension : Q := 1200.

Definition compressDimensions (fl : Q -> Q) (imgWidth imgHeight : Z)
  : Q * Q :=
  let width := inject_Z imgWidth in
  let height := inject_Z imgHeight in
  if Js.Qgtb width maxDimension || Js.Qgtb height maxDimension then
    if Js.Qgtb width height then
      let height' := fl (fl (height / width) * maxDimension)%Q in
      (maxDimension, height')
    else
      let width' := fl (fl (width / height) * maxDimension)%Q in
      (width', maxDimension)
  else (width, height).

(** [canvas.width = width; canvas.height = height]: the canvas
    attributes are unsigned integers, the assignment drops the
    fraction. *)
Definition canvasDimensions (fl : Q -> Q) (imgWidth imgHeight : Z)
  : Z * Z :=
  let '(width, height) := compressDimensions fl imgWidth imgHeight in
  (Qfloor width, Qfloor height).

(** A rounding to try the computation with: down to the next multiple
    of [2^-64]. *)
Definition roundDown64 (x : Q) : Q :=
  (inject_Z (Qfloor (x * 18446744073709551616)) / 18446744073709551616)%Q.

End imageValidator.

(** ** src/lib/ai/extraction.ts (with src/lib/ai/client.ts) *)

Module extraction.

(** What one [aiClient.chat.completions.create] request comes back
    with: a response, of which the client reads
    [choices[0]?.message?.content], or a rejection with an error. *)
Inductive Reply :=
| Responded (content : option string)
| Rejected (error : Js.Error).

(** The surroundings of one call of [extractQuestionFromImage]:
    whether an API key is configured ([isApiKeyConfigured]), the reply
    of the service to the request of each attempt, and [JSON.parse] on
    the response type, which throws a [SyntaxError] (left, with its
    message) on a malformed payload. *)
Record Env := mkEnv {
  isApiKeyConfigured : bool;
  create : nat -> Reply;
  JSON_parse : string -> string + ai.AIExtractionResponse
}.

(** What a call has done when it settles: the value it resolves with
    or the error it rejects with, the number of requests sent to the
    service and the timers it has waited for, in order. *)
Record Run := mkRun {
  outcome : Js.Error + ai.AIExtractionResponse;
  calls : nat;
  timers : list Z
}.

Definition mockQuestionText : string :=
  "1. 下列物质中，属于纯净物的是（  ）" ++ Js.newline ++
  "A. 空气" ++ Js.newline ++
  "B. 盐水" ++ Js.newline ++
  "C. 蒸馏水" ++ Js.newline ++
  "D. 矿泉水".

Definition mockExtraction (educationLevel : question.GradeLevel) : Run :=
  {| outcome := inr
       {| ai.questionText := mockQuestionText;
          ai.confidence := 0.95%Q;
          ai.noiseFiltered := true;
          ai.errorMessage := None;
          ai.educationLevel := educationLevel |};
     calls := 0;
     timers := [1500%Z] |}.

(** [Math.min(1000 * Math.pow(2, attempt), 10000)] *)
Definition delay (attempt : nat) : Z :=
  Z.min (1000 * 2 ^ Z.of_nat attempt) 10000.

(** The three ways the [catch] block leaves: it throws (the error
    given), or it waits and continues with the next attempt. *)
Inductive Handling :=
| Throw (error : Js.Error)
| BackoffAndContinue.

Definition statusIs (error : Js.Error) (code : Z) : bool :=
  match Js.status error with
  | Some s => (s =? code)%Z
  | None => false
  end.

(** [error.status && error.status >= 500] *)
Definition statusAtLeast500 (error : Js.Error) : bool :=
  match Js.status error with
  | Some s => negb (s =? 0)%Z && (500 <=? s)%Z
  | None => false
  end.

Definition handle (error : Js.Error) : Handling :=
  if statusIs error 401 then
    Throw (Js.newError
             "API key is invalid. Please check your configuration.")
  else if statusIs error 429 || statusAtLeast500 error then
    BackoffAndContinue
  else
    Throw error.

(** The body of the [try] block once the reply is there: the value
    returned, or the error thrown into the [catch] block. *)
Definition tryBody (env : Env) (reply : Reply)
  : Js.Error + ai.AIExtractionResponse :=
  match reply with
  | Rejected error => inl error
  | Responded content =>
      match content with
      | Some (String c s) =>
          match JSON_parse env (String c s) with
          | inr result => inr result
          | inl syntaxError => inl (Js.newError syntaxError)
          end
      | Some EmptyString | None =>
          inl (Js.newError "Empty response from AI")
      end
  end.

(** [lastError?.message] inside the template literal. *)
Definition lastMessage (lastError : option Js.Error) : string :=
  match lastError with
  | Some e => Js.message e
  | None => "undefined"
  end.

Definition exhausted (maxRetries : Z) (lastError : option Js.Error)
  : Js.Error :=
  Js.newError ("Failed after " ++ Js.show maxRetries ++ " attempts: "
                 ++ lastMessage lastError).

(** The [for] loop, with [remaining] iterations to go before
    [attempt < maxRetries] fails. *)
Fixpoint attemptLoop (env : Env) (maxRetries : Z) (remaining : nat)
  (attempt : nat) (lastError : option Js.Error) (sent : nat)
  (waited : list Z) : Run :=
  match remaining with
  | O =>
      {| outcome := inl (exhausted maxRetries lastError);
         calls := sent; timers := waited |}
  | S remaining' =>
      match tryBody env (create env attempt) with
      | inr result =>
          {| outcome := inr result; calls := S sent; timers := waited |}
      | inl error =>
          match handle error with
          | Throw thrown =>
              {| outcome := inl thrown; calls := S sent;
                 timers := waited |}
          | BackoffAndContinue =>
              attemptLoop env maxRetries remaining' (S attempt)
                (Some error) (S sent) (waited ++ [delay attempt])
          end
      end
  end.

Definition extractQuestionFromImage (env : Env) (imageBase64 : string)
  (educationLevel : question.GradeLevel) (maxRetries : Z) : Run :=
  if negb (isApiKeyConfigured env) then mockExtraction educationLevel
  else attemptLoop env maxRetries (Z.to_nat maxRetries) 0 None 0 [].

(** Vocabulary for the statements below: the error an attempt ends in,
    if it ends in one; whether the [catch] block then waits and goes on
    to the next attempt; and the statuses for which it does. *)
Definition errorOf (env : Env) (attempt : nat) : option Js.Error :=
  match tryBody env (create env attempt) with
  | inl error => Some error
  | inr _ => None
  end.

Definition backsOff (env : Env) (attempt : nat) : bool :=
  match errorOf env attempt with
  | Some error =>
      match handle error with
      | BackoffAndContinue => true
      | Throw _ => false
      end
  | None => false
  end.

Definition rateLimitOrServerError (error : Js.Error) : Prop :=
  Js.status error = Some 429%Z
  \/ exists s : Z, Js.status error = Some s /\ (500 <= s)%Z.

Definition emptyPayload (content : option string) : Prop :=
  content = None \/ content = Some EmptyString.

(** Sample surroundings for concrete runs: a service that answers the
    first requests with the given replies and every later one with
    [later], and a parser that accepts every payload but ["<html>"]. *)
Definition sampleResponse : ai.AIExtractionResponse :=
  {| ai.questionText := "Q";
     ai.confidence := 0.9%Q;
     ai.noiseFiltered := true;
     ai.errorMessage := None;
     ai.educationLevel := question.middle |}.

Definition sampleParse (payload : string)
  : string + ai.AIExtractionResponse :=
  if String.eqb payload "<html>"
  then inl "Unexpected token '<'"
  else inr sampleResponse.

Definition scripted (configured : bool) (replies : list Reply)
  (later : Reply) : Env :=
  {| isApiKeyConfigured := configured;
     create := fun attempt => nth attempt replies later;
     JSON_parse := sampleParse |}.

Definition serverError : Js.Error :=
  {| Js.status := Some 500%Z; Js.message := "Internal Server Error" |}.

Definition rateLimited : Js.Error :=
  {| Js.status := Some 429%Z; Js.message := "Too Many Requests" |}.

Definition unauthorized : Js.Error :=
  {| Js.status := Some 401%Z; Js.message := "Unauthorized" |}.

Definition fine : Reply := Responded (Some "{}").

End extraction.

(** ** src/lib/storage/schema.ts *)

Module schema.
Import question.

Definition CURRENT_VERSION : string := "1.0.0".

(** What the storage functions throw: an [Error] with its message,
    the [DOMException] of [localStorage.setItem], with its name, or the
    [TypeError] of an assignment to a property of a primitive value,
    with its message. *)
Inductive Thrown :=
| Error (message : string)
| DOMException (name : string)
| TypeError (message : string).

(** The surroundings the storage code reads: whether [window] is
    defined, the clock ([now k] is what the [k]-th [new Date()] of the
    run reads), [crypto.randomUUID] (likewise, by draw), the quota of
    [localStorage], and the wording of the engine's [TypeError].

    The quota is given by what fits: [hasRoom s] says that the
    serialised container [s] fits together with the item under
    [VERSION_KEY]; [fitsAlone s] says that [s] fits as long as there is
    no item under [VERSION_KEY], though not together with one. *)
Record Env := mkEnv {
  inBrowser : bool;
  now : nat -> Timestamp;
  randomUUID : nat -> string;
  hasRoom : LocalStorageSchema -> bool;
  fitsAlone : LocalStorageSchema -> bool;
  cannotCreateProperty : string -> Js.Primitive -> string
}.

(** The state the storage code acts on: the container held under
    [STORAGE_KEY] in [localStorage], if there is one, kept as the value
    that [JSON.parse] gives back for the item; the item under
    [VERSION_KEY], if there is one; the properties that have been
    added to [Object.prototype], which every plain object inherits;
    and how often the clock and the UUID source have been read. *)
Record World := mkWorld {
  item : option LocalStorageSchema;
  versionItem : option string;
  prototype : list (string * Js.Primitive);
  clockReads : nat;
  uuidDraws : nat
}.

(** Computations that read and write the world and may throw. *)
Definition M (A : Type) : Type := World -> (Thrown + A) * World.

Definition ret {A} (a : A) : M A := fun w => (inr a, w).
Definition throw {A} (e : Thrown) : M A := fun w => (inl e, w).
Definition bind {A B} (m : M A) (k : A -> M B) : M B :=
  fun w =>
    match m w with
    | (inr a, w') => k a w'
    | (inl e, w') => (inl e, w')
    end.

Declare Scope store_scope.
Delimit Scope store_scope with store.
Notation "x <- m ;; k" := (bind m (fun x => k))
  (at level 61, m at next level, right associativity) : store_scope.
Notation "m ;; k" := (bind m (fun _ => k))
  (at level 61, right associativity) : store_scope.
Local Open Scope store_scope.

Section WithEnv.
Variable env : Env.

(** [new Date().toISOString()] *)
Definition newDate : M Timestamp :=
  fun w =>
    (inr (now env (clockReads w)),
     mkWorld (item w) (versionItem w) (prototype w) (S (clockReads w))
       (uuidDraws w)).

(** [crypto.randomUUID()] *)
Definition cryptoRandomUUID : M string :=
  fun w =>
    (inr (randomUUID env (uuidDraws w)),
     mkWorld (item w) (versionItem w) (prototype w) (clockReads w)
       (S (uuidDraws w))).

(** [localStorage.getItem(STORAGE_KEY)] followed by [JSON.parse] *)
Definition getItem : M (option LocalStorageSchema) :=
  fun w => (inr (item w), w).

(** Whether the container [s] can be written: together with the
    version item where there is one, alone where there is none. *)
Definition containerFits (w : World) (s : LocalStorageSchema) : bool :=
  match versionItem w with
  | Some _ => hasRoom env s
  | None => hasRoom env s || fitsAlone env s
  end.

(** Whether the version item can be written beside the container
    stored: writing the value that is there already takes no room. *)
Definition versionFits (w : World) : bool :=
  match versionItem w with
  | Some v =>
      if String.eqb v CURRENT_VERSION then true
      else match item w with
           | Some s => hasRoom env s
           | None => true
           end
  | None =>
      match item w with
      | Some s => hasRoom env s
      | None => true
      end
  end.

(** [localStorage.setItem(STORAGE_KEY, JSON.stringify(schema))],
    which throws when the quota is exceeded. *)
Definition setItem (s : LocalStorageSchema) : M unit :=
  fun w =>
    if containerFits w s
    then (inr tt,
          mkWorld (Some s) (versionItem w) (prototype w) (clockReads w)
            (uuidDraws w))
    else (inl (DOMException "QuotaExceededError"), w).

(** [localStorage.setItem(VERSION_KEY, CURRENT_VERSION)], likewise. *)
Definition setVersionItem : M unit :=
  fun w =>
    if versionFits w
    then (inr tt,
          mkWorld (item w) (Some CURRENT_VERSION) (prototype w)
            (clockReads w) (uuidDraws w))
    else (inl (DOMException "QuotaExceededError"), w).

(** [try { ... } catch (error) { ... }] of [saveSchema]. *)
Definition catchQuota {A} (m : M A) : M A :=
  fun w =>
    match m w with
    | (inl (DOMException "QuotaExceededError"), w') =>
        (inl (Error
           "Storage is full. Please delete old questions to make space."),
         w')
    | r => r
    end.

Definition emptySchema (t1 t2 : Timestamp) : LocalStorageSchema :=
  {| version := "1.0.0";
     questions := [];
     metadata := {| createdAt := t1; lastModified := t2;
                    totalQuestions := 0 |} |}.

Definition initializeStorage : M LocalStorageSchema :=
  if negb (inBrowser env) then
    throw (Error
      "Storage can only be initialized in browser environment")
  else
    existingData <- getItem ;;
    match existingData with
    | Some schema =>
        let storedVersion := version schema in
        if negb (String.eqb storedVersion CURRENT_VERSION) then
          throw (Error ("Schema migration needed: " ++ storedVersion
                          ++ " → " ++ CURRENT_VERSION))
        else ret schema
    | None =>
        t1 <- newDate ;;
        t2 <- newDate ;;
        let newSchema := emptySchema t1 t2 in
        setItem newSchema ;;
        setVersionItem ;;
        ret newSchema
    end.

Definition getSchema : M LocalStorageSchema :=
  if negb (inBrowser env) then
    t1 <- newDate ;;
    t2 <- newDate ;;
    ret (emptySchema t1 t2)
  else
    data <- getItem ;;
    match data with
    | None => initializeStorage
    | Some schema => ret schema
    end.

Definition saveSchema (schema : LocalStorageSchema) : M unit :=
  if negb (inBrowser env) then
    throw (Error "Cannot save schema in non-browser environment")
  else
    catchQuota (setItem schema ;; setVersionItem).

End WithEnv.

End schema.

(** ** src/lib/storage/questions.ts *)

Module questions.
Import question schema.
Local Open Scope store_scope.

Definition notFound {A} (id : string) : M A :=
  throw (Error ("Question not found: " ++ id)).

(** [extractionResponse.errorMessage ? 'failed' : 'pending'] *)
Definition statusOf (extractionResponse : ai.AIExtractionResponse)
  : ProcessingStatus :=
  if Js.truthy (ai.errorMessage extractionResponse) then failed
  else pending.

(** [new Date(s).getTime()]; [new Date(null)] is the epoch. *)
Definition getTime (s : option Timestamp) : Z :=
  match s with
  | Some t => t
  | None => 0
  end.

Section WithEnv.
Variable env : Env.

Definition createQuestion (imageBase64 : string) (fileSize : Z)
  (fileFormat : string) (extractionResponse : ai.AIExtractionResponse)
  : M string :=
  schema <- getSchema env ;;
  questionId <- cryptoRandomUUID env ;;
  now <- newDate env ;;
  let question :=
    {| id := questionId;
       imageBase64 := imageBase64;
       fileSize := fileSize;
       fileFormat := fileFormat;
       extractedText := ai.questionText extractionResponse;
       confidence := ai.confidence extractionResponse;
       noiseFiltered := ai.noiseFiltered extractionResponse;
       processingStatus := statusOf extractionResponse;
       errorMessage := ai.errorMessage extractionResponse;
       uploadTimestamp := now;
       confirmedAt := None;
       gradeLevel := Some (ai.educationLevel extractionResponse);
       subject := None |} in
  let schema :=
    set_questions (Js.assign (questions schema) questionId question)
      schema in
  let schema :=
    set_metadata
      (set_totalQuestions (totalQuestions (metadata schema) + 1)
         (metadata schema)) schema in
  let schema :=
    set_metadata (set_lastModified now (metadata schema)) schema in
  saveSchema env schema ;;
  ret questionId.

Definition getAllQuestions : M (list Question) :=
  schema <- getSchema env ;;
  ret (Js.values (questions schema)).

(** [schema.questions[id]] *)
Definition questionAt (schema : LocalStorageSchema) (id : string)
  : M (option (Js.Member Question)) :=
  fun w => (inr (Js.index (prototype w) (questions schema) id), w).

(** [question.field = value] where [question] is not a record of the
    container but what the container inherits under the id.
    [Object.prototype] takes the property, and every plain object
    inherits it from then on; a function takes it, which nothing in the
    sources reads; a primitive value takes none, the assignment
    throws. *)
Definition assignInherited (question : Js.Inherited) (field : string)
  (value : Js.Primitive) : M unit :=
  match question with
  | Js.ObjectPrototype =>
      fun w =>
        (inr tt,
         mkWorld (item w) (versionItem w)
           (Js.assign (prototype w) field value) (clockReads w)
           (uuidDraws w))
  | Js.Function _ => ret tt
  | Js.Added p => throw (TypeError (cannotCreateProperty env field p))
  end.

(** A [string | null] as a value. *)
Definition textOrNull (s : option string) : Js.Primitive :=
  match s with
  | Some s => Js.Text s
  | None => Js.Null
  end.

Definition getQuestionById (id : string)
  : M (option (Js.Member Question)) :=
  schema <- getSchema env ;;
  question <- questionAt schema id ;;
  ret (Js.orNull question).

Definition confirmQuestion (id : string) : M unit :=
  schema <- getSchema env ;;
  question <- questionAt schema id ;;
  if negb (Js.truthyMember question) then notFound id
  else
    match question with
    | Some (Js.Own question) =>
        t <- newDate env ;;
        let question := set_confirmedAt (Some t) question in
        let question := set_processingStatus success question in
        let schema :=
          set_questions (Js.assign (questions schema) id question)
            schema in
        t' <- newDate env ;;
        let schema :=
          set_metadata (set_lastModified t' (metadata schema)) schema in
        saveSchema env schema
    | Some (Js.Inherit question) =>
        t <- newDate env ;;
        assignInherited question "confirmedAt" (Js.Time t) ;;
        assignInherited question "processingStatus"
          (Js.Text (statusName success)) ;;
        t' <- newDate env ;;
        let schema :=
          set_metadata (set_lastModified t' (metadata schema)) schema in
        saveSchema env schema
    | None => notFound id
    end.

Definition updateExtraction (id : string)
  (extractionResponse : ai.AIExtractionResponse) : M unit :=
  schema <- getSchema env ;;
  question <- questionAt schema id ;;
  if negb (Js.truthyMember question) then notFound id
  else
    match question with
    | Some (Js.Own question) =>
        let question :=
          set_extractedText (ai.questionText extractionResponse)
            question in
        let question :=
          set_confidence (ai.confidence extractionResponse) question in
        let question :=
          set_noiseFiltered (ai.noiseFiltered extractionResponse)
            question in
        let question :=
          set_errorMessage (ai.errorMessage extractionResponse)
            question in
        let question :=
          set_processingStatus (statusOf extractionResponse) question in
        let schema :=
          set_questions (Js.assign (questions schema) id question)
            schema in
        t <- newDate env ;;
        let schema :=
          set_metadata (set_lastModified t (metadata schema)) schema in
        saveSchema env schema
    | Some (Js.Inherit question) =>
        assignInherited question "extractedText"
          (Js.Text (ai.questionText extractionResponse)) ;;
        assignInherited question "confidence"
          (Js.Number (ai.confidence extractionResponse)) ;;
        assignInherited question "noiseFiltered"
          (Js.Boolean (ai.noiseFiltered extractionResponse)) ;;
        assignInherited question "errorMessage"
          (textOrNull (ai.errorMessage extractionResponse)) ;;
        assignInherited question "processingStatus"
          (Js.Text (statusName (statusOf extractionResponse))) ;;
        t <- newDate env ;;
        let schema :=
          set_metadata (set_lastModified t (metadata schema)) schema in
        saveSchema env schema
    | None => notFound id
    end.

Definition deleteQuestion (id : string) : M unit :=
  schema <- getSchema env ;;
  question <- questionAt schema id ;;
  if negb (Js.truthyMember question) then notFound id
  else
    let schema :=
      set_questions (Js.delete (questions schema) id) schema in
    let schema :=
      set_metadata
        (set_totalQuestions (totalQuestions (metadata schema) - 1)
           (metadata schema)) schema in
    t <- newDate env ;;
    let schema :=
      set_metadata (set_lastModified t (metadata schema)) schema in
    saveSchema env schema.

Definition statusEqb (a b : ProcessingStatus) : bool :=
  match a, b with
  | pending, pending | success, success | failed, failed => true
  | _, _ => false
  end.

Definition getQuestionsByStatus (status : ProcessingStatus)
  : M (list Question) :=
  schema <- getSchema env ;;
  ret (filter (fun q => statusEqb (processingStatus q) status)
         (Js.values (questions schema))).

Definition isConfirmed (q : Question) : bool :=
  match confirmedAt q with
  | Some _ => true
  | None => false
  end.

Definition byConfirmationDesc (a b : Question) : Z :=
  getTime (confirmedAt b) - getTime (confirmedAt a).

Definition getConfirmedQuestions : M (list Question) :=
  schema <- getSchema env ;;
  ret (Js.sort byConfirmationDesc
         (filter isConfirmed (Js.values (questions schema)))).

Definition clearAllQuestions : M unit :=
  schema <- getSchema env ;;
  let schema := set_questions [] schema in
  let schema :=
    set_metadata (set_totalQuestions 0 (metadata schema)) schema in
  t <- newDate env ;;
  let schema :=
    set_metadata (set_lastModified t (metadata schema)) schema in
  saveSchema env schema.

(** *** Sequences of store operations *)

Inductive Op :=
| Create (imageBase64 : string) (fileSize : Z) (fileFormat : string)
    (extractionResponse : ai.AIExtractionResponse)
| Confirm (id : string)
| UpdateExtraction (id : string)
    (extractionResponse : ai.AIExtractionResponse)
| Delete (id : string)
| ClearAll.

(** The world after an operation, whether it returned or threw. *)
Definition exec (op : Op) (w : World) : World :=
  match op with
  | Create i s f r => snd (createQuestion i s f r w)
  | Confirm id => snd (confirmQuestion id w)
  | UpdateExtraction id r => snd (updateExtraction id r w)
  | Delete id => snd (deleteQuestion id w)
  | ClearAll => snd (clearAllQuestions w)
  end.

Definition run (ops : list Op) (w : World) : World :=
  fold_left (fun w op => exec op w) ops w.

(** The records of the container in [localStorage], none while there
    is no container. *)
Definition records (w : World) : list Question :=
  match item w with
  | Some s => Js.values (questions s)
  | None => []
  end.

Definition lookup (w : World) (id : string) : option Question :=
  match item w with
  | Some s => Js.get (questions s) id
  | None => None
  end.

(** [updateExtraction] is never applied to a confirmed record. *)
Fixpoint updatesOnlyUnconfirmed (ops : list Op) (w : World) : bool :=
  match ops with
  | [] => true
  | op :: ops' =>
      match op with
      | UpdateExtraction id _ =>
          match lookup w id with
          | Some q => negb (isConfirmed q)
          | None => true
          end
      | _ => true
      end && updatesOnlyUnconfirmed ops' (exec op w)
  end.

End WithEnv.

(** The properties of the container in [localStorage], none while
    there is no container. *)
Definition entries (w : World) : list (string * Question) :=
  match item w with
  | Some s => questions s
  | None => []
  end.

(** What the three writing operations do to a record, named for the
    statements below: the record [createQuestion] builds, and the
    assignments of [confirmQuestion] and [updateExtraction]. *)
Definition created (questionId imageBase64 : string) (fileSize : Z)
  (fileFormat : string) (extractionResponse : ai.AIExtractionResponse)
  (now : Timestamp) : Question :=
  {| id := questionId;
     imageBase64 := imageBase64;
     fileSize := fileSize;
     fileFormat := fileFormat;
     extractedText := ai.questionText extractionResponse;
     confidence := ai.confidence extractionResponse;
     noiseFiltered := ai.noiseFiltered extractionResponse;
     processingStatus := statusOf extractionResponse;
     errorMessage := ai.errorMessage extractionResponse;
     uploadTimestamp := now;
     confirmedAt := None;
     gradeLevel := Some (ai.educationLevel extractionResponse);
     subject := None |}.

Definition confirmed (t : Timestamp) (q : Question) : Question :=
  set_processingStatus success (set_confirmedAt (Some t) q).

Definition updated (extractionResponse : ai.AIExtractionResponse)
  (q : Question) : Question :=
  set_processingStatus (statusOf extractionResponse)
    (set_errorMessage (ai.errorMessage extractionResponse)
       (set_noiseFiltered (ai.noiseFiltered extractionResponse)
          (set_confidence (ai.confidence extractionResponse)
             (set_extractedText (ai.questionText extractionResponse) q)))).

(** What an operation does to the properties of the container.  An
    operation that throws before it saves leaves them as they are, also
    when it has created the empty container on the way, and so does
    [confirmQuestion] or [updateExtraction] on an id that the container
    only inherits. *)
Inductive effect (w : World) : Op -> list (string * Question) -> Prop :=
| effect_none op : effect w op (entries w)
| effect_create i s f r id t :
    effect w (Create i s f r)
      (Js.assign (entries w) id (created id i s f r t))
| effect_confirm id q t :
    Js.get (entries w) id = Some q ->
    effect w (Confirm id) (Js.assign (entries w) id (confirmed t q))
| effect_update id r q :
    Js.get (entries w) id = Some q ->
    effect w (UpdateExtraction id r)
      (Js.assign (entries w) id (updated r q))
| effect_delete id : effect w (Delete id) (Js.delete (entries w) id)
| effect_clear : effect w ClearAll [].

(** The two invariants of the data model, on one record, as the code
    keeps them. *)
Definition confirmedImpliesSuccess (q : Question) : Prop :=
  confirmedAt q <> None -> processingStatus q = success.

Definition failedIffError (q : Question) : Prop :=
  processingStatus q <> success ->
  (processingStatus q = failed
   <-> errorMessage q <> None /\ errorMessage q <> Some EmptyString).

(** Sample surroundings for concrete runs: a browser with room, a clock
    that advances by a second per reading, and ids [q0], [q1], ... *)
Definition sampleEnv : Env :=
  {| inBrowser := true;
     now := fun k => (1000 * Z.of_nat k)%Z;
     randomUUID := fun k => "q" ++ Js.show (Z.of_nat k);
     hasRoom := fun _ => true;
     fitsAlone := fun _ => false;
     cannotCreateProperty :=
       fun field _ => "Cannot create property '" ++ field ++ "'" |}.

Definition sampleSuccess : ai.AIExtractionResponse :=
  {| ai.questionText := "Q";
     ai.confidence := 0.9%Q;
     ai.noiseFiltered := true;
     ai.errorMessage := None;
     ai.educationLevel := middle |}.

Definition sampleFailure (message : string) : ai.AIExtractionResponse :=
  {| ai.questionText := "";
     ai.confidence := 0%Q;
     ai.noiseFiltered := false;
     ai.errorMessage := Some message;
     ai.educationLevel := high |}.

(** The second invariant read with [errorMessage != null] alone, to
    compare with [failedIffError]. *)
Definition failedIffErrorNotNull (q : Question) : Prop :=
  processingStatus q = failed <-> errorMessage q <> None.

(** A container with two confirmed records and an unconfirmed one. *)
Definition sampleContainer : LocalStorageSchema :=
  {| version := "1.0.0";
     questions :=
       [("a", confirmed 5000
                (created "a" "data:image/png;base64,AAAA" 1024 "image/png"
                   sampleSuccess 1000));
        ("b", created "b" "data:image/png;base64,BBBB" 2048 "image/png"
                sampleSuccess 2000);
        ("c", confirmed 9000
                (created "c" "data:image/png;base64,CCCC" 4096 "image/webp"
                   sampleSuccess 3000))];
     metadata := {| createdAt := 0; lastModified := 9000;
                    totalQuestions := 3 |} |}.

(** Nothing stored, nothing read yet. *)
Definition fresh : World :=
  {| item := None; versionItem := None; prototype := [];
     clockReads := 0; uuidDraws := 0 |}.

End questions.

(** ** src/lib/ai/client.ts *)

Module client.

(** The two environment variables the module reads; an unset variable
    is [undefined]. *)
Record ProcessEnv := mkProcessEnv {
  NEXT_PUBLIC_DASHSCOPE_API_KEY : option string;
  DASHSCOPE_API_KEY : option string
}.

(** [a || b] on strings that may be [undefined]. *)
Definition orElse (a b : option string) : option string :=
  if Js.truthy a then a else b.

Definition AI_MODEL : string := "qwen-plus".

(** The [apiKey] the client is constructed with. *)
Definition apiKey (env : ProcessEnv) : option string :=
  orElse (orElse (NEXT_PUBLIC_DASHSCOPE_API_KEY env) (DASHSCOPE_API_KEY env))
    (Some EmptyString).

Definition isApiKeyConfigured (env : ProcessEnv) : bool :=
  Js.truthy
    (orElse (NEXT_PUBLIC_DASHSCOPE_API_KEY env) (DASHSCOPE_API_KEY env)).

End client.

(** ** src/lib/storage/schema.ts: getStorageMetrics *)

Module metrics.







End metrics.

(** ** src/components/upload/ImageUploader.tsx: the handlers *)

Module ImageUploader.

(** The state of the component. *)
Record State := mkState {
  file : option imageValidator.File;
  preview : string;
  extractedResult : option ai.AIExtractionResponse;
  questionId : option string;
  isProcessing : bool;
  error : option string;
  educationLevel : question.GradeLevel
}.

Definition initial : State :=
  {| file := None; preview := ""; extractedResult := None;
     questionId := None; isProcessing := false; error := None;
     educationLevel := question.middle |}.

Definition setFile (v : option imageValidator.File) (s : State) : State :=
  mkState v (preview s) (extractedResult s) (questionId s) (isProcessing s)
    (error s) (educationLevel s).
Definition setPreview (v : string) (s : State) : State :=
  mkState (file s) v (extractedResult s) (questionId s) (isProcessing s)
    (error s) (educationLevel s).
Definition setExtractedResult (v : option ai.AIExtractionResponse)
  (s : State) : State :=
  mkState (file s) (preview s) v (questionId s) (isProcessing s) (error s)
    (educationLevel s).
Definition setQuestionId (v : option string) (s : State) : State :=
  mkState (file s) (preview s) (extractedResult s) v (isProcessing s)
    (error s) (educationLevel s).
Definition setIsProcessing (v : bool) (s : State) : State :=
  mkState (file s) (preview s) (extractedResult s) (questionId s) v
    (error s) (educationLevel s).
Definition setError (v : option string) (s : State) : State :=
  mkState (file s) (preview s) (extractedResult s) (questionId s)
    (isProcessing s) v (educationLevel s).
Definition setEducationLevel (v : question.GradeLevel) (s : State) : State :=
  mkState (file s) (preview s) (extractedResult s) (questionId s)
    (isProcessing s) (error s) v.

(** The component with what it acts on: its state, the storage, and the
    number of requests sent to the extraction service so far. *)
Record App := mkApp {
  ui : State;
  world : schema.World;
  requests : nat
}.

(** [err.message] of what the storage code throws; the message of the
    [DOMException] is the browser's. *)
Definition messageOf (quotaMessage : string) (e : schema.Thrown) : string :=
  match e with
  | schema.Error message => message
  | schema.DOMException _ => quotaMessage
  | schema.TypeError message => message
  end.

(** [message || fallback] *)
Definition orDefault (message fallback : string) : string :=
  match message with
  | EmptyString => fallback
  | String _ _ => message
  end.

Section WithEnv.
Variable env : schema.Env.
Variable quotaMessage : string.

(** [extractText], run to its end.  [service] is what the extraction
    client meets during the call; the education level is the one of the
    render the handler belongs to. *)
Definition extractText (service : extraction.Env)
  (file : imageValidator.File) (base64Preview : string) (app : App)
  : App :=
  let s := setError None (setIsProcessing true (ui app)) in
  let run :=
    extraction.extractQuestionFromImage service base64Preview
      (educationLevel (ui app)) 3 in
  let sent := (requests app + extraction.calls run)%nat in
  match extraction.outcome run with
  | inr result =>
      if Js.truthy (ai.errorMessage result) then
        mkApp
          (setIsProcessing false
             (setExtractedResult None
                (setError (ai.errorMessage result) s)))
          (world app) sent
      else
        match questions.createQuestion env base64Preview
                (imageValidator.size file) (imageValidator.type file)
                result (world app) with
        | (inr id, w) =>
            mkApp
              (setIsProcessing false
                 (setQuestionId (Some id)
                    (setExtractedResult (Some result) s)))
              w sent
        | (inl err, w) =>
            mkApp
              (setIsProcessing false
                 (setError
                    (Some (orDefault (messageOf quotaMessage err)
                             "Failed to extract text. Please try again."))
                    s))
              w sent
        end
  | inl err =>
      mkApp
        (setIsProcessing false
           (setError
              (Some (orDefault (Js.message err)
                       "Failed to extract text. Please try again."))
              s))
        (world app) sent
  end.

(** [handleFileSelect] for the file chosen, if one was; [read] is what
    [fileToBase64] resolves with, [None] when it rejects. *)
Definition handleFileSelect (selectedFile : option imageValidator.File)
  (read : option string) (service : extraction.Env) (app : App) : App :=
  match selectedFile with
  | None => app
  | Some selectedFile =>
      let s :=
        setQuestionId None (setExtractedResult None (setError None (ui app)))
      in
      let validation := imageValidator.validateImage selectedFile in
      if negb (imageValidator.isValid validation) then
        mkApp (setError (imageValidator.errorMessage validation) s)
          (world app) (requests app)
      else
        let s := setFile (Some selectedFile) s in
        match read with
        | Some base64 =>
            extractText service selectedFile base64
              (mkApp (setPreview base64 s) (world app) (requests app))
        | None =>
            mkApp
              (setError (Some "Failed to process image. Please try again.")
                 s)
              (world app) (requests app)
        end
  end.

Definition handleRetry (service : extraction.Env) (app : App) : App :=
  match file (ui app), preview (ui app) with
  | Some f, String c p => extractText service f (String c p) app
  | _, _ => app
  end.

(** [handleConfirm]; the value says whether it throws. *)
Definition handleConfirm (app : App) : (schema.Thrown + unit) * App :=
  match questionId (ui app) with
  | Some (String c i) =>
      match questions.confirmQuestion env (String c i) (world app) with
      | (inr _, w) =>
          (inr tt,
           mkApp
             (setError None
                (setQuestionId None
                   (setExtractedResult None
                      (setPreview "" (setFile None (ui app))))))
             w (requests app))
      | (inl err, w) =>
          (inr tt,
           mkApp
             (setError
                (Some (orDefault (messageOf quotaMessage err)
                         "Failed to save question."))
                (ui app))
             w (requests app))
      end
  | Some EmptyString | None => (inr tt, app)
  end.

Definition handleEducationLevelChange (level : question.GradeLevel)
  (app : App) : App :=
  mkApp (setEducationLevel level (ui app)) (world app) (requests app).

(** Whether the confirmation view, with its two buttons, is rendered. *)
Definition confirmationShown (s : State) : bool :=
  match preview s, extractedResult s, questionId s with
  | String _ _, Some _, Some (String _ _) => negb (isProcessing s)
  | _, _, _ => false
  end.

End WithEnv.

End ImageUploader.

(** ** src/components/upload/ConfirmationView.tsx: the handlers *)

Module ConfirmationView.

Inductive Toast :=
| success (title description : string)
| error (title description : string)
| info (title description : string).

(** The view's own state, and the toasts shown so far. *)
Record View := mkView {
  isSaving : bool;
  toasts : list Toast
}.

Section WithCallbacks.
Context {A : Type}.

(** [handleConfirm] around the [onConfirm] it is given, which may
    throw; [message] reads [error.message]. *)
Definition handleConfirm (onConfirm : A -> (schema.Thrown + unit) * A)
  (message : schema.Thrown -> string) (v : View) (a : A) : View * A :=
  match onConfirm a with
  | (inr _, a') =>
      (mkView false
         (toasts v ++ [success "太棒了！" "你的错题已成功保存。"]), a')
  | (inl err, a') =>
      (mkView false
         (toasts v
            ++ [error "保存失败"
                  (ImageUploader.orDefault (message err) "请稍后重试。")]),
       a')
  end.

Definition handleRetry (onRetry : A -> A) (v : View) (a : A) : View * A :=
  (mkView (isSaving v)
     (toasts v ++ [info "重新识别中..." "正在重新扫描图片，请稍候。"]),
   onRetry a).

End WithCallbacks.

End ConfirmationView.

(** ** The upload page as a whole: events on the two components *)

Module uploadPage.

Inductive Event :=
| SelectFile (selectedFile : option imageValidator.File)
    (read : option string) (service : extraction.Env)
| ChooseLevel (level : question.GradeLevel)
| ClickConfirm
| ClickRetry (service : extraction.Env).

Record Page := mkPage {
  app : ImageUploader.App;
  view : ConfirmationView.View
}.

(** One event, handled to its end before the next.  The two buttons of
    the confirmation view exist only while it is rendered. *)
Definition handle (env : schema.Env) (quotaMessage : string) (e : Event)
  (p : Page) : Page :=
  match e with
  | SelectFile selectedFile read service =>
      mkPage
        (ImageUploader.handleFileSelect env quotaMessage selectedFile read
           service (app p))
        (view p)
  | ChooseLevel level =>
      mkPage (ImageUploader.handleEducationLevelChange level (app p))
        (view p)
  | ClickConfirm =>
      if ImageUploader.confirmationShown (ImageUploader.ui (app p)) then
        let '(v, a) :=
          ConfirmationView.handleConfirm
            (ImageUploader.handleConfirm env quotaMessage)
            (ImageUploader.messageOf quotaMessage) (view p) (app p) in
        mkPage a v
      else p
  | ClickRetry service =>
      if ImageUploader.confirmationShown (ImageUploader.ui (app p)) then
        let '(v, a) :=
          ConfirmationView.handleRetry
            (ImageUploader.handleRetry env quotaMessage service)
            (view p) (app p) in
        mkPage a v
      else p
  end.

Definition handleAll (env : schema.Env) (quotaMessage : string)
  (events : list Event) (p : Page) : Page :=
  fold_left (fun p e => handle env quotaMessage e p) events p.

(** The page as first rendered, on a given storage. *)
Definition opened (w : schema.World) : Page :=
  {| app := {| ImageUploader.ui := ImageUploader.initial;
               ImageUploader.world := w;
               ImageUploader.requests := 0 |};
     view := {| ConfirmationView.isSaving := false;
                ConfirmationView.toasts := [] |} |}.

(** A stored record as the upload page leaves it: never [failed], its
    error message null or empty, and [success] exactly when
    confirmed. *)
Definition asUploaded (q : question.Question) : Prop :=
  Js.truthy (question.errorMessage q) = false
  /\ question.processingStatus q <> question.failed
  /\ (question.processingStatus q = question.success
      <-> question.confirmedAt q <> None).

(** The operations of the store that the page calls: [createQuestion]
    with a result without error message, and [confirmQuestion]. *)
Definition performs (op : questions.Op) : Prop :=
  match op with
  | questions.Create _ _ _ r => Js.truthy (ai.errorMessage r) = false
  | questions.Confirm _ => True
  | _ => False
  end.

(** The state of the uploader against the storage: the question it
    holds the id of is a stored record, unconfirmed and [pending], of a
    file it still has, and carries the result on display if there is
    one; the version item was written when the record was. *)
Definition inStep (a : ImageUploader.App) : Prop :=
  forall id,
    ImageUploader.questionId (ImageUploader.ui a) = Some id ->
    ImageUploader.file (ImageUploader.ui a) <> None
    /\ schema.versionItem (ImageUploader.world a)
       = Some schema.CURRENT_VERSION
    /\ exists q,
         questions.lookup (ImageUploader.world a) id = Some q
         /\ question.processingStatus q = question.pending
         /\ question.confirmedAt q = None
         /\ forall r,
              ImageUploader.extractedResult (ImageUploader.ui a) = Some r ->
              question.extractedText q = ai.questionText r
              /\ question.confidence q = ai.confidence r
              /\ question.noiseFiltered q = ai.noiseFiltered r
              /\ question.gradeLevel q = Some (ai.educationLevel r).

(** Sample surroundings for concrete runs: a PNG of one KB with its
    data URL, a PDF, a service that answers every request with a
    result, the message of a browser's quota error, and the page in
    [questions.sampleEnv] after the PNG was chosen. *)
Definition sampleFile : imageValidator.File :=
  imageValidator.mkFile "image/png" 1024.

Definition samplePdf : imageValidator.File :=
  imageValidator.mkFile "application/pdf" 1024.

Definition sampleDataUrl : string := "data:image/png;base64,AAAA".

Definition answering : extraction.Env :=
  extraction.scripted true [] extraction.fine.

Definition sampleQuotaMessage : string := "The quota has been exceeded.".

Definition sampleEvents : list Event :=
  [SelectFile (Some sampleFile) (Some sampleDataUrl) answering].

Definition samplePage : Page :=
  handleAll questions.sampleEnv sampleQuotaMessage sampleEvents
    (opened questions.fresh).

End uploadPage.

(** ** Views of the stored container, for the statements below *)

Module container.
Import question schema questions.

(** [metadata.totalQuestions] of the container, 0 while there is none. *)
Definition count (w : World) : Z :=
  match item w with
  | Some s => totalQuestions (metadata s)
  | None => 0%Z
  end.

(** The ids the records are stored under, in order. *)
Definition keys (w : World) : list string := map fst (entries w).

(** The ids drawn from [crypto.randomUUID] so far. *)
Definition drawn (env : Env) (w : World) : list string :=
  map (randomUUID env) (seq 0 (uuidDraws w)).

(** The errors of the storage code. *)
Definition storageFull : Thrown :=
  Error "Storage is full. Please delete old questions to make space.".

Definition questionNotFound (id : string) : Thrown :=
  Error ("Question not found: " ++ id).

Definition quotaExceeded : Thrown := DOMException "QuotaExceededError".

(** [schema.questions[id]] as the operations find it in a world: the
    stored record, what the container inherits, or nothing. *)
Definition found (w : World) (id : string) : option (Js.Member Question) :=
  Js.index (prototype w) (entries w) id.

(** What an operation throws, if it throws. *)
Definition thrown {A} (r : (Thrown + A) * World) : option Thrown :=
  match fst r with
  | inl e => Some e
  | inr _ => None
  end.

Definition thrownBy (env : Env) (op : Op) (w : World) : option Thrown :=
  match op with
  | Create i s f r => thrown (createQuestion env i s f r w)
  | Confirm id => thrown (confirmQuestion env id w)
  | UpdateExtraction id r => thrown (updateExtraction env id r w)
  | Delete id => thrown (deleteQuestion env id w)
  | ClearAll => thrown (clearAllQuestions env w)
  end.

(** The id an operation is called with, and the error with which it
    refuses what [schema.questions[id]] gave before it saves anything:
    [Question not found] for what is falsy, a [TypeError] where it is
    to assign to a field of a primitive value. *)
Definition target (op : Op) : string :=
  match op with
  | Confirm id | UpdateExtraction id _ | Delete id => id
  | Create _ _ _ _ | ClearAll => EmptyString
  end.

Definition refusal (env : Env) (op : Op) (m : option (Js.Member Question))
  : option Thrown :=
  match op with
  | Confirm id =>
      match m with
      | Some (Js.Inherit (Js.Added p)) =>
          if Js.truthyPrimitive p
          then Some (TypeError (cannotCreateProperty env "confirmedAt" p))
          else Some (questionNotFound id)
      | Some _ => None
      | None => Some (questionNotFound id)
      end
  | UpdateExtraction id _ =>
      match m with
      | Some (Js.Inherit (Js.Added p)) =>
          if Js.truthyPrimitive p
          then Some (TypeError (cannotCreateProperty env "extractedText" p))
          else Some (questionNotFound id)
      | Some _ => None
      | None => Some (questionNotFound id)
      end
  | Delete id =>
      if Js.truthyMember m then None else Some (questionNotFound id)
  | Create _ _ _ _ | ClearAll => None
  end.

Definition cannotSave : Thrown :=
  Error "Cannot save schema in non-browser environment".

(** What an operation has done to the container and to the number of
    ids drawn, whether it returned or threw: nothing, or what it was
    called for.  A [deleteQuestion] that gets as far as saving lowers
    the count, whether or not the container holds a record under the
    id. *)
Inductive change (env : Env) (w w' : World) : Op -> Prop :=
| change_none op :
    entries w' = entries w -> count w' = count w ->
    (uuidDraws w <= uuidDraws w')%nat ->
    change env w w' op
| change_create i s f r t :
    entries w'
    = Js.assign (entries w) (randomUUID env (uuidDraws w))
        (created (randomUUID env (uuidDraws w)) i s f r t) ->
    count w' = (count w + 1)%Z ->
    uuidDraws w' = S (uuidDraws w) ->
    change env w w' (Create i s f r)
| change_confirm id q :
    Js.get (entries w) id = Some q ->
    entries w'
    = Js.assign (entries w) id (confirmed (now env (clockReads w)) q) ->
    count w' = count w ->
    uuidDraws w' = uuidDraws w ->
    change env w w' (Confirm id)
| change_update id r q :
    Js.get (entries w) id = Some q ->
    entries w' = Js.assign (entries w) id (updated r q) ->
    count w' = count w ->
    uuidDraws w' = uuidDraws w ->
    change env w w' (UpdateExtraction id r)
| change_delete id :
    Js.truthyMember (found w id) = true ->
    entries w' = Js.delete (entries w) id ->
    count w' = (count w - 1)%Z ->
    uuidDraws w' = uuidDraws w ->
    change env w w' (Delete id)
| change_clear :
    entries w' = [] -> count w' = 0%Z ->
    uuidDraws w' = uuidDraws w ->
    change env w w' ClearAll.

(** [deleteQuestion] is never applied to a name that the container
    only inherits. *)
Fixpoint deletesOnlyRecords (env : Env) (ops : list Op) (w : World)
  : bool :=
  match ops with
  | [] => true
  | op :: ops' =>
      match op with
      | Delete id =>
          match lookup w id with
          | Some _ => true
          | None => negb (Js.truthyMember (found w id))
          end
      | _ => true
      end && deletesOnlyRecords env ops' (exec env op w)
  end.

(** Sample worlds for concrete runs: [sampleContainer] as stored, and
    the surroundings [sampleEnv] with full storage and without a
    browser. *)
Definition stored : World :=
  {| item := Some sampleContainer;
     versionItem := Some CURRENT_VERSION;
     prototype := [];
     clockReads := 0; uuidDraws := 0 |}.

Definition fullEnv : Env :=
  {| inBrowser := true;
     now := now sampleEnv;
     randomUUID := randomUUID sampleEnv;
     hasRoom := fun _ => false;
     fitsAlone := fun _ => false;
     cannotCreateProperty := cannotCreateProperty sampleEnv |}.

Definition serverEnv : Env :=
  {| inBrowser := false;
     now := now sampleEnv;
     randomUUID := randomUUID sampleEnv;
     hasRoom := fun _ => true;
     fitsAlone := fun _ => false;
     cannotCreateProperty := cannotCreateProperty sampleEnv |}.

End container.

(** * Properties *)

Local Open Scope Z_scope.

(** ** The validator *)

Section Validator.
Import imageValidator.

Lemma includes_In (l : list string) (s : string) :
  includes l s = true <-> In s l.
Proof.
  unfold includes. rewrite existsb_exists. split.
  - intros [x [Hin Heq]]. apply String.eqb_eq in Heq. now subst.
  - intros Hin. exists s. split; [assumption | apply String.eqb_refl].
Qed.

(** The hundredths [toFixed(2)] prints for a size in bytes taken in
    MiB, in integer arithmetic. *)
Lemma toFixedCents_MiB (bytes : Z) :
  Js.toFixedCents (inject_Z bytes / inject_Z (1024 * 1024))
  = (200 * bytes + 1048576) / 2097152.
Proof.
  unfold Js.toFixedCents. rewrite Zdiv_Qdiv. apply Qfloor_comp.
  change (1024 * 1024)%Z with 1048576%Z.
  unfold Qeq, Qdiv, Qmult, Qplus, Qinv, inject_Z; cbn -[Z.mul Z.add].

  lia.
Qed.

Lemma MiB_nonneg (bytes : Z) :
  0 <= bytes ->
  Qle_bool 0 (inject_Z bytes / inject_Z (1024 * 1024)) = true.
Proof.
  intros H. apply Qle_bool_iff.
  apply Qle_shift_div_l; [reflexivity |].
  rewrite Qmult_0_l. change 0%Q with (inject_Z 0). now rewrite <- Zle_Qle.
Qed.

Lemma nearest_cent (bytes : Z) :
  let n := (200 * bytes + 1048576) / 2097152 in
  2 * Z.abs (n * 1048576 - 100 * bytes) <= 1048576.
Proof.
  intros n. subst n.
  pose proof (Z.div_mod (200 * bytes + 1048576) 2097152 ltac:(lia)) as E.
  pose proof (Z.mod_pos_bound (200 * bytes + 1048576) 2097152 ltac:(lia)).
  lia.
Qed.

Lemma supported_includes (type : string) :
  supported type <-> includes SUPPORTED_FORMATS type = true.
Proof.
  rewrite includes_In. unfold supported, SUPPORTED_FORMATS. simpl.
  intuition congruence.
Qed.

Lemma validateImageFormat_unsupported (file : File) :
  ~ supported (type file) ->
  validateImageFormat file = formatError (type file).
Proof.
  intros Hn. rewrite supported_includes in Hn.
  apply not_true_is_false in Hn.
  unfold validateImageFormat. now rewrite Hn.
Qed.

Lemma validateImageFormat_supported (file : File) :
  supported (type file) -> validateImageFormat file = valid.
Proof.
  intros Hs. apply supported_includes in Hs.
  unfold validateImageFormat. now rewrite Hs.
Qed.

Lemma validateImageSize_large (file : File) :
  MAX_FILE_SIZE < size file ->
  validateImageSize file
  = sizeError ((200 * size file + 1048576) / 2097152).
Proof.
  intros Hsize. unfold validateImageSize.
  apply Z.ltb_lt in Hsize as Hb. rewrite Hb.
  unfold Js.toFixed2, sizeError.
  rewrite MiB_nonneg by (unfold MAX_FILE_SIZE in Hsize; lia).
  now rewrite toFixedCents_MiB.
Qed.

Lemma validateImageSize_small (file : File) :
  size file <= MAX_FILE_SIZE -> validateImageSize file = valid.
Proof.
  intros Hsize. unfold validateImageSize.
  apply Z.ltb_ge in Hsize. now rewrite Hsize.
Qed.

(** C8.  [validateImage] checks the format first and the size second: a
    declared type other than [image/jpeg], [image/png] and [image/webp]
    gives the format failure, which carries that type, whatever the
    size; a supported type with more than [5 * 1024 * 1024] bytes gives
    the size failure, which carries the size in MiB to two decimals,
    [cents / 100] being the multiple of 0.01 nearest to it; every other
    file is valid. *)
Theorem validateImage_format_then_size (file : File) :
  (~ supported (type file) ->
     validateImage file = formatError (type file))
  /\ (supported (type file) -> 5 * 1024 * 1024 < size file ->
        exists cents : Z,
          validateImage file = sizeError cents
          /\ 2 * Z.abs (cents * (1024 * 1024) - 100 * size file)
               <= 1024 * 1024)
  /\ (supported (type file) -> size file <= 5 * 1024 * 1024 ->
        validateImage file = valid).
Proof.
  unfold validateImage. repeat split.
  - intros Hn. now rewrite validateImageFormat_unsupported.
  - intros Hs Hsize. rewrite validateImageFormat_supported by assumption.
    rewrite validateImageSize_large by exact Hsize.
    exists ((200 * size file + 1048576) / 2097152). split.
    + reflexivity.
    + apply (nearest_cent (size file)).
  - intros Hs Hsize. rewrite validateImageFormat_supported by assumption.
    now rewrite validateImageSize_small.
Qed.

Lemma validateImage_format_then_size_witness :
  validateImage (mkFile "application/pdf" 9000000)
    = formatError "application/pdf"
  /\ (exists cents : Z,
        validateImage (mkFile "image/png" 6000000) = sizeError cents
        /\ 2 * Z.abs (cents * (1024 * 1024) - 100 * 6000000)
             <= 1024 * 1024)
  /\ validateImage (mkFile "image/webp" 5242880) = valid.
Proof.
  split; [| split].
  - apply (proj1 (validateImage_format_then_size
                    (mkFile "application/pdf" 9000000))).
    unfold supported; cbn. intuition discriminate.
  - apply (proj1 (proj2 (validateImage_format_then_size
                           (mkFile "image/png" 6000000)))).
    + unfold supported; cbn. tauto.
    + cbn. lia.
  - apply (proj2 (proj2 (validateImage_format_then_size
                           (mkFile "image/webp" 5242880)))).
    + unfold supported; cbn. tauto.
    + cbn. lia.
Defined.

End Validator.

(** ** The compressor *)

Section RoundDown.
Import imageValidator.
Local Open Scope Q_scope.

Lemma roundDown64_monotone (x y : Q) :
  x <= y -> roundDown64 x <= roundDown64 y.
Proof.
  intros H. unfold roundDown64.
  apply Qmult_le_compat_r; [| discriminate].
  rewrite <- Zle_Qle. apply Qfloor_resp_le.
  apply Qmult_le_compat_r; [exact H | discriminate].
Qed.

Lemma roundDown64_integer (z : Z) : roundDown64 (inject_Z z) == inject_Z z.
Proof.
  unfold roundDown64.
  change 18446744073709551616 with (inject_Z 18446744073709551616) at 1.
  rewrite <- inject_Z_mult, Qfloor_Z, inject_Z_mult.
  change (inject_Z 18446744073709551616) with 18446744073709551616.
  field.
Qed.

Lemma roundDown64_error (x : Q) :
  1 # 4294967296 <= x ->
  Qabs (roundDown64 x - x) <= (1 # 4294967296) * x.
Proof.
  intros Hx. unfold roundDown64.
  pose proof (Qfloor_le (x * 18446744073709551616)) as Lo.
  pose proof (Qlt_floor (x * 18446744073709551616)) as Hi.
  rewrite inject_Z_plus in Hi. change (inject_Z 1) with 1 in Hi.
  remember (inject_Z (Qfloor (x * 18446744073709551616))) as n eqn:En.
  clear En.
  apply Qabs_Qle_condition.
  assert (E : n / 18446744073709551616 * 18446744073709551616 == n)
    by (field; discriminate).
  remember (n / 18446744073709551616) as g eqn:Eg. clear Eg.
  split; lra.
Qed.

End RoundDown.

Section Compressor.
Import imageValidator.
Local Open Scope Q_scope.

(** [fl] rounds a rational to a JavaScript number.  Of the rounding only
    this is used: it is monotone, it leaves the integers up to [2^53]
    as they are, and on [2^-32 .. 1200] its relative error is at most
    [eps]. *)
Variable fl : Q -> Q.
Variable eps : Q.
Hypothesis eps_small : 0 <= eps /\ eps <= 1 # 2.
Hypothesis fl_monotone : forall x y : Q, x <= y -> fl x <= fl y.
Hypothesis fl_integer :
  forall z : Z, (Z.abs z <= 2 ^ 53)%Z -> fl (inject_Z z) == inject_Z z.
Hypothesis fl_error :
  forall x : Q, 1 # 4294967296 <= x -> x <= 1200 ->
                Qabs (fl x - x) <= eps * x.

Lemma Qmult_le_l_weak (x y z : Q) : 0 <= z -> x <= y -> z * x <= z * y.
Proof.
  intros Hz Hxy. rewrite (Qmult_comm z x), (Qmult_comm z y).
  now apply Qmult_le_compat_r.
Qed.

Lemma Qgtb_true (x y : Q) : Js.Qgtb x y = true <-> y < x.
Proof.
  unfold Js.Qgtb. rewrite negb_true_iff, <- not_true_iff_false, Qle_bool_iff.
  split; [apply Qnot_le_lt | apply Qlt_not_le].
Qed.

Lemma Qgtb_false (x y : Q) : Js.Qgtb x y = false <-> x <= y.
Proof.
  unfold Js.Qgtb. rewrite negb_false_iff, Qle_bool_iff. reflexivity.
Qed.

(** One scaled edge: [fl (fl (a / b) * 1200)] for [0 < a <= b]. *)
Lemma scaled_edge (a b : Z) :
  (0 < a)%Z -> (a <= b)%Z -> (b < 2 ^ 32)%Z ->
  let e := fl (fl (inject_Z a / inject_Z b) * maxDimension) in
  e <= 1200
  /\ Qabs (e * inject_Z b - 1200 * inject_Z a)
     <= (2 * eps + eps * eps) * (1200 * inject_Z a).
Proof.
  intros Ha Hab Hb e.
  assert (A1 : 1 <= inject_Z a)
    by (change 1 with (inject_Z 1); rewrite <- Zle_Qle; lia).
  assert (AB : inject_Z a <= inject_Z b) by (rewrite <- Zle_Qle; lia).
  assert (B32 : inject_Z b <= 4294967296)
    by (change 4294967296 with (inject_Z (2 ^ 32)); rewrite <- Zle_Qle; lia).
  destruct eps_small as [eps0 eps1].
  unfold maxDimension in e.
  remember (inject_Z a) as A eqn:EA. remember (inject_Z b) as B eqn:EB.
  clear EA EB Ha Hab Hb.
  assert (Rb : (A / B) * B == A) by (field; lra).
  assert (R1 : A / B <= 1) by (apply Qle_shift_div_r; lra).
  assert (Rlo : 1 # 4294967296 <= A / B).
  { apply Qle_shift_div_l; [lra |]. lra. }
  remember (A / B) as r eqn:Er. clear Er.
  pose proof (fl_monotone r 1 R1) as F1.
  rewrite (fl_integer 1 ltac:(cbn; lia)) in F1.
  change (inject_Z 1) with 1 in F1.
  pose proof (fl_error r Rlo ltac:(lra)) as E1.
  apply Qabs_Qle_condition in E1. destruct E1 as [E1l E1u].
  remember (fl r) as fr eqn:Efr. clear Efr.
  assert (Hre : 0 <= eps * r) by (apply Qmult_le_0_compat; lra).
  assert (Hre2 : eps * r <= (1 # 2) * r).
  { apply Qmult_le_compat_r; lra. }
  assert (X1 : fr * 1200 <= 1200) by lra.
  assert (Xlo : 1 # 4294967296 <= fr * 1200) by lra.
  pose proof (fl_monotone (fr * 1200) 1200 X1) as F2.
  change 1200 with (inject_Z 1200) in F2 at 2.
  rewrite (fl_integer 1200 ltac:(cbn; lia)) in F2.
  change (inject_Z 1200) with 1200 in F2.
  split; [exact F2 |].
  pose proof (fl_error (fr * 1200) Xlo X1) as E2.
  apply Qabs_Qle_condition in E2. destruct E2 as [E2l E2u].
  fold e in E2l, E2u, F2.
  remember e as e' eqn:Ee. clear Ee e.
  apply Qabs_Qle_condition.
  assert (M1 : eps * fr <= eps * r + eps * eps * r).
  { setoid_replace (eps * r + eps * eps * r) with (eps * (r + eps * r))
      by ring.
    apply Qmult_le_l_weak; lra. }
  assert (D : - (1200 * r * (2 * eps + eps * eps)) <= e' - 1200 * r
              /\ e' - 1200 * r <= 1200 * r * (2 * eps + eps * eps)).
  { split; lra. }
  destruct D as [Dl Du].
  assert (B0 : 0 <= B) by lra.
  pose proof (Qmult_le_compat_r _ _ B Dl B0) as Gl.
  pose proof (Qmult_le_compat_r _ _ B Du B0) as Gu.
  rewrite <- Rb. split; lra.
Qed.

(** The scaled edge is more than nothing: each of the two roundings
    keeps at least half of what it rounds. *)
Lemma scaled_edge_positive (a b : Z) :
  (0 < a)%Z -> (a <= b)%Z -> (b < 2 ^ 32)%Z ->
  0 < fl (fl (inject_Z a / inject_Z b) * maxDimension).
Proof.
  intros Ha Hab Hb.
  assert (A1 : 1 <= inject_Z a)
    by (change 1 with (inject_Z 1); rewrite <- Zle_Qle; lia).
  assert (AB : inject_Z a <= inject_Z b) by (rewrite <- Zle_Qle; lia).
  assert (B32 : inject_Z b <= 4294967296)
    by (change 4294967296 with (inject_Z (2 ^ 32)); rewrite <- Zle_Qle; lia).
  destruct eps_small as [eps0 eps1].
  unfold maxDimension.
  remember (inject_Z a) as A eqn:EA. remember (inject_Z b) as B eqn:EB.
  clear EA EB Ha Hab Hb.
  assert (R1 : A / B <= 1) by (apply Qle_shift_div_r; lra).
  assert (Rlo : 1 # 4294967296 <= A / B).
  { apply Qle_shift_div_l; [lra |]. lra. }
  remember (A / B) as r eqn:Er. clear Er.
  pose proof (fl_monotone r 1 R1) as F1.
  rewrite (fl_integer 1 ltac:(cbn; lia)) in F1.
  change (inject_Z 1) with 1 in F1.
  pose proof (fl_error r Rlo ltac:(lra)) as E1.
  apply Qabs_Qle_condition in E1. destruct E1 as [E1l E1u].
  remember (fl r) as fr eqn:Efr. clear Efr.
  assert (Hre2 : eps * r <= (1 # 2) * r).
  { apply Qmult_le_compat_r; lra. }
  assert (X1 : fr * 1200 <= 1200) by lra.
  assert (Xlo : 1 # 4294967296 <= fr * 1200) by lra.
  pose proof (fl_error (fr * 1200) Xlo X1) as E2.
  apply Qabs_Qle_condition in E2. destruct E2 as [E2l E2u].
  assert (Hx2 : eps * (fr * 1200) <= (1 # 2) * (fr * 1200)).
  { apply Qmult_le_compat_r; lra. }
  lra.
Qed.

Lemma Qabs_le_sym (x y z : Q) : Qabs (x - y) <= z -> Qabs (y - x) <= z.
Proof.
  intros H. apply Qabs_Qle_condition in H. apply Qabs_Qle_condition.
  split; lra.
Qed.

Lemma Qfloor_le_1200 (x : Q) : x <= 1200 -> (Qfloor x <= 1200)%Z.
Proof.
  intros H. change 1200%Z with (Qfloor (inject_Z 1200)).
  now apply Qfloor_resp_le.
Qed.

Lemma Qfloor_1200 : Qfloor 1200 = 1200%Z.
Proof. reflexivity. Qed.

Lemma Qfloor_window (x : Q) :
  inject_Z (Qfloor x) <= x /\ x < inject_Z (Qfloor x) + 1.
Proof.
  split; [apply Qfloor_le |].
  pose proof (Qlt_floor x) as H. rewrite inject_Z_plus in H. exact H.
Qed.

Lemma Qfloor_nonneg (x : Q) : 0 <= x -> (0 <= Qfloor x)%Z.
Proof.
  intros H. change 0%Z with (Qfloor (inject_Z 0)). now apply Qfloor_resp_le.
Qed.

(** C9.  For a source image of positive width and height (below
    [2^32], as the attributes of an image are), neither computed
    dimension exceeds 1200, nor does the canvas size they are assigned
    to; the dimensions are the source's when both are at most 1200; and
    the aspect ratio is kept up to the rounding of the two scaling
    operations: cross-multiplied, the ratios differ by at most
    [2 eps + eps^2] times 1200 times the shorter source edge, which is
    nothing when the arithmetic is exact.  The bounds are met from
    below as well: both dimensions are positive, and when an edge of
    the source exceeds 1200 the longer edge (the height when both are
    equal) is scaled to 1200 exactly, so that the bound on the ratios
    fixes the other dimension, [1200] times the shorter edge over the
    longer one, up to the same rounding.  The canvas has the
    dimensions with their fraction dropped: the source's size when
    both edges are at most 1200, and 1200 along the longer edge
    else. *)
Theorem compressDimensions_within_bounds (imgWidth imgHeight : Z) :
  (0 < imgWidth < 2 ^ 32)%Z ->
  (0 < imgHeight < 2 ^ 32)%Z ->
  let width := fst (compressDimensions fl imgWidth imgHeight) in
  let height := snd (compressDimensions fl imgWidth imgHeight) in
  (width <= 1200 /\ height <= 1200)
  /\ ((fst (canvasDimensions fl imgWidth imgHeight) <= 1200)%Z
      /\ (snd (canvasDimensions fl imgWidth imgHeight) <= 1200)%Z)
  /\ ((imgWidth <= 1200)%Z -> (imgHeight <= 1200)%Z ->
      compressDimensions fl imgWidth imgHeight
      = (inject_Z imgWidth, inject_Z imgHeight))
  /\ Qabs (width * inject_Z imgHeight - height * inject_Z imgWidth)
     <= (2 * eps + eps * eps)
        * (1200 * inject_Z (Z.min imgWidth imgHeight))
  /\ (0 < width /\ 0 < height)
  /\ ((1200 < imgWidth)%Z \/ (1200 < imgHeight)%Z ->
      ((imgHeight < imgWidth)%Z ->
       width = 1200
       /\ Qabs (height * inject_Z imgWidth - 1200 * inject_Z imgHeight)
          <= (2 * eps + eps * eps) * (1200 * inject_Z imgHeight)
       /\ fst (canvasDimensions fl imgWidth imgHeight) = 1200%Z)
      /\ ((imgWidth <= imgHeight)%Z ->
          height = 1200
          /\ Qabs (width * inject_Z imgHeight - 1200 * inject_Z imgWidth)
             <= (2 * eps + eps * eps) * (1200 * inject_Z imgWidth)
          /\ snd (canvasDimensions fl imgWidth imgHeight) = 1200%Z))
  /\ ((imgWidth <= 1200)%Z -> (imgHeight <= 1200)%Z ->
      canvasDimensions fl imgWidth imgHeight = (imgWidth, imgHeight))
  /\ (inject_Z (fst (canvasDimensions fl imgWidth imgHeight)) <= width
      /\ width < inject_Z (fst (canvasDimensions fl imgWidth imgHeight)) + 1
      /\ inject_Z (snd (canvasDimensions fl imgWidth imgHeight)) <= height
      /\ height
         < inject_Z (snd (canvasDimensions fl imgWidth imgHeight)) + 1)
  /\ ((0 <= fst (canvasDimensions fl imgWidth imgHeight))%Z
      /\ (0 <= snd (canvasDimensions fl imgWidth imgHeight))%Z).
Proof.
  intros [Hw0 Hw32] [Hh0 Hh32].
  assert (W0 : 0 < inject_Z imgWidth)
    by (change 0 with (inject_Z 0); rewrite <- Zlt_Qlt; lia).
  assert (H0 : 0 < inject_Z imgHeight)
    by (change 0 with (inject_Z 0); rewrite <- Zlt_Qlt; lia).
  destruct eps_small as [eps0 eps1].
  unfold canvasDimensions, compressDimensions.
  destruct (Js.Qgtb (inject_Z imgWidth) maxDimension
            || Js.Qgtb (inject_Z imgHeight) maxDimension) eqn:Big.
  - assert (NotSmall : (imgWidth <= 1200)%Z -> (imgHeight <= 1200)%Z ->
                       False).
    { intros Hw Hh.
      apply orb_true_iff in Big. unfold maxDimension in Big.
      destruct Big as [Big | Big]; apply Qgtb_true in Big;
        change 1200 with (inject_Z 1200) in Big;
        rewrite <- Zlt_Qlt in Big; lia. }
    destruct (Js.Qgtb (inject_Z imgWidth) (inject_Z imgHeight)) eqn:Wide.
    + apply Qgtb_true in Wide. rewrite <- Zlt_Qlt in Wide.
      destruct (scaled_edge imgHeight imgWidth ltac:(lia) ltac:(lia)
                  ltac:(lia)) as [E1 E2].
      pose proof (scaled_edge_positive imgHeight imgWidth ltac:(lia)
                    ltac:(lia) ltac:(lia)) as E0.
      cbv zeta in E1, E2.
      remember (fl (fl (inject_Z imgHeight / inject_Z imgWidth)
                    * maxDimension)) as e eqn:Ee. clear Ee.
      cbn [fst snd]. unfold maxDimension. rewrite Qfloor_1200.
      split; [split; [lra | exact E1] |].
      split; [split; [reflexivity | now apply Qfloor_le_1200] |].
      split; [intros Hw Hh; now destruct (NotSmall Hw Hh) |].
      split; [rewrite Z.min_r by lia; now apply Qabs_le_sym |].
      split; [split; [reflexivity | exact E0] |].
      split.
      { intros _. split.
        - intros _. split; [reflexivity |]. split; [exact E2 | reflexivity].
        - intros C. lia. }
      split; [intros Hw Hh; now destruct (NotSmall Hw Hh) |].
      split.
      { destruct (Qfloor_window e) as [L U].
        split; [apply Qle_refl |]. split; [reflexivity |].
        split; [exact L | exact U]. }
      split; [discriminate | apply Qfloor_nonneg; lra].
    + apply Qgtb_false in Wide. rewrite <- Zle_Qle in Wide.
      destruct (scaled_edge imgWidth imgHeight ltac:(lia) ltac:(lia)
                  ltac:(lia)) as [E1 E2].
      pose proof (scaled_edge_positive imgWidth imgHeight ltac:(lia)
                    ltac:(lia) ltac:(lia)) as E0.
      cbv zeta in E1, E2.
      remember (fl (fl (inject_Z imgWidth / inject_Z imgHeight)
                    * maxDimension)) as e eqn:Ee. clear Ee.
      cbn [fst snd]. unfold maxDimension. rewrite Qfloor_1200.
      split; [split; [exact E1 | lra] |].
      split; [split; [now apply Qfloor_le_1200 | reflexivity] |].
      split; [intros Hw Hh; now destruct (NotSmall Hw Hh) |].
      split; [rewrite Z.min_l by lia; exact E2 |].
      split; [split; [exact E0 | reflexivity] |].
      split.
      { intros _. split.
        - intros C. lia.
        - intros _. split; [reflexivity |]. split; [exact E2 | reflexivity]. }
      split; [intros Hw Hh; now destruct (NotSmall Hw Hh) |].
      split.
      { destruct (Qfloor_window e) as [L U].
        split; [exact L |]. split; [exact U |].
        split; [apply Qle_refl | reflexivity]. }
      split; [apply Qfloor_nonneg; lra | discriminate].
  - apply orb_false_iff in Big. destruct Big as [Bw Bh].
    apply Qgtb_false in Bw, Bh. unfold maxDimension in Bw, Bh.
    assert (Zw : (imgWidth <= 1200)%Z)
      by (change 1200 with (inject_Z 1200) in Bw;
          now rewrite <- Zle_Qle in Bw).
    assert (Zh : (imgHeight <= 1200)%Z)
      by (change 1200 with (inject_Z 1200) in Bh;
          now rewrite <- Zle_Qle in Bh).
    cbn [fst snd]. rewrite !Qfloor_Z.
    split; [split; assumption |].
    split; [split; assumption |].
    split; [reflexivity |].
    split.
    { assert (M0 : 0 <= inject_Z (Z.min imgWidth imgHeight))
        by (change 0 with (inject_Z 0); rewrite <- Zle_Qle; lia).
      apply Qabs_Qle_condition.
      assert (0 <= (2 * eps + eps * eps)
                   * (1200 * inject_Z (Z.min imgWidth imgHeight))).
      { apply Qmult_le_0_compat.
        - assert (0 <= eps * eps) by (apply Qmult_le_0_compat; lra). lra.
        - lra. }
      split; lra. }
    split; [split; assumption |].
    split; [intros [C | C]; lia |].
    split; [reflexivity |].
    split; [repeat split; lra |].
    split; lia.
Qed.

End Compressor.

Lemma compressDimensions_within_bounds_witness :
  let width :=
    fst (imageValidator.compressDimensions imageValidator.roundDown64
           4000 3001) in
  let height :=
    snd (imageValidator.compressDimensions imageValidator.roundDown64
           4000 3001) in
  ((width <= 1200)%Q /\ (height <= 1200)%Q)
  /\ ((fst (imageValidator.canvasDimensions imageValidator.roundDown64
              4000 3001) <= 1200)%Z
      /\ (snd (imageValidator.canvasDimensions imageValidator.roundDown64
                 4000 3001) <= 1200)%Z)
  /\ (Qabs (width * inject_Z 3001 - height * inject_Z 4000)
      <= (2 * (1 # 4294967296) + (1 # 4294967296) * (1 # 4294967296))
         * (1200 * inject_Z (Z.min 4000 3001)))%Q
  /\ ((0 < width)%Q /\ (0 < height)%Q)
  /\ width = 1200%Q
  /\ fst (imageValidator.canvasDimensions imageValidator.roundDown64
            4000 3001) = 1200%Z
  /\ (0 <= snd (imageValidator.canvasDimensions imageValidator.roundDown64
                  4000 3001))%Z.
Proof.
  cbv zeta.
  destruct (compressDimensions_within_bounds imageValidator.roundDown64
              (1 # 4294967296)%Q
              ltac:(split; discriminate)
              roundDown64_monotone
              (fun z _ => roundDown64_integer z)
              (fun x Hx _ => roundDown64_error x Hx)
              4000 3001 ltac:(lia) ltac:(lia))
    as (A & B & _ & D & E & F & _ & _ & _ & I).
  destruct (F ltac:(left; lia)) as [Fw _].
  destruct (Fw ltac:(lia)) as (W & _ & C).
  split; [exact A |]. split; [exact B |]. split; [exact D |].
  split; [exact E |]. split; [exact W |]. split; [exact C | exact I].
Defined.

(** ** The extraction client *)

Section Extraction.
Import extraction.
Variable env : Env.

Lemma handle_401 (error : Js.Error) :
  Js.status error = Some 401 ->
  handle error
  = Throw (Js.newError "API key is invalid. Please check your configuration.").
Proof. intros H. unfold handle, statusIs. now rewrite H. Qed.

Lemma handle_retryable (error : Js.Error) :
  rateLimitOrServerError error -> handle error = BackoffAndContinue.
Proof.
  unfold handle, statusIs, statusAtLeast500.
  intros [H | [s [H Hs]]]; rewrite H.
  - reflexivity.
  - destruct (s =? 401) eqn:E401; [apply Z.eqb_eq in E401; lia |].
    destruct (s =? 429); [reflexivity |].
    replace (s =? 0) with false by (symmetry; apply Z.eqb_neq; lia).
    now replace (500 <=? s) with true by (symmetry; apply Z.leb_le; lia).
Qed.

Lemma handle_no_status (error : Js.Error) :
  Js.status error = None -> handle error = Throw error.
Proof. intros H. unfold handle, statusIs, statusAtLeast500. now rewrite H. Qed.

Lemma backsOff_rejected (attempt : nat) (error : Js.Error) :
  create env attempt = Rejected error ->
  rateLimitOrServerError error ->
  backsOff env attempt = true /\ errorOf env attempt = Some error.
Proof.
  intros Hc Hr. unfold backsOff, errorOf. rewrite Hc. cbn.
  now rewrite handle_retryable.
Qed.

(** [k] attempts in a row that back off: the loop goes on from attempt
    [attempt + k], with the last of their errors as [lastError], [k]
    more requests sent and their delays waited for. *)
Lemma attemptLoop_backoffs (maxRetries : Z) (k : nat) :
  forall (remaining attempt : nat) (lastError : option Js.Error)
         (sent : nat) (waited : list Z),
    (forall j, (j < k)%nat -> backsOff env (attempt + j) = true) ->
    attemptLoop env maxRetries (k + remaining) attempt lastError sent waited
    = attemptLoop env maxRetries remaining (attempt + k)
        (match k with
         | O => lastError
         | S k' => errorOf env (attempt + k')
         end)
        (sent + k) (waited ++ map delay (seq attempt k)).
Proof.
  induction k as [| k IH]; intros remaining attempt lastError sent waited Hb.
  - cbn. now rewrite !Nat.add_0_r, app_nil_r.
  - pose proof (Hb 0%nat ltac:(lia)) as H0. rewrite Nat.add_0_r in H0.
    unfold backsOff, errorOf in H0.
    cbn [Nat.add attemptLoop].
    destruct (tryBody env (create env attempt)) as [error |] eqn:Etry;
      [| discriminate].
    destruct (handle error) eqn:Eh; [discriminate |].
    rewrite IH.
    + f_equal.
      * lia.
      * destruct k as [| k'].
        -- unfold errorOf. now rewrite Nat.add_0_r, Etry.
        -- f_equal. lia.
      * lia.
      * cbn [seq map]. now rewrite <- app_assoc.
    + intros j Hj. replace (S attempt + j)%nat with (attempt + S j)%nat by lia.
      apply Hb. lia.
Qed.

(** After [k] attempts that back off, an attempt that returns settles
    the call with its result. *)
Lemma extract_returns_at (imageBase64 : string)
  (educationLevel : question.GradeLevel) (maxRetries : Z) (k : nat)
  (result : ai.AIExtractionResponse) :
  isApiKeyConfigured env = true ->
  (Z.of_nat k < maxRetries) ->
  (forall j, (j < k)%nat -> backsOff env j = true) ->
  tryBody env (create env k) = inr result ->
  extractQuestionFromImage env imageBase64 educationLevel maxRetries
  = {| outcome := inr result; calls := S k;
       timers := map delay (seq 0 k) |}.
Proof.
  intros Hkey Hk Hb Htry. unfold extractQuestionFromImage. rewrite Hkey.
  cbn [negb].
  replace (Z.to_nat maxRetries)
    with (k + S (Z.to_nat maxRetries - S k))%nat by lia.
  rewrite attemptLoop_backoffs by exact Hb.
  cbn [attemptLoop Nat.add app]. now rewrite Htry.
Qed.

(** After [k] attempts that back off, an attempt whose error the [catch]
    block throws on settles the call with the error thrown. *)
Lemma extract_throws_at (imageBase64 : string)
  (educationLevel : question.GradeLevel) (maxRetries : Z) (k : nat)
  (error thrown : Js.Error) :
  isApiKeyConfigured env = true ->
  (Z.of_nat k < maxRetries) ->
  (forall j, (j < k)%nat -> backsOff env j = true) ->
  tryBody env (create env k) = inl error ->
  handle error = Throw thrown ->
  extractQuestionFromImage env imageBase64 educationLevel maxRetries
  = {| outcome := inl thrown; calls := S k;
       timers := map delay (seq 0 k) |}.
Proof.
  intros Hkey Hk Hb Htry Hh. unfold extractQuestionFromImage. rewrite Hkey.
  cbn [negb].
  replace (Z.to_nat maxRetries)
    with (k + S (Z.to_nat maxRetries - S k))%nat by lia.
  rewrite attemptLoop_backoffs by exact Hb.
  cbn [attemptLoop Nat.add app]. now rewrite Htry, Hh.
Qed.

(** When every attempt backs off, the call fails after [maxRetries]
    requests with the message of the last error. *)
Lemma extract_exhausts (imageBase64 : string)
  (educationLevel : question.GradeLevel) (n : nat) :
  isApiKeyConfigured env = true ->
  (forall j, (j < S n)%nat -> backsOff env j = true) ->
  extractQuestionFromImage env imageBase64 educationLevel (Z.of_nat (S n))
  = {| outcome := inl (exhausted (Z.of_nat (S n)) (errorOf env n));
       calls := S n;
       timers := map delay (seq 0 (S n)) |}.
Proof.
  intros Hkey Hb. unfold extractQuestionFromImage. rewrite Hkey.
  cbn [negb]. rewrite Nat2Z.id.
  replace (S n) with (S n + 0)%nat at 2 by lia.
  rewrite attemptLoop_backoffs by exact Hb.
  reflexivity.
Qed.


(** C6. A 401 from the service fails the call at once with the
    invalid-key error: nothing is waited for and no request follows.
    When the 401 answers the first request, exactly one request has been
    sent; when it comes after [k] attempts that backed off, it is request
    [k + 1] and the last. *)
Theorem unauthorized_fails_without_retry (imageBase64 : string)
  (educationLevel : question.GradeLevel) (maxRetries : Z) :
  isApiKeyConfigured env = true ->
  (forall error : Js.Error,
      0 < maxRetries ->
      create env 0 = Rejected error ->
      Js.status error = Some 401 ->
      extractQuestionFromImage env imageBase64 educationLevel maxRetries
      = {| outcome := inl (Js.newError
             "API key is invalid. Please check your configuration.");
           calls := 1;
           timers := [] |})
  /\ (forall (k : nat) (error : Js.Error),
        Z.of_nat k < maxRetries ->
        (forall j, (j < k)%nat -> backsOff env j = true) ->
        create env k = Rejected error ->
        Js.status error = Some 401 ->
        extractQuestionFromImage env imageBase64 educationLevel maxRetries
        = {| outcome := inl (Js.newError
               "API key is invalid. Please check your configuration.");
             calls := S k;
             timers := map delay (seq 0 k) |}).
Proof.
  intros Hkey.
  assert (forall (k : nat) (error : Js.Error),
        Z.of_nat k < maxRetries ->
        (forall j, (j < k)%nat -> backsOff env j = true) ->
        create env k = Rejected error ->
        Js.status error = Some 401 ->
        extractQuestionFromImage env imageBase64 educationLevel maxRetries
        = {| outcome := inl (Js.newError
               "API key is invalid. Please check your configuration.");
             calls := S k;
             timers := map delay (seq 0 k) |}) as General.
  { intros k error Hk Hb Hc Hs.
    apply extract_throws_at with (error := error); try assumption.
    - now rewrite Hc.
    - now apply handle_401. }
  split; [| exact General].
  intros error Hm Hc Hs.
  apply (General 0%nat error); try assumption. intros j Hj; lia.
Qed.

(** C5. With [maxRetries = 3]: when the three requests are each answered
    with a 429 or a status of 500 or more, each attempt is followed by a
    wait of [min(1000 * 2^attempt, 10000)] ms, attempts counted from 0,
    and after the third the call fails with an error whose message ends
    in the message of the last error.  When the first two requests are
    answered with a 500 and the third with a payload that parses, the
    call resolves with the parsed result and the waits add up to a time
    between 1000 and 3000 ms.  In general, when the first [k < 3]
    requests are answered with such errors and the next attempt returns,
    the call resolves with what it returns after the waits of the
    attempts [0 .. k - 1]. *)
Theorem backoff_with_three_retries (imageBase64 : string)
  (educationLevel : question.GradeLevel) :
  isApiKeyConfigured env = true ->
  (forall e0 e1 e2 : Js.Error,
      create env 0 = Rejected e0 -> rateLimitOrServerError e0 ->
      create env 1 = Rejected e1 -> rateLimitOrServerError e1 ->
      create env 2 = Rejected e2 -> rateLimitOrServerError e2 ->
      extractQuestionFromImage env imageBase64 educationLevel 3
      = {| outcome := inl (Js.newError
             ("Failed after 3 attempts: " ++ Js.message e2));
           calls := 3;
           timers := [Z.min (1000 * 2 ^ 0) 10000;
                      Z.min (1000 * 2 ^ 1) 10000;
                      Z.min (1000 * 2 ^ 2) 10000] |})
  /\ (forall (e0 e1 : Js.Error) (payload : string)
             (result : ai.AIExtractionResponse),
        create env 0 = Rejected e0 -> Js.status e0 = Some 500 ->
        create env 1 = Rejected e1 -> Js.status e1 = Some 500 ->
        create env 2 = Responded (Some payload) -> payload <> "" ->
        JSON_parse env payload = inr result ->
        let r := extractQuestionFromImage env imageBase64 educationLevel 3 in
        outcome r = inr result
        /\ calls r = 3%nat
        /\ timers r = [1000; 2000]
        /\ 1000 <= fold_right Z.add 0 (timers r) <= 3000)
  /\ (forall (k : nat) (result : ai.AIExtractionResponse),
        (k < 3)%nat ->
        (forall j, (j < k)%nat ->
                   exists e, create env j = Rejected e
                             /\ rateLimitOrServerError e) ->
        tryBody env (create env k) = inr result ->
        extractQuestionFromImage env imageBase64 educationLevel 3
        = {| outcome := inr result;
             calls := S k;
             timers := map (fun attempt =>
                              Z.min (1000 * 2 ^ Z.of_nat attempt) 10000)
                         (seq 0 k) |}).
Proof.
  intros Hkey. split; [| split].
  - intros e0 e1 e2 H0 R0 H1 R1 H2 R2.
    destruct (backsOff_rejected 0 e0 H0 R0) as [B0 _].
    destruct (backsOff_rejected 1 e1 H1 R1) as [B1 _].
    destruct (backsOff_rejected 2 e2 H2 R2) as [B2 E2].
    change 3 with (Z.of_nat 3).
    rewrite extract_exhausts; try assumption.
    + now rewrite E2.
    + intros j Hj.
      destruct j as [| [| [| j]]]; try assumption; lia.
  - intros e0 e1 payload result H0 S0 H1 S1 H2 Hne Hp.
    assert (R0 : rateLimitOrServerError e0)
      by (right; exists 500; split; [assumption | lia]).
    assert (R1 : rateLimitOrServerError e1)
      by (right; exists 500; split; [assumption | lia]).
    destruct (backsOff_rejected 0 e0 H0 R0) as [B0 _].
    destruct (backsOff_rejected 1 e1 H1 R1) as [B1 _].
    cbv zeta.
    rewrite (extract_returns_at imageBase64 educationLevel 3 2 result);
      try assumption; try lia.
    + cbn. repeat split; lia.
    + intros j Hj. destruct j as [| [| j]]; try assumption; lia.
    + rewrite H2. destruct payload as [| c payload]; [congruence |].
      cbn. now rewrite Hp.
  - intros k result Hk Hb Htry.
    apply extract_returns_at; try assumption; [lia |].
    intros j Hj. destruct (Hb j Hj) as (e & Hc & Hr).
    now apply (backsOff_rejected j e).
Qed.

(** C2, as the code has it.  An empty payload is not retried: a
    response whose content is missing or empty fails the call outright
    with the error [Empty response from AI], with no wait and no further
    request, exactly as a payload that does not parse fails it with the
    parser's error. *)
Theorem empty_or_malformed_payload_fails_outright (imageBase64 : string)
  (educationLevel : question.GradeLevel) (maxRetries : Z) (k : nat)
  (content : option string) :
  isApiKeyConfigured env = true ->
  Z.of_nat k < maxRetries ->
  (forall j, (j < k)%nat -> backsOff env j = true) ->
  create env k = Responded content ->
  (emptyPayload content ->
     extractQuestionFromImage env imageBase64 educationLevel maxRetries
     = {| outcome := inl (Js.newError "Empty response from AI");
          calls := S k;
          timers := map delay (seq 0 k) |})
  /\ (forall payload syntaxError : string,
        content = Some payload -> payload <> "" ->
        JSON_parse env payload = inl syntaxError ->
        extractQuestionFromImage env imageBase64 educationLevel maxRetries
        = {| outcome := inl (Js.newError syntaxError);
             calls := S k;
             timers := map delay (seq 0 k) |}).
Proof.
  intros Hkey Hk Hb Hc. split.
  - intros Hempty.
    apply extract_throws_at
      with (error := Js.newError "Empty response from AI");
      try assumption.
    + rewrite Hc. now destruct Hempty as [-> | ->].
    + now apply handle_no_status.
  - intros payload syntaxError -> Hne Hp.
    apply extract_throws_at with (error := Js.newError syntaxError);
      try assumption.
    + rewrite Hc. destruct payload as [| c payload]; [congruence |].
      cbn. now rewrite Hp.
    + now apply handle_no_status.
Qed.

End Extraction.


Lemma unauthorized_fails_without_retry_witness :
  extraction.extractQuestionFromImage
    (extraction.scripted true
       [extraction.Rejected extraction.unauthorized] extraction.fine)
    "data:image/png;base64,AAAA" question.middle 3
  = {| extraction.outcome := inl (Js.newError
         "API key is invalid. Please check your configuration.");
       extraction.calls := 1;
       extraction.timers := [] |}.
Proof.
  apply (proj1 (unauthorized_fails_without_retry
                  (extraction.scripted true
                     [extraction.Rejected extraction.unauthorized]
                     extraction.fine)
                  "data:image/png;base64,AAAA" question.middle 3
                  eq_refl) extraction.unauthorized).
  - lia.
  - reflexivity.
  - reflexivity.
Defined.

Lemma backoff_with_three_retries_witness :
  let r := extraction.extractQuestionFromImage
             (extraction.scripted true
                [extraction.Rejected extraction.serverError;
                 extraction.Rejected extraction.serverError]
                extraction.fine)
             "data:image/png;base64,AAAA" question.middle 3 in
  extraction.outcome r = inr extraction.sampleResponse
  /\ extraction.calls r = 3%nat
  /\ extraction.timers r = [1000; 2000]
  /\ 1000 <= fold_right Z.add 0 (extraction.timers r) <= 3000.
Proof.
  apply (proj1 (proj2 (backoff_with_three_retries
                         (extraction.scripted true
                            [extraction.Rejected extraction.serverError;
                             extraction.Rejected extraction.serverError]
                            extraction.fine)
                         "data:image/png;base64,AAAA" question.middle
                         eq_refl))
           extraction.serverError extraction.serverError "{}"
           extraction.sampleResponse);
    try reflexivity.
  discriminate.
Defined.

(** C2, as the claim states it, fails: the first request is answered
    with an empty payload, the second would be answered properly and
    three attempts are allowed, yet the call fails after one request. *)
Lemma empty_payload_is_not_retried :
  let r := extraction.extractQuestionFromImage
             (extraction.scripted true
                [extraction.Responded (Some "")] extraction.fine)
             "data:image/png;base64,AAAA" question.middle 3 in
  extraction.outcome r = inl (Js.newError "Empty response from AI")
  /\ extraction.calls r = 1%nat
  /\ extraction.timers r = []
  /\ ~ (2 <= extraction.calls r)%nat.
Proof.
  cbv zeta. split; [reflexivity |]. split; [reflexivity |].
  split; [reflexivity |]. change (~ (2 <= 1)%nat). lia.
Qed.

Lemma empty_or_malformed_payload_fails_outright_witness :
  extraction.extractQuestionFromImage
    (extraction.scripted true
       [extraction.Rejected extraction.rateLimited;
        extraction.Responded None] extraction.fine)
    "data:image/png;base64,AAAA" question.middle 3
  = {| extraction.outcome := inl (Js.newError "Empty response from AI");
       extraction.calls := 2;
       extraction.timers := [1000] |}.
Proof.
  refine (proj1 (empty_or_malformed_payload_fails_outright
                   (extraction.scripted true
                      [extraction.Rejected extraction.rateLimited;
                       extraction.Responded None] extraction.fine)
                   "data:image/png;base64,AAAA" question.middle 3 1 None
                   eq_refl _ _ eq_refl) _).
  - lia.
  - intros j Hj. destruct j; [reflexivity | lia].
  - now left.
Defined.

(** ** The question store *)

Section Objects.
Context {V : Type}.
Implicit Types (o : list (string * V)) (k : string) (v : V).

Lemma get_assign_same o k v : Js.get (Js.assign o k v) k = Some v.
Proof.
  induction o as [| [k' v'] o IH]; cbn.
  - now rewrite String.eqb_refl.
  - destruct (String.eqb k k') eqn:E; cbn; rewrite E; [reflexivity | exact IH].
Qed.

Lemma get_In o k v : Js.get o k = Some v -> In v (Js.values o).
Proof.
  induction o as [| [k' v'] o IH]; cbn; [discriminate |].
  destruct (String.eqb k k'); intros H.
  - left. congruence.
  - right. now apply IH.
Qed.

Lemma Forall_values_assign (P : V -> Prop) o k v :
  Forall P (Js.values o) -> P v -> Forall P (Js.values (Js.assign o k v)).
Proof.
  unfold Js.values. intros Ho Hv.
  induction o as [| [k' v'] o IH]; cbn.
  - now constructor.
  - inversion Ho; subst. destruct (String.eqb k k'); cbn.
    + now constructor.
    + constructor; [assumption | now apply IH].
Qed.

Lemma Forall_values_delete (P : V -> Prop) o k :
  Forall P (Js.values o) -> Forall P (Js.values (Js.delete o k)).
Proof.
  unfold Js.values. intros Ho.
  induction o as [| [k' v'] o IH]; cbn; [constructor |].
  inversion Ho; subst. destruct (String.eqb k k'); cbn.
  - now apply IH.
  - constructor; [assumption | now apply IH].
Qed.

End Objects.

Section Sorting.
Context {A : Type} (key : A -> Z).

(** Sorting with the comparator [(a, b) => key(b) - key(a)]. *)
Lemma insert_perm (compare : A -> A -> Z) (a : A) (l : list A) :
  Permutation (Js.insert compare a l) (a :: l).
Proof.
  induction l as [| b l IH]; cbn; [reflexivity |].
  destruct (compare a b <=? 0); [reflexivity |].
  rewrite IH. apply perm_swap.
Qed.

Lemma sort_perm (compare : A -> A -> Z) (l : list A) :
  Permutation (Js.sort compare l) l.
Proof.
  induction l as [| a l IH]; cbn; [reflexivity |].
  fold (Js.sort compare l). now rewrite insert_perm, IH.
Qed.

Lemma insert_descending (a : A) (l : list A) :
  StronglySorted (fun a b => key b <= key a) l ->
  StronglySorted (fun a b => key b <= key a) (Js.insert (fun a b => key b - key a) a l).
Proof.
  induction 1 as [| b l Hl IH Hb]; cbn.
  - repeat constructor.
  - destruct (key b - key a <=? 0) eqn:E.
    + apply Z.leb_le in E. constructor.
      * now constructor.
      * constructor; [lia |].
        rewrite Forall_forall in *. intros c Hc.
        specialize (Hb c Hc). cbn beta in *. lia.
    + apply Z.leb_gt in E. constructor; [exact IH |].
      rewrite (insert_perm _ a l). constructor; [| exact Hb].
      lia.
Qed.

Lemma sort_descending (l : list A) :
  StronglySorted (fun a b => key b <= key a) (Js.sort (fun a b => key b - key a) l).
Proof.
  induction l as [| a l IH]; cbn; [constructor |].
  now apply insert_descending.
Qed.

End Sorting.

Section Store.
Import question schema questions container.
Variable env : Env.

Lemma newDate_run (w : World) :
  newDate env w
  = (inr (now env (clockReads w)),
     mkWorld (item w) (versionItem w) (prototype w) (S (clockReads w))
       (uuidDraws w)).
Proof. reflexivity. Qed.

Lemma cryptoRandomUUID_run (w : World) :
  cryptoRandomUUID env w
  = (inr (randomUUID env (uuidDraws w)),
     mkWorld (item w) (versionItem w) (prototype w) (clockReads w)
       (S (uuidDraws w))).
Proof. reflexivity. Qed.

Lemma bind_run {A B} (m : M A) (k : A -> M B) (w : World) :
  bind m k w
  = match m w with
    | (inr a, w') => k a w'
    | (inl e, w') => (inl e, w')
    end.
Proof. reflexivity. Qed.

Lemma questionAt_run (sch : LocalStorageSchema) (id : string) (w : World) :
  questionAt sch id w
  = (inr (Js.index (prototype w) (questions sch) id), w).
Proof. reflexivity. Qed.

(** *** Property access *)

Lemma index_own {V} (added : list (string * Js.Primitive))
  (o : list (string * V)) (k : string) (v : V) :
  Js.get o k = Some v -> Js.index added o k = Some (Js.Own v).
Proof. intros H. unfold Js.index. now rewrite H. Qed.

Lemma index_Own {V} (added : list (string * Js.Primitive))
  (o : list (string * V)) (k : string) (v : V) :
  Js.index added o k = Some (Js.Own v) -> Js.get o k = Some v.
Proof.
  unfold Js.index. destruct (Js.get o k); [congruence |].
  destruct (Js.get added k); [discriminate |].
  destruct (String.eqb k "__proto__"); [discriminate |].
  destruct (existsb _ _); discriminate.
Qed.

Lemma index_not_own {V} (added : list (string * Js.Primitive))
  (o : list (string * V)) (k : string) :
  (forall v, Js.index added o k <> Some (Js.Own v)) -> Js.get o k = None.
Proof.
  intros H. destruct (Js.get o k) as [v |] eqn:E; [| reflexivity].
  exfalso. apply (H v). now apply index_own.
Qed.

Lemma index_Inherit {V} (added : list (string * Js.Primitive))
  (o : list (string * V)) (k : string) (i : Js.Inherited) :
  Js.index added o k = Some (Js.Inherit i) ->
  Js.get o k = None /\ Js.index added (@nil (string * V)) k
                       = Some (Js.Inherit i).
Proof.
  unfold Js.index. destruct (Js.get o k); [discriminate |]. cbn.
  intros H. now split.
Qed.

Lemma index_None {V} (added : list (string * Js.Primitive))
  (o : list (string * V)) (k : string) :
  Js.index added o k = None -> Js.get o k = None.
Proof.
  intros H. apply (index_not_own added). intros v. congruence.
Qed.

Lemma delete_absent {V} (o : list (string * V)) (k : string) :
  Js.get o k = None -> Js.delete o k = o.
Proof.
  induction o as [| [k' v'] o IH]; cbn; [reflexivity |].
  destruct (String.eqb k k'); [discriminate |].
  intros H. now rewrite IH.
Qed.

(** *** The container *)

(** [getSchema] where there is a container: it is read, nothing
    changes. *)
Lemma getSchema_existing (w : World) (s : LocalStorageSchema) :
  inBrowser env = true -> item w = Some s ->
  getSchema env w = (inr s, w).
Proof.
  intros B H. unfold getSchema. rewrite B. cbn [negb].
  rewrite bind_run. unfold getItem. now rewrite H.
Qed.

(** [getSchema] where there is none: the empty container is written,
    then the version item, unless there is no room. *)
Lemma getSchema_absent (w : World) :
  inBrowser env = true -> item w = None ->
  let s := emptySchema (now env (clockReads w))
             (now env (S (clockReads w))) in
  getSchema env w
  = if containerFits env w s then
      if versionFits env
           (mkWorld (Some s) (versionItem w) (prototype w)
              (S (S (clockReads w))) (uuidDraws w))
      then (inr s,
            mkWorld (Some s) (Some CURRENT_VERSION) (prototype w)
              (S (S (clockReads w))) (uuidDraws w))
      else (inl (DOMException "QuotaExceededError"),
            mkWorld (Some s) (versionItem w) (prototype w)
              (S (S (clockReads w))) (uuidDraws w))
    else (inl (DOMException "QuotaExceededError"),
          mkWorld None (versionItem w) (prototype w)
            (S (S (clockReads w))) (uuidDraws w)).
Proof.
  intros B H. cbv zeta. unfold getSchema, initializeStorage. rewrite B.
  cbn [negb]. rewrite bind_run. unfold getItem at 1. rewrite H.
  rewrite bind_run. unfold getItem. rewrite H.
  rewrite !bind_run, !newDate_run.
  cbn [clockReads item uuidDraws versionItem prototype].
  rewrite !bind_run, !newDate_run.
  cbn [clockReads item uuidDraws versionItem prototype].
  rewrite bind_run. unfold setItem, containerFits.
  cbn [clockReads item uuidDraws versionItem prototype].
  rewrite H.
  destruct (match versionItem w with
            | Some _ => hasRoom env _
            | None => hasRoom env _ || fitsAlone env _
            end); [| reflexivity].
  rewrite bind_run. unfold setVersionItem.
  cbn [clockReads item uuidDraws versionItem prototype].
  now destruct (versionFits env _).
Qed.

Lemma getSchema_outside (w : World) :
  inBrowser env = false ->
  getSchema env w
  = (inr (emptySchema (now env (clockReads w))
            (now env (S (clockReads w)))),
     mkWorld (item w) (versionItem w) (prototype w)
       (S (S (clockReads w))) (uuidDraws w)).
Proof. intros B. unfold getSchema. now rewrite B. Qed.

Lemma saveSchema_outside (s : LocalStorageSchema) (w : World) :
  inBrowser env = false ->
  saveSchema env s w
  = (inl (Error "Cannot save schema in non-browser environment"), w).
Proof. intros B. unfold saveSchema. now rewrite B. Qed.

(** [saveSchema] in a browser: the container is written, then the
    version item; the second write can fail after the first. *)
Lemma saveSchema_inside (s : LocalStorageSchema) (w : World) :
  inBrowser env = true ->
  saveSchema env s w
  = if containerFits env w s then
      if versionFits env
           (mkWorld (Some s) (versionItem w) (prototype w) (clockReads w)
              (uuidDraws w))
      then (inr tt,
            mkWorld (Some s) (Some CURRENT_VERSION) (prototype w)
              (clockReads w) (uuidDraws w))
      else (inl storageFull,
            mkWorld (Some s) (versionItem w) (prototype w) (clockReads w)
              (uuidDraws w))
    else (inl storageFull, w).
Proof.
  intros B. unfold saveSchema, catchQuota. rewrite B. cbn [negb].
  rewrite bind_run. unfold setItem.
  destruct (containerFits env w s); [| reflexivity].
  unfold setVersionItem.
  cbn [clockReads item uuidDraws versionItem prototype].
  now destruct (versionFits env _).
Qed.

(** With room for every container, both writes find room. *)
Lemma room_containerFits (w : World) (s : LocalStorageSchema) :
  (forall sch, hasRoom env sch = true) -> containerFits env w s = true.
Proof.
  intros Room. unfold containerFits. rewrite Room.
  now destruct (versionItem w).
Qed.

Lemma room_versionFits (w : World) :
  (forall sch, hasRoom env sch = true) -> versionFits env w = true.
Proof.
  intros Room. unfold versionFits.
  destruct (versionItem w) as [v |];
    [destruct (String.eqb v CURRENT_VERSION); [reflexivity |] |];
    destruct (item w); now rewrite ?Room.
Qed.

(** Once the version item holds the current version, writing it again
    cannot fail. *)
Lemma versioned_versionFits (w : World) :
  versionItem w = Some CURRENT_VERSION -> versionFits env w = true.
Proof. intros H. unfold versionFits. now rewrite H. Qed.

(** What [saveSchema] leaves, whatever the surroundings: in a browser
    the container it was given, unless the first write failed; else
    everything as it was. *)
Lemma saveSchema_leaves (s : LocalStorageSchema) (w : World) :
  (inBrowser env = true
   /\ containerFits env w s = true
   /\ item (snd (saveSchema env s w)) = Some s
   /\ prototype (snd (saveSchema env s w)) = prototype w
   /\ clockReads (snd (saveSchema env s w)) = clockReads w
   /\ uuidDraws (snd (saveSchema env s w)) = uuidDraws w)
  \/ (snd (saveSchema env s w) = w
      /\ fst (saveSchema env s w) <> inr tt).
Proof.
  destruct (inBrowser env) eqn:B.
  - rewrite (saveSchema_inside s w B).
    destruct (containerFits env w s);
      [| right; split; [reflexivity | discriminate]].
    left. now destruct (versionFits env _).
  - rewrite (saveSchema_outside s w B).
    right. split; [reflexivity | discriminate].
Qed.

(** What [getSchema] gives in a browser, in one statement: the schema
    returned holds the properties the store had and is the stored one
    afterwards; a failure leaves the store without properties. *)
Lemma getSchema_inside (w : World) :
  inBrowser env = true ->
  match getSchema env w with
  | (inr s, w') =>
      questions s = entries w /\ item w' = Some s
      /\ uuidDraws w' = uuidDraws w
  | (inl _, w') => entries w' = entries w
  end.
Proof.
  intros B. destruct (item w) as [s |] eqn:H.
  - rewrite (getSchema_existing w s B H). unfold entries. now rewrite H.
  - rewrite (getSchema_absent w B H). unfold entries. rewrite H.
    destruct (containerFits env w _); [| reflexivity].
    now destruct (versionFits env _).
Qed.

(** The same, wherever the code runs: the properties of the schema
    returned are those stored in a browser and none outside, the item
    is the schema returned in a browser and as before outside. *)
Lemma getSchema_any (w : World) :
  match getSchema env w with
  | (inr s, w') =>
      (questions s = entries w \/ questions s = [])
      /\ entries w' = entries w
      /\ prototype w' = prototype w
      /\ uuidDraws w' = uuidDraws w
  | (inl _, w') => entries w' = entries w
  end.
Proof.
  destruct (inBrowser env) eqn:B.
  - destruct (item w) as [s |] eqn:H.
    + rewrite (getSchema_existing w s B H). unfold entries. rewrite H. auto.
    + rewrite (getSchema_absent w B H). unfold entries. rewrite H.
      destruct (containerFits env w _); [| reflexivity].
      destruct (versionFits env _); cbn; auto.
  - rewrite (getSchema_outside w B). cbn. auto.
Qed.

(** *** The operations, from the schema that [getSchema] returned *)

Lemma createQuestion_run i s f r (w w1 : World) (sch : LocalStorageSchema) :
  getSchema env w = (inr sch, w1) ->
  createQuestion env i s f r w
  = let id := randomUUID env (uuidDraws w1) in
    let t := now env (clockReads w1) in
    let sch' :=
      mkSchema (version sch)
        (Js.assign (questions sch) id (created id i s f r t))
        (mkMetadata (createdAt (metadata sch)) t
           (totalQuestions (metadata sch) + 1)) in
    match saveSchema env sch'
            (mkWorld (item w1) (versionItem w1) (prototype w1)
               (S (clockReads w1)) (S (uuidDraws w1))) with
    | (inr _, w') => (inr id, w')
    | (inl e, w') => (inl e, w')
    end.
Proof.
  intros G. unfold createQuestion. rewrite bind_run, G.
  rewrite bind_run, cryptoRandomUUID_run, bind_run, newDate_run.
  rewrite bind_run. reflexivity.
Qed.

Lemma confirmQuestion_run (id : string) (w w1 : World)
  (sch : LocalStorageSchema) :
  getSchema env w = (inr sch, w1) ->
  confirmQuestion env id w
  = let t := now env (clockReads w1) in
    let t' := now env (S (clockReads w1)) in
    let sch' := set_metadata (set_lastModified t' (metadata sch)) sch in
    match Js.index (prototype w1) (questions sch) id with
    | Some (Js.Own q) =>
        saveSchema env
          (mkSchema (version sch)
             (Js.assign (questions sch) id (confirmed t q))
             (set_lastModified t' (metadata sch)))
          (mkWorld (item w1) (versionItem w1) (prototype w1)
             (S (S (clockReads w1))) (uuidDraws w1))
    | Some (Js.Inherit (Js.Added p)) =>
        if Js.truthyPrimitive p
        then (inl (TypeError (cannotCreateProperty env "confirmedAt" p)),
              mkWorld (item w1) (versionItem w1) (prototype w1)
                (S (clockReads w1)) (uuidDraws w1))
        else (inl (questionNotFound id), w1)
    | Some (Js.Inherit Js.ObjectPrototype) =>
        saveSchema env sch'
          (mkWorld (item w1) (versionItem w1)
             (Js.assign
                (Js.assign (prototype w1) "confirmedAt" (Js.Time t))
                "processingStatus" (Js.Text "success"))
             (S (S (clockReads w1))) (uuidDraws w1))
    | Some (Js.Inherit (Js.Function _)) =>
        saveSchema env sch'
          (mkWorld (item w1) (versionItem w1) (prototype w1)
             (S (S (clockReads w1))) (uuidDraws w1))
    | None => (inl (questionNotFound id), w1)
    end.
Proof.
  intros G. unfold confirmQuestion. rewrite bind_run, G.
  rewrite bind_run, questionAt_run.
  destruct (Js.index (prototype w1) (questions sch) id)
    as [[q | [p | | name]] |]; cbn [Js.truthyMember negb];
    try reflexivity.
  destruct (Js.truthyPrimitive p); reflexivity.
Qed.

Lemma updateExtraction_run (id : string) (r : ai.AIExtractionResponse)
  (w w1 : World) (sch : LocalStorageSchema) :
  getSchema env w = (inr sch, w1) ->
  updateExtraction env id r w
  = let t := now env (clockReads w1) in
    let sch' := set_metadata (set_lastModified t (metadata sch)) sch in
    match Js.index (prototype w1) (questions sch) id with
    | Some (Js.Own q) =>
        saveSchema env
          (mkSchema (version sch)
             (Js.assign (questions sch) id (updated r q))
             (set_lastModified t (metadata sch)))
          (mkWorld (item w1) (versionItem w1) (prototype w1)
             (S (clockReads w1)) (uuidDraws w1))
    | Some (Js.Inherit (Js.Added p)) =>
        if Js.truthyPrimitive p
        then (inl (TypeError (cannotCreateProperty env "extractedText" p)),
              w1)
        else (inl (questionNotFound id), w1)
    | Some (Js.Inherit Js.ObjectPrototype) =>
        saveSchema env sch'
          (mkWorld (item w1) (versionItem w1)
             (Js.assign
                (Js.assign
                   (Js.assign
                      (Js.assign
                         (Js.assign (prototype w1) "extractedText"
                            (Js.Text (ai.questionText r)))
                         "confidence" (Js.Number (ai.confidence r)))
                      "noiseFiltered" (Js.Boolean (ai.noiseFiltered r)))
                   "errorMessage" (textOrNull (ai.errorMessage r)))
                "processingStatus" (Js.Text (statusName (statusOf r))))
             (S (clockReads w1)) (uuidDraws w1))
    | Some (Js.Inherit (Js.Function _)) =>
        saveSchema env sch'
          (mkWorld (item w1) (versionItem w1) (prototype w1)
             (S (clockReads w1)) (uuidDraws w1))
    | None => (inl (questionNotFound id), w1)
    end.
Proof.
  intros G. unfold updateExtraction. rewrite bind_run, G.
  rewrite bind_run, questionAt_run.
  destruct (Js.index (prototype w1) (questions sch) id)
    as [[q | [p | | name]] |]; cbn [Js.truthyMember negb];
    try reflexivity.
  destruct (Js.truthyPrimitive p); reflexivity.
Qed.

Lemma deleteQuestion_run (id : string) (w w1 : World)
  (sch : LocalStorageSchema) :
  getSchema env w = (inr sch, w1) ->
  deleteQuestion env id w
  = if Js.truthyMember (Js.index (prototype w1) (questions sch) id)
    then
      saveSchema env
        (mkSchema (version sch) (Js.delete (questions sch) id)
           (mkMetadata (createdAt (metadata sch))
              (now env (clockReads w1))
              (totalQuestions (metadata sch) - 1)))
        (mkWorld (item w1) (versionItem w1) (prototype w1)
           (S (clockReads w1)) (uuidDraws w1))
    else (inl (questionNotFound id), w1).
Proof.
  intros G. unfold deleteQuestion. rewrite bind_run, G.
  rewrite bind_run, questionAt_run.
  destruct (Js.truthyMember _); reflexivity.
Qed.

Lemma clearAllQuestions_run (w w1 : World) (sch : LocalStorageSchema) :
  getSchema env w = (inr sch, w1) ->
  clearAllQuestions env w
  = saveSchema env
      (mkSchema (version sch) []
         (mkMetadata (createdAt (metadata sch)) (now env (clockReads w1)) 0))
      (mkWorld (item w1) (versionItem w1) (prototype w1)
         (S (clockReads w1)) (uuidDraws w1)).
Proof.
  intros G. unfold clearAllQuestions. rewrite bind_run, G.
  rewrite bind_run, newDate_run. reflexivity.
Qed.

(** An operation whose [getSchema] throws ends there. *)
Lemma exec_getSchema_threw (op : Op) (w w1 : World) (e : Thrown) :
  getSchema env w = (inl e, w1) ->
  exec env op w = w1 /\ thrownBy env op w = Some e.
Proof.
  intros G.
  destruct op; cbn [exec thrownBy];
    [ unfold createQuestion | unfold confirmQuestion
    | unfold updateExtraction | unfold deleteQuestion
    | unfold clearAllQuestions ];
    rewrite bind_run, G; split; reflexivity.
Qed.

(** *** What the operations do to the properties of the container *)

Lemma records_entries (w : World) : records w = Js.values (entries w).
Proof. unfold records, entries. now destruct (item w). Qed.

Lemma lookup_entries (w : World) (id : string) :
  lookup w id = Js.get (entries w) id.
Proof. unfold lookup, entries. now destruct (item w). Qed.

(** The properties after [saveSchema] in a world that holds the
    container [getSchema] returned: those of the schema saved, or those
    there were. *)
Lemma saved_entries (w w1 wk : World) (sch s : LocalStorageSchema) :
  getSchema env w = (inr sch, w1) ->
  item wk = item w1 ->
  (questions sch = entries w
   /\ entries (snd (saveSchema env s wk)) = questions s)
  \/ entries (snd (saveSchema env s wk)) = entries w.
Proof.
  intros G Hk.
  pose proof (getSchema_any w) as A. rewrite G in A.
  destruct A as (_ & He & _ & _).
  destruct (saveSchema_leaves s wk) as [(B & _ & Hi & _) | [-> _]].
  - left. pose proof (getSchema_inside w B) as I. rewrite G in I.
    destruct I as (Hq & _ & _). split; [exact Hq |].
    unfold entries at 1. now rewrite Hi.
  - right. rewrite <- He. unfold entries. now rewrite Hk.
Qed.

Lemma createQuestion_effect i s f r (w : World) :
  effect w (Create i s f r) (entries (snd (createQuestion env i s f r w))).
Proof.
  destruct (getSchema env w) as [[e | sch] w1] eqn:G.
  - pose proof (getSchema_any w) as A. rewrite G in A.
    destruct (exec_getSchema_threw (Create i s f r) w w1 e G) as [E _].
    cbn [exec] in E. rewrite E, A. constructor.
  - rewrite (createQuestion_run i s f r w w1 sch G). cbv zeta.
    match goal with
    | |- context [saveSchema env ?s' ?wk] =>
        destruct (saved_entries w w1 wk sch s' G eq_refl) as [[Hq E] | E];
        destruct (saveSchema env s' wk) as [[e | u] w']; cbn [snd] in *;
        rewrite E
    end; try apply effect_none; cbn [questions]; rewrite Hq;
      apply effect_create.
Qed.

Lemma confirmQuestion_effect id (w : World) :
  effect w (Confirm id) (entries (snd (confirmQuestion env id w))).
Proof.
  destruct (getSchema env w) as [[e | sch] w1] eqn:G.
  - pose proof (getSchema_any w) as A. rewrite G in A.
    destruct (exec_getSchema_threw (Confirm id) w w1 e G) as [E _].
    cbn [exec] in E. rewrite E, A. constructor.
  - pose proof (getSchema_any w) as A. rewrite G in A.
    destruct A as (_ & He & _ & _).
    rewrite (confirmQuestion_run id w w1 sch G). cbv zeta.
    destruct (Js.index (prototype w1) (questions sch) id)
      as [[q | [p | | name]] |] eqn:I.
    + apply index_Own in I.
      match goal with
      | |- context [saveSchema env ?s' ?wk] =>
          destruct (saved_entries w w1 wk sch s' G eq_refl)
            as [[Hq E] | E]; rewrite E
      end; [| apply effect_none].
      cbn [questions]. rewrite Hq. apply effect_confirm. now rewrite <- Hq.
    + destruct (Js.truthyPrimitive p); cbn [snd]; [| rewrite He; constructor].
      unfold entries at 1. cbn [item]. fold (entries w1). rewrite He.
      constructor.
    + match goal with
      | |- context [saveSchema env ?s' ?wk] =>
          destruct (saved_entries w w1 wk sch s' G eq_refl)
            as [[Hq E] | E]; rewrite E
      end; [| apply effect_none].
      cbn [questions set_metadata]. rewrite Hq. apply effect_none.
    + match goal with
      | |- context [saveSchema env ?s' ?wk] =>
          destruct (saved_entries w w1 wk sch s' G eq_refl)
            as [[Hq E] | E]; rewrite E
      end; [| apply effect_none].
      cbn [questions set_metadata]. rewrite Hq. apply effect_none.
    + cbn [snd]. rewrite He. constructor.
Qed.

Lemma updateExtraction_effect id r (w : World) :
  effect w (UpdateExtraction id r)
    (entries (snd (updateExtraction env id r w))).
Proof.
  destruct (getSchema env w) as [[e | sch] w1] eqn:G.
  - pose proof (getSchema_any w) as A. rewrite G in A.
    destruct (exec_getSchema_threw (UpdateExtraction id r) w w1 e G)
      as [E _].
    cbn [exec] in E. rewrite E, A. constructor.
  - pose proof (getSchema_any w) as A. rewrite G in A.
    destruct A as (_ & He & _ & _).
    rewrite (updateExtraction_run id r w w1 sch G). cbv zeta.
    destruct (Js.index (prototype w1) (questions sch) id)
      as [[q | [p | | name]] |] eqn:I.
    + apply index_Own in I.
      match goal with
      | |- context [saveSchema env ?s' ?wk] =>
          destruct (saved_entries w w1 wk sch s' G eq_refl)
            as [[Hq E] | E]; rewrite E
      end; [| apply effect_none].
      cbn [questions]. rewrite Hq. apply effect_update. now rewrite <- Hq.
    + destruct (Js.truthyPrimitive p); cbn [snd]; rewrite He; constructor.
    + match goal with
      | |- context [saveSchema env ?s' ?wk] =>
          destruct (saved_entries w w1 wk sch s' G eq_refl)
            as [[Hq E] | E]; rewrite E
      end; [| apply effect_none].
      cbn [questions set_metadata]. rewrite Hq. apply effect_none.
    + match goal with
      | |- context [saveSchema env ?s' ?wk] =>
          destruct (saved_entries w w1 wk sch s' G eq_refl)
            as [[Hq E] | E]; rewrite E
      end; [| apply effect_none].
      cbn [questions set_metadata]. rewrite Hq. apply effect_none.
    + cbn [snd]. rewrite He. constructor.
Qed.

Lemma deleteQuestion_effect id (w : World) :
  effect w (Delete id) (entries (snd (deleteQuestion env id w))).
Proof.
  destruct (getSchema env w) as [[e | sch] w1] eqn:G.
  - pose proof (getSchema_any w) as A. rewrite G in A.
    destruct (exec_getSchema_threw (Delete id) w w1 e G) as [E _].
    cbn [exec] in E. rewrite E, A. constructor.
  - pose proof (getSchema_any w) as A. rewrite G in A.
    destruct A as (_ & He & _ & _).
    rewrite (deleteQuestion_run id w w1 sch G).
    destruct (Js.truthyMember _); [| cbn [snd]; rewrite He; constructor].
    match goal with
    | |- context [saveSchema env ?s' ?wk] =>
        destruct (saved_entries w w1 wk sch s' G eq_refl)
          as [[Hq E] | E]; rewrite E
    end; [| apply effect_none].
    cbn [questions]. rewrite Hq. apply effect_delete.
Qed.

Lemma clearAllQuestions_effect (w : World) :
  effect w ClearAll (entries (snd (clearAllQuestions env w))).
Proof.
  destruct (getSchema env w) as [[e | sch] w1] eqn:G.
  - pose proof (getSchema_any w) as A. rewrite G in A.
    destruct (exec_getSchema_threw ClearAll w w1 e G) as [E _].
    cbn [exec] in E. rewrite E, A. constructor.
  - rewrite (clearAllQuestions_run w w1 sch G).
    match goal with
    | |- context [saveSchema env ?s' ?wk] =>
        destruct (saved_entries w w1 wk sch s' G eq_refl)
          as [[Hq E] | E]; rewrite E
    end; [| apply effect_none].
    cbn [questions]. apply effect_clear.
Qed.

Lemma exec_effect (op : Op) (w : World) :
  effect w op (entries (exec env op w)).
Proof.
  destruct op; cbn [exec].
  - apply createQuestion_effect.
  - apply confirmQuestion_effect.
  - apply updateExtraction_effect.
  - apply deleteQuestion_effect.
  - apply clearAllQuestions_effect.
Qed.

(** A property of records that the three writing operations establish or
    keep, [updateExtraction] at least on the records it is allowed on,
    holds of every record after every operation. *)
Lemma exec_keeps (P : Question -> Prop) (allowed : Question -> Prop)
  (op : Op) (w : World) :
  (forall id i s f r t, P (created id i s f r t)) ->
  (forall t q, P q -> P (confirmed t q)) ->
  (forall r q, P q -> allowed q -> P (updated r q)) ->
  (forall id r q,
      op = UpdateExtraction id r -> lookup w id = Some q -> allowed q) ->
  Forall P (records w) -> Forall P (records (exec env op w)).
Proof.
  intros Hc Hf Hu Hallowed Hw. rewrite records_entries in *.
  pose proof (exec_effect op w) as E.
  remember (entries (exec env op w)) as o' eqn:Ho'. clear Ho'.
  destruct E as [ | i s f r id t | id q t Hget | id r q Hget | id | ].
  - assumption.
  - apply Forall_values_assign; [assumption | apply Hc].
  - apply Forall_values_assign; [assumption |].
    apply Hf. rewrite Forall_forall in Hw. apply Hw.
    now apply get_In with (k := id).
  - apply Forall_values_assign; [assumption |].
    assert (Pq : P q).
    { rewrite Forall_forall in Hw. apply Hw.
      now apply get_In with (k := id). }
    apply Hu; [assumption |].
    apply (Hallowed id r q eq_refl). now rewrite lookup_entries.
  - now apply Forall_values_delete.
  - constructor.
Qed.

Lemma truthy_iff (m : option string) :
  Js.truthy m = true <-> m <> None /\ m <> Some EmptyString.
Proof.
  destruct m as [[| c s] |]; cbn; split; try discriminate;
    try (intros [H1 H2]; congruence); try (intros _; split; discriminate).
Qed.

Lemma statusOf_failed (r : ai.AIExtractionResponse) :
  statusOf r = failed <-> Js.truthy (ai.errorMessage r) = true.
Proof.
  unfold statusOf. destruct (Js.truthy _); split; congruence.
Qed.

Lemma run_keeps (P : Question -> Prop) (guard : list Op -> World -> bool)
  (allowed : Question -> Prop) :
  (forall id i s f r t, P (created id i s f r t)) ->
  (forall t q, P q -> P (confirmed t q)) ->
  (forall r q, P q -> allowed q -> P (updated r q)) ->
  (forall op ops w, guard (op :: ops) w = true ->
     guard ops (exec env op w) = true
     /\ forall id r q, op = UpdateExtraction id r ->
                       lookup w id = Some q -> allowed q) ->
  forall ops w,
    guard ops w = true ->
    Forall P (records w) -> Forall P (records (run env ops w)).
Proof.
  intros Hc Hf Hu Hg. induction ops as [| op ops IH]; intros w G Hw.
  - exact Hw.
  - cbn [run fold_left]. destruct (Hg op ops w G) as [G' Hall].
    apply IH; [exact G' |].
    now apply exec_keeps with (allowed := allowed).
Qed.

(** C3, as the code has it.  Starting from a store without records,
    after any sequence of create, confirm, updateExtraction, delete and
    clearAll in which updateExtraction is not applied to a confirmed
    record, every record with [confirmedAt] set has the status
    [success].  (updateExtraction leaves [confirmedAt] as it is and sets
    the status to [failed] or [pending].) *)
Theorem confirmed_records_are_success (ops : list Op) (w : World) :
  records w = [] ->
  updatesOnlyUnconfirmed env ops w = true ->
  Forall confirmedImpliesSuccess (records (run env ops w)).
Proof.
  intros Hempty G.
  apply run_keeps
    with (guard := updatesOnlyUnconfirmed env)
         (allowed := fun q => isConfirmed q = false);
    try assumption.
  - intros id i s f r t H. now cbn in H.
  - intros t q _ _. reflexivity.
  - intros r q Hq Hn H. cbn in H. unfold isConfirmed in Hn.
    destruct (confirmedAt q); [discriminate | congruence].
  - intros op ops' w' H. cbn [updatesOnlyUnconfirmed] in H.
    apply andb_true_iff in H as [H1 H2]. split; [exact H2 |].
    intros id r q -> Hl. rewrite Hl in H1.
    now apply negb_true_iff in H1.
  - rewrite Hempty. constructor.
Qed.

(** C4, as the code has it.  Starting from a store without records,
    after any sequence of create, confirm, updateExtraction, delete and
    clearAll, every record whose status is not [success] has the status
    [failed] exactly when its [errorMessage] is neither null nor the
    empty string.  (confirm sets [success] whatever the
    [errorMessage].) *)
Theorem unconfirmed_status_follows_error (ops : list Op) (w : World) :
  records w = [] ->
  Forall failedIffError (records (run env ops w)).
Proof.
  intros Hempty.
  apply run_keeps
    with (guard := fun _ _ => true) (allowed := fun _ => True);
    try reflexivity.
  - intros id i s f r t _. cbn.
    rewrite statusOf_failed. apply truthy_iff.
  - intros t q _ H. now cbn in H.
  - intros r q _ _ _. cbn.
    rewrite statusOf_failed. apply truthy_iff.
  - intros op ops' w' _. split; [reflexivity | trivial].
  - rewrite Hempty. constructor.
Qed.

(** [createQuestion], when it returns: the id is the one drawn, and the
    container stored afterwards holds the record built under it. *)
Lemma createQuestion_returns i s f r (w w' : World) (id : string) :
  createQuestion env i s f r w = (inr id, w') ->
  inBrowser env = true
  /\ id = randomUUID env (uuidDraws w)
  /\ exists sch t,
       item w' = Some sch
       /\ Js.get (questions sch) id = Some (created id i s f r t).
Proof.
  intros R.
  destruct (getSchema env w) as [[e | sch] w1] eqn:G.
  - destruct (exec_getSchema_threw (Create i s f r) w w1 e G) as [_ T].
    cbn [thrownBy] in T. rewrite R in T. discriminate T.
  - pose proof (getSchema_any w) as A. rewrite G in A.
    destruct A as (_ & _ & _ & Hu).
    rewrite (createQuestion_run i s f r w w1 sch G) in R. cbv zeta in R.
    match type of R with
    | context [saveSchema env ?s' ?wk] =>
        destruct (saveSchema_leaves s' wk) as [(B & _ & Hi & _) | [_ F]];
        destruct (saveSchema env s' wk) as [[e | []] w2]; cbn [fst snd] in *;
        try discriminate R; try (now contradiction F)
    end.
    injection R as <- <-. rewrite Hu.
    split; [exact B |]. split; [reflexivity |].
    eexists. exists (now env (clockReads w1)).
    split; [exact Hi |]. cbn [questions]. rewrite <- Hu.
    apply get_assign_same.
Qed.

(** [createQuestion] returns in a browser whose storage has room. *)
Lemma createQuestion_total i s f r (w : World) :
  inBrowser env = true ->
  (forall sch, hasRoom env sch = true) ->
  exists w',
    createQuestion env i s f r w
    = (inr (randomUUID env (uuidDraws w)), w').
Proof.
  intros B Room.
  assert (G : exists sch w1,
             getSchema env w = (inr sch, w1)
             /\ uuidDraws w1 = uuidDraws w).
  { destruct (item w) as [sch |] eqn:H.
    - exists sch, w. now rewrite (getSchema_existing w sch B H).
    - rewrite (getSchema_absent w B H).
      rewrite (room_containerFits _ _ Room), (room_versionFits _ Room).
      eauto. }
  destruct G as (sch & w1 & G & Hu).
  rewrite (createQuestion_run i s f r w w1 sch G). cbv zeta.
  rewrite saveSchema_inside by exact B.
  rewrite (room_containerFits _ _ Room), (room_versionFits _ Room).
  rewrite Hu. eexists; reflexivity.
Qed.

Lemma getQuestionById_stored (w : World) (sch : LocalStorageSchema)
  (id : string) :
  inBrowser env = true -> item w = Some sch ->
  getQuestionById env id w
  = (inr (Js.orNull (Js.index (prototype w) (questions sch) id)), w).
Proof.
  intros B H. unfold getQuestionById.
  now rewrite bind_run, (getSchema_existing w sch B H).
Qed.

(** C1, as the code has it.  [createQuestion] returns in a browser whose
    storage has room, and whenever it returns, it returns the id drawn
    for the record, and [getQuestionById] on that id then gives a record
    with the response's [errorMessage], with [confirmedAt = null], and
    with the status [failed] if that [errorMessage] is neither null nor
    the empty string, and [pending] if it is null or empty. *)
Theorem createQuestion_derives_status i s f r (w : World) :
  (inBrowser env = true ->
   (forall sch, hasRoom env sch = true) ->
   exists w',
     createQuestion env i s f r w
     = (inr (randomUUID env (uuidDraws w)), w'))
  /\ (forall (id : string) (w' : World),
        createQuestion env i s f r w = (inr id, w') ->
        id = randomUUID env (uuidDraws w)
        /\ exists q,
             getQuestionById env id w' = (inr (Some (Js.Own q)), w')
             /\ question.id q = id
             /\ errorMessage q = ai.errorMessage r
             /\ confirmedAt q = None
             /\ (ai.errorMessage r <> None
                 /\ ai.errorMessage r <> Some EmptyString ->
                 processingStatus q = failed)
             /\ (ai.errorMessage r = None
                 \/ ai.errorMessage r = Some EmptyString ->
                 processingStatus q = pending)).
Proof.
  split; [apply createQuestion_total |].
  intros id w' H.
  destruct (createQuestion_returns i s f r w w' id H)
    as (B & Hid & sch & t & Hi & Hget).
  split; [exact Hid |].
  exists (created id i s f r t).
  rewrite (getQuestionById_stored w' sch id B Hi).
  rewrite (index_own _ _ _ _ Hget).
  repeat split.
  - intros Ht. apply truthy_iff in Ht. cbn. unfold statusOf. now rewrite Ht.
  - intros Hf. cbn. unfold statusOf.
    destruct Hf as [-> | ->]; reflexivity.
Qed.

(** What [getConfirmedQuestions] makes of the records. *)
Lemma confirmed_latest_first (l : list Question) :
  let r := Js.sort byConfirmationDesc (filter isConfirmed l) in
  Permutation r (filter isConfirmed l)
  /\ (forall q, In q r <-> In q l /\ confirmedAt q <> None)
  /\ StronglySorted
       (fun a b => getTime (confirmedAt b) <= getTime (confirmedAt a)) r.
Proof.
  cbv zeta.
  assert (P : Permutation
                (Js.sort byConfirmationDesc (filter isConfirmed l))
                (filter isConfirmed l))
    by apply sort_perm.
  split; [exact P |]. split.
  - intros q. split.
    + intros Hin. apply (Permutation_in _ P) in Hin.
      apply filter_In in Hin as [Hin Hc]. split; [exact Hin |].
      unfold isConfirmed in Hc. now destruct (confirmedAt q).
    + intros [Hin Hc]. apply (Permutation_in _ (Permutation_sym P)).
      apply filter_In. split; [exact Hin |].
      unfold isConfirmed. now destruct (confirmedAt q).
  - apply (sort_descending (fun q => getTime (confirmedAt q))).
Qed.

(** C10, as the code has it.  In a browser, where a container is
    stored, [getConfirmedQuestions] returns the records whose
    [confirmedAt] is not null, each as often as it is stored, ordered by
    [confirmedAt] from the latest to the earliest, and leaves the world
    as it is.  Where no container is stored, the call does write: it
    stores the empty container if that fits, and then the version item;
    it returns no record if both writes found room, which they do when
    the storage has room, and throws the quota error of the write that
    found none otherwise.  Outside a browser the call returns no record
    and leaves the storage as it is. *)
Theorem getConfirmedQuestions_latest_first (w : World) :
  (inBrowser env = true ->
   forall sch : LocalStorageSchema,
      item w = Some sch ->
      exists l : list Question,
        getConfirmedQuestions env w = (inr l, w)
        /\ Permutation l (filter isConfirmed (Js.values (questions sch)))
        /\ (forall q, In q l <->
                      In q (Js.values (questions sch))
                      /\ confirmedAt q <> None)
        /\ StronglySorted
             (fun a b => getTime (confirmedAt b) <= getTime (confirmedAt a))
             l)
  /\ (inBrowser env = true ->
      item w = None ->
      let sch := emptySchema (now env (clockReads w))
                   (now env (S (clockReads w))) in
      let w' := snd (getConfirmedQuestions env w) in
      records w' = []
      /\ (containerFits env w sch = true -> item w' = Some sch)
      /\ (containerFits env w sch = false ->
          item w' = None
          /\ fst (getConfirmedQuestions env w)
             = inl (DOMException "QuotaExceededError"))
      /\ (hasRoom env sch = true ->
          fst (getConfirmedQuestions env w) = inr []
          /\ versionItem w' = Some CURRENT_VERSION)
      /\ (forall l, fst (getConfirmedQuestions env w) = inr l ->
                    l = [] /\ item w' = Some sch
                    /\ versionItem w' = Some CURRENT_VERSION)
      /\ (forall e, fst (getConfirmedQuestions env w) = inl e ->
                    e = DOMException "QuotaExceededError"))
  /\ (inBrowser env = false ->
      fst (getConfirmedQuestions env w) = inr []
      /\ item (snd (getConfirmedQuestions env w)) = item w
      /\ versionItem (snd (getConfirmedQuestions env w)) = versionItem w
      /\ prototype (snd (getConfirmedQuestions env w)) = prototype w).
Proof.
  split; [| split].
  - intros B sch H. unfold getConfirmedQuestions.
    rewrite bind_run, (getSchema_existing w sch B H).
    eexists. split; [reflexivity |].
    apply confirmed_latest_first.
  - intros B H. cbv zeta. unfold getConfirmedQuestions.
    rewrite bind_run, (getSchema_absent w B H).
    assert (V : hasRoom env
                  (emptySchema (now env (clockReads w))
                     (now env (S (clockReads w)))) = true ->
                containerFits env w
                  (emptySchema (now env (clockReads w))
                     (now env (S (clockReads w)))) = true
                /\ versionFits env
                     (mkWorld
                        (Some (emptySchema (now env (clockReads w))
                                 (now env (S (clockReads w)))))
                        (versionItem w) (prototype w)
                        (S (S (clockReads w))) (uuidDraws w)) = true).
    { intros Room. unfold containerFits, versionFits. cbn [item versionItem].
      rewrite Room. destruct (versionItem w) as [v |]; [| now split].
      now destruct (String.eqb v CURRENT_VERSION). }
    destruct (containerFits env w _) eqn:C1.
    + destruct (versionFits env _) eqn:C2; cbn [fst snd].
      * split; [reflexivity |]. split; [reflexivity |].
        split; [discriminate |]. split; [split; reflexivity |].
        split; [| discriminate].
        intros l Hl. now injection Hl as <-.
      * split; [reflexivity |]. split; [reflexivity |].
        split; [discriminate |].
        split; [intros Room; destruct (V Room); discriminate |].
        split; [discriminate |].
        intros e He. now injection He as <-.
    + cbn [fst snd]. unfold records. cbn [item].
      split; [reflexivity |]. split; [discriminate |].
      split; [split; reflexivity |].
      split; [intros Room; destruct (V Room); discriminate |].
      split; [discriminate |].
      intros e He. now injection He as <-.
  - intros B. unfold getConfirmedQuestions.
    rewrite bind_run, (getSchema_outside w B). cbn.
    repeat split.
Qed.

End Store.

Lemma createQuestion_derives_status_witness :
  exists w' : schema.World,
    questions.createQuestion questions.sampleEnv
      "data:image/png;base64,AAAA" 1024 "image/png"
      (questions.sampleFailure "No question found in this image.")
      questions.fresh
    = (inr "q0", w').
Proof.
  apply (proj1 (createQuestion_derives_status questions.sampleEnv
                  "data:image/png;base64,AAAA" 1024 "image/png"
                  (questions.sampleFailure "No question found in this image.")
                  questions.fresh)).
  - reflexivity.
  - intros sch. reflexivity.
Defined.

(** C1, as the claim states it, fails for the empty string: the
    response carries a non-null [errorMessage], and the record created
    from it is [pending]. *)
Lemma empty_error_message_is_stored_as_pending :
  exists (w' : schema.World) (q : question.Question),
    questions.createQuestion questions.sampleEnv
      "data:image/png;base64,AAAA" 1024 "image/png"
      (questions.sampleFailure "") questions.fresh
    = (inr "q0", w')
    /\ questions.getQuestionById questions.sampleEnv "q0" w'
       = (inr (Some (Js.Own q)), w')
    /\ ai.errorMessage (questions.sampleFailure "") <> None
    /\ question.errorMessage q <> None
    /\ question.processingStatus q = question.pending
    /\ question.processingStatus q <> question.failed.
Proof.
  exists (snd (questions.createQuestion questions.sampleEnv
                 "data:image/png;base64,AAAA" 1024 "image/png"
                 (questions.sampleFailure "") questions.fresh)).
  exists (questions.created "q0" "data:image/png;base64,AAAA" 1024
            "image/png" (questions.sampleFailure "") 2000).
  split; [vm_compute; reflexivity |].
  split; [vm_compute; reflexivity |].
  cbn. repeat split; discriminate.
Qed.

Lemma confirmed_records_are_success_witness :
  Forall questions.confirmedImpliesSuccess
    (questions.records
       (questions.run questions.sampleEnv
          [questions.Create "data:image/png;base64,AAAA" 1024 "image/png"
             (questions.sampleFailure "Too blurry");
           questions.UpdateExtraction "q0" questions.sampleSuccess;
           questions.Confirm "q0";
           questions.Create "data:image/png;base64,BBBB" 2048 "image/png"
             questions.sampleSuccess;
           questions.Delete "q1"]
          questions.fresh)).
Proof.
  apply (confirmed_records_are_success questions.sampleEnv).
  - reflexivity.
  - reflexivity.
Defined.

(** C3, as the claim states it, fails: a record is created and
    confirmed, then [updateExtraction] is applied to it; it keeps its
    [confirmedAt] and is [pending]. *)
Lemma update_of_confirmed_record_breaks_invariant :
  ~ Forall questions.confirmedImpliesSuccess
      (questions.records
         (questions.run questions.sampleEnv
            [questions.Create "data:image/png;base64,AAAA" 1024
               "image/png" questions.sampleSuccess;
             questions.Confirm "q0";
             questions.UpdateExtraction "q0" questions.sampleSuccess]
            questions.fresh)).
Proof.
  intros H. cbn in H. inversion H as [| q l Hq _]; subst.
  unfold questions.confirmedImpliesSuccess in Hq. cbn in Hq.
  assert (E : question.pending = question.success)
    by (apply Hq; discriminate).
  discriminate E.
Qed.

Lemma unconfirmed_status_follows_error_witness :
  Forall questions.failedIffError
    (questions.records
       (questions.run questions.sampleEnv
          [questions.Create "data:image/png;base64,AAAA" 1024 "image/png"
             (questions.sampleFailure "Too blurry");
           questions.Confirm "q0";
           questions.Create "data:image/png;base64,BBBB" 2048 "image/png"
             (questions.sampleFailure "");
           questions.UpdateExtraction "q0" questions.sampleSuccess]
          questions.fresh)).
Proof.
  apply (unconfirmed_status_follows_error questions.sampleEnv).
  reflexivity.
Defined.

(** C4, as the claim states it, fails twice: a record created with an
    error message and then confirmed is [success] with its
    [errorMessage] still there, and a record created with the empty
    string as [errorMessage] is [pending]. *)
Lemma confirm_of_failed_record_breaks_invariant :
  ~ Forall questions.failedIffErrorNotNull
      (questions.records
         (questions.run questions.sampleEnv
            [questions.Create "data:image/png;base64,AAAA" 1024
               "image/png" (questions.sampleFailure "Too blurry");
             questions.Confirm "q0"]
            questions.fresh))
  /\ ~ Forall questions.failedIffErrorNotNull
         (questions.records
            (questions.run questions.sampleEnv
               [questions.Create "data:image/png;base64,AAAA" 1024
                  "image/png" (questions.sampleFailure "")]
               questions.fresh)).
Proof.
  split; intros H; cbn in H; inversion H as [| q l Hq _]; subst;
    unfold questions.failedIffErrorNotNull in Hq; cbn in Hq;
    destruct Hq as [_ Hq];
    assert (E : question.failed = question.failed -> False)
      by (intros _; specialize (Hq ltac:(discriminate)); discriminate Hq);
    now apply E.
Qed.

Lemma getConfirmedQuestions_latest_first_witness :
  exists l : list question.Question,
    questions.getConfirmedQuestions questions.sampleEnv container.stored
    = (inr l, container.stored)
    /\ Permutation l
         (filter questions.isConfirmed
            (Js.values (question.questions questions.sampleContainer)))
    /\ (forall q, In q l <->
                  In q (Js.values
                          (question.questions questions.sampleContainer))
                  /\ question.confirmedAt q <> None)
    /\ StronglySorted
         (fun a b =>
            questions.getTime (question.confirmedAt b)
            <= questions.getTime (question.confirmedAt a))
         l.
Proof.
  apply (proj1 (getConfirmedQuestions_latest_first questions.sampleEnv
                  container.stored) eq_refl questions.sampleContainer).
  reflexivity.
Defined.

(** C10, as the claim states it, fails for the store in which nothing
    is stored yet: the call returns no record and has then stored the
    empty container and the version item. *)
Lemma getConfirmedQuestions_writes_on_empty_storage :
  schema.item questions.fresh = None
  /\ schema.versionItem questions.fresh = None
  /\ questions.getConfirmedQuestions questions.sampleEnv questions.fresh
     = (inr [],
        schema.mkWorld (Some (schema.emptySchema 0 1000)) (Some "1.0.0")
          [] 2 0)
  /\ snd (questions.getConfirmedQuestions questions.sampleEnv
            questions.fresh)
     <> questions.fresh.
Proof.
  split; [reflexivity |]. split; [reflexivity |].
  split; [reflexivity |]. discriminate.
Qed.

(** * Further properties *)

(** ** The question store: single operations *)

Section ObjectFacts.
Context {V : Type}.
Implicit Types (o : list (string * V)) (k : string) (v : V).

Lemma get_assign_other o k k' v :
  k' <> k -> Js.get (Js.assign o k v) k' = Js.get o k'.
Proof.
  intros Hne. induction o as [| [k0 v0] o IH]; cbn.
  - destruct (String.eqb k' k) eqn:E; [apply String.eqb_eq in E; congruence |].
    reflexivity.
  - destruct (String.eqb k k0) eqn:E; cbn.
    + apply String.eqb_eq in E. subst k0.
      destruct (String.eqb k' k) eqn:E'; [| reflexivity].
      apply String.eqb_eq in E'. congruence.
    + now rewrite IH.
Qed.

Lemma get_delete_same o k : Js.get (Js.delete o k) k = None.
Proof.
  induction o as [| [k0 v0] o IH]; cbn; [reflexivity |].
  destruct (String.eqb k k0) eqn:E; [exact IH |]. cbn. now rewrite E.
Qed.

Lemma get_delete_other o k k' :
  k' <> k -> Js.get (Js.delete o k) k' = Js.get o k'.
Proof.
  intros Hne. induction o as [| [k0 v0] o IH]; cbn; [reflexivity |].
  destruct (String.eqb k k0) eqn:E; cbn.
  - apply String.eqb_eq in E. subst k0.
    destruct (String.eqb k' k) eqn:E'; [| exact IH].
    apply String.eqb_eq in E'. congruence.
  - now rewrite IH.
Qed.

Lemma get_None_keys o k : Js.get o k = None <-> ~ In k (map fst o).
Proof.
  induction o as [| [k0 v0] o IH]; cbn.
  - tauto.
  - destruct (String.eqb k k0) eqn:E.
    + apply String.eqb_eq in E. split; [discriminate | intros H; exfalso; auto].
    + apply String.eqb_neq in E. rewrite IH. intuition congruence.
Qed.

Lemma keys_assign_present o k v :
  Js.get o k <> None -> map fst (Js.assign o k v) = map fst o.
Proof.
  induction o as [| [k0 v0] o IH]; cbn; [congruence |].
  destruct (String.eqb k k0) eqn:E; cbn; [reflexivity |].
  intros H. now rewrite IH.
Qed.

Lemma assign_absent o k v :
  Js.get o k = None -> Js.assign o k v = (o ++ [(k, v)])%list.
Proof.
  induction o as [| [k0 v0] o IH]; cbn; [reflexivity |].
  destruct (String.eqb k k0); [discriminate |].
  intros H. now rewrite IH.
Qed.

Lemma keys_delete o k :
  map fst (Js.delete o k) = filter (fun k' => negb (String.eqb k k')) (map fst o).
Proof.
  induction o as [| [k0 v0] o IH]; cbn; [reflexivity |].
  destruct (String.eqb k k0); cbn; now rewrite IH.
Qed.

Lemma length_delete_present o k :
  NoDup (map fst o) -> Js.get o k <> None ->
  S (List.length (Js.delete o k)) = List.length o.
Proof.
  induction o as [| [k0 v0] o IH]; cbn; [congruence |].
  intros Hnd H. inversion Hnd as [| ? ? Hnotin Hnd']; subst.
  destruct (String.eqb k k0) eqn:E.
  - apply String.eqb_eq in E. subst k0. f_equal.
    clear IH H Hnd Hnd'. induction o as [| [k1 v1] o IH]; cbn; [reflexivity |].
    cbn in Hnotin.
    destruct (String.eqb k k1) eqn:E1.
    + apply String.eqb_eq in E1. subst. exfalso. auto.
    + cbn. f_equal. apply IH. auto.
  - cbn. f_equal. now apply IH.
Qed.

Lemma get_keys_In o k v : Js.get o k = Some v -> In (k, v) o.
Proof.
  induction o as [| [k0 v0] o IH]; cbn; [discriminate |].
  destruct (String.eqb k k0) eqn:E.
  - apply String.eqb_eq in E. intros H. left. congruence.
  - intros H. right. now apply IH.
Qed.

Lemma In_assign o k v (kv : string * V) :
  In kv (Js.assign o k v) -> In kv o \/ kv = (k, v).
Proof.
  induction o as [| [k0 v0] o IH]; cbn.
  - intros [H | []]. now right.
  - destruct (String.eqb k k0) eqn:E; cbn.
    + apply String.eqb_eq in E. subst k0. intros [H | H]; auto.
    + intros [H | H]; auto. destruct (IH H); auto.
Qed.

Lemma In_delete o k (kv : string * V) : In kv (Js.delete o k) -> In kv o.
Proof.
  induction o as [| [k0 v0] o IH]; cbn; [tauto |].
  destruct (String.eqb k k0); cbn; intuition.
Qed.

Lemma NoDup_keys_assign o k v :
  NoDup (map fst o) -> NoDup (map fst (Js.assign o k v)).
Proof.
  intros Hnd. destruct (Js.get o k) eqn:Hget.
  - rewrite keys_assign_present; [exact Hnd | congruence].
  - rewrite (assign_absent o k v Hget), map_app. cbn.
    apply get_None_keys in Hget.
    apply NoDup_app; [exact Hnd | repeat constructor; intros [] |].
    intros x Hx [<- | []]. contradiction.
Qed.

Lemma NoDup_keys_delete o k :
  NoDup (map fst o) -> NoDup (map fst (Js.delete o k)).
Proof. intros Hnd. rewrite keys_delete. now apply NoDup_filter. Qed.

Lemma length_assign_present o k v :
  Js.get o k <> None -> List.length (Js.assign o k v) = List.length o.
Proof.
  intros H. rewrite <- (length_map fst (Js.assign o k v)).
  now rewrite keys_assign_present, length_map.
Qed.

End ObjectFacts.

Section StoreOps.
Import question schema questions container.
Variable env : Env.

(** What [getSchema] gives in a browser: the stored container; or,
    where there is none, the empty container once it and the version
    item are written, and the quota error of the first write that finds
    no room. *)
Lemma getSchema_cases (w : World) :
  inBrowser env = true ->
  (exists sch, item w = Some sch /\ getSchema env w = (inr sch, w))
  \/ (item w = None
      /\ let sch := emptySchema (now env (clockReads w))
                      (now env (S (clockReads w))) in
         let w2 := fun i v =>
                     mkWorld i v (prototype w) (S (S (clockReads w)))
                       (uuidDraws w) in
         (containerFits env w sch = true
          /\ versionFits env (w2 (Some sch) (versionItem w)) = true
          /\ getSchema env w
             = (inr sch, w2 (Some sch) (Some CURRENT_VERSION)))
         \/ (containerFits env w sch = true
             /\ versionFits env (w2 (Some sch) (versionItem w)) = false
             /\ getSchema env w
                = (inl quotaExceeded, w2 (Some sch) (versionItem w)))
         \/ (containerFits env w sch = false
             /\ getSchema env w
                = (inl quotaExceeded, w2 None (versionItem w)))).
Proof.
  intros B. destruct (item w) as [sch |] eqn:H.
  - left. exists sch. split; [reflexivity |]. now apply getSchema_existing.
  - right. split; [reflexivity |]. cbv zeta.
    rewrite (getSchema_absent env w B H).
    destruct (containerFits env w _); [| right; right; now split].
    destruct (versionFits env _); [left | right; left]; now split.
Qed.

Lemma getSchema_returned (w w1 : World) (sch : LocalStorageSchema) :
  inBrowser env = true ->
  getSchema env w = (inr sch, w1) ->
  questions sch = entries w
  /\ totalQuestions (metadata sch) = count w
  /\ item w1 = Some sch
  /\ uuidDraws w1 = uuidDraws w
  /\ prototype w1 = prototype w
  /\ (forall s0, item w = Some s0 -> s0 = sch /\ w1 = w)
  /\ (item w = None -> versionItem w1 = Some CURRENT_VERSION).
Proof.
  intros B G.
  destruct (getSchema_cases w B)
    as [(sch0 & H & G0) | (H & [(_ & _ & G0) | [(_ & _ & G0) | (_ & G0)]])];
    rewrite G0 in G; try discriminate; injection G as <- <-;
    unfold entries, count; rewrite H; cbn;
    repeat split; congruence.
Qed.

Lemma getSchema_threw (w w1 : World) (e : Thrown) :
  inBrowser env = true ->
  getSchema env w = (inl e, w1) ->
  e = quotaExceeded /\ item w = None
  /\ entries w1 = [] /\ count w1 = 0
  /\ uuidDraws w1 = uuidDraws w /\ prototype w1 = prototype w.
Proof.
  intros B G.
  destruct (getSchema_cases w B)
    as [(sch0 & H & G0) | (H & [(_ & _ & G0) | [(_ & _ & G0) | (_ & G0)]])];
    rewrite G0 in G; try discriminate; injection G as <- <-;
    repeat split; assumption.
Qed.

(** [getSchema] changes neither the properties of the container nor
    the count, wherever the code runs and however it ends. *)
Lemma getSchema_keeps (w : World) :
  entries (snd (getSchema env w)) = entries w
  /\ count (snd (getSchema env w)) = count w
  /\ uuidDraws (snd (getSchema env w)) = uuidDraws w
  /\ prototype (snd (getSchema env w)) = prototype w.
Proof.
  destruct (inBrowser env) eqn:B.
  - destruct (getSchema env w) as [[e | sch] w1] eqn:G; cbn [snd].
    + destruct (getSchema_threw w w1 e B G) as (_ & H & He & Hc & Hu & Hp).
      unfold entries, count in *. rewrite H. auto.
    + destruct (getSchema_returned w w1 sch B G)
        as (Hq & Hc & Hi & Hu & Hp & _).
      unfold entries at 1. unfold count at 1. rewrite Hi. auto.
  - rewrite (getSchema_outside env w B). cbn. auto.
Qed.

Lemma found_after_getSchema (w w1 : World) (sch : LocalStorageSchema)
  (id : string) :
  inBrowser env = true ->
  getSchema env w = (inr sch, w1) ->
  Js.index (prototype w1) (questions sch) id = found w id.
Proof.
  intros B G.
  destruct (getSchema_returned w w1 sch B G) as (Hq & _ & _ & _ & Hp & _).
  unfold found. now rewrite Hq, Hp.
Qed.

(** [saveSchema] after [getSchema], in a world that still holds what
    [getSchema] left: in a browser, with room for the container, the
    schema saved is stored; else the container is as it was. *)
Lemma saved (w w1 wk : World) (sch s : LocalStorageSchema) :
  getSchema env w = (inr sch, w1) ->
  item wk = item w1 ->
  uuidDraws (snd (saveSchema env s wk)) = uuidDraws wk
  /\ ((inBrowser env = true
       /\ containerFits env wk s = true
       /\ entries (snd (saveSchema env s wk)) = questions s
       /\ count (snd (saveSchema env s wk))
          = totalQuestions (metadata s))
      \/ (fst (saveSchema env s wk) <> inr tt
          /\ entries (snd (saveSchema env s wk)) = entries w
          /\ count (snd (saveSchema env s wk)) = count w)).
Proof.
  intros G Hk.
  destruct (getSchema_keeps w) as (He & Hc & _ & _). rewrite G in He, Hc.
  cbn [snd] in He, Hc.
  destruct (saveSchema_leaves env s wk)
    as [(B & C & Hi & _ & _ & Hu) | [E F]].
  - split; [exact Hu |]. left. unfold entries, count. rewrite Hi. auto.
  - rewrite E. split; [reflexivity |]. right.
    split; [exact F |]. rewrite <- He, <- Hc. unfold entries, count.
    now rewrite Hk.
Qed.

Lemma own_needs_container (w w1 : World) (sch : LocalStorageSchema)
  (id : string) (q : Question) :
  inBrowser env = true ->
  getSchema env w = (inr sch, w1) ->
  Js.get (questions sch) id = Some q ->
  item w = Some sch /\ w1 = w.
Proof.
  intros B G Hget.
  destruct (getSchema_returned w w1 sch B G) as (Hq & _ & _ & _ & _ & Hs & _).
  destruct (item w) as [s0 |] eqn:H.
  - destruct (Hs s0 eq_refl) as [-> ->]. now split.
  - unfold entries in Hq. rewrite H in Hq. rewrite Hq in Hget.
    discriminate Hget.
Qed.

(** What an operation has done, however it ended. *)
Lemma exec_change (op : Op) (w : World) :
  change env w (exec env op w) op.
Proof.
  destruct (getSchema_keeps w) as (He & Hc & Hu & Hp).
  destruct (getSchema env w) as [[e | sch] w1] eqn:G; cbn [snd] in *.
  { destruct (exec_getSchema_threw env op w w1 e G) as [-> _].
    apply change_none; [assumption | assumption | lia]. }
  assert (None_k : forall wk : World,
             item wk = item w1 -> (uuidDraws w <= uuidDraws wk)%nat ->
             change env w wk op).
  { intros wk Hi Hd. apply change_none; [| | exact Hd].
    - rewrite <- He. unfold entries. now rewrite Hi.
    - rewrite <- Hc. unfold count. now rewrite Hi. }
  destruct op as [i s f r | id | id r | id | ]; cbn [exec].
  - rewrite (createQuestion_run env i s f r w w1 sch G). cbv zeta.
    match goal with
    | |- context [saveSchema env ?s' ?wk] =>
        destruct (saved w w1 wk sch s' G eq_refl)
          as (Hd & [(B & _ & E & Cn) | (_ & E & Cn)]);
        destruct (saveSchema env s' wk) as [[e | u] w2];
        cbn [fst snd] in *; cbn [uuidDraws] in Hd
    end;
      try (apply change_none; [assumption | assumption | lia]);
      destruct (getSchema_returned w w1 sch B G) as (Hq & Ht & _);
      cbn [questions metadata totalQuestions] in E, Cn;
      rewrite Hq, Hu in E; rewrite Ht in Cn;
      apply (change_create env w w2 i s f r (now env (clockReads w1)));
      try assumption; lia.
  - rewrite (confirmQuestion_run env id w w1 sch G). cbv zeta.
    destruct (Js.index (prototype w1) (questions sch) id)
      as [[q | [p | | name]] |] eqn:I.
    + apply index_Own in I.
      match goal with
      | |- context [saveSchema env ?s' ?wk] =>
          destruct (saved w w1 wk sch s' G eq_refl)
            as (Hd & [(B & _ & E & Cn) | (_ & E & Cn)]);
          cbn [uuidDraws] in Hd;
          remember (snd (saveSchema env s' wk)) as w2 eqn:Ew2; clear Ew2
      end; [| apply change_none; [assumption | assumption | lia]].
      destruct (getSchema_returned w w1 sch B G) as (Hq & Ht & _).
      destruct (own_needs_container w w1 sch id q B G I) as [_ ->].
      cbn [questions metadata totalQuestions set_lastModified] in E, Cn.
      rewrite Hq in E, I. rewrite Ht in Cn.
      now apply (change_confirm env w _ id q).
    + destruct (Js.truthyPrimitive p); cbn [snd];
        apply None_k; cbn [item uuidDraws]; try reflexivity; lia.
    + match goal with
      | |- context [saveSchema env ?s' ?wk] =>
          destruct (saved w w1 wk sch s' G eq_refl)
            as (Hd & [(B & _ & E & Cn) | (_ & E & Cn)]);
          cbn [uuidDraws] in Hd;
          remember (snd (saveSchema env s' wk)) as w2 eqn:Ew2; clear Ew2
      end; [| apply change_none; [assumption | assumption | lia]].
      destruct (getSchema_returned w w1 sch B G) as (Hq & Ht & _).
      cbn [questions metadata totalQuestions set_lastModified set_metadata]
        in E, Cn.
      rewrite Hq in E. rewrite Ht in Cn.
      apply change_none; [assumption | assumption | lia].
    + match goal with
      | |- context [saveSchema env ?s' ?wk] =>
          destruct (saved w w1 wk sch s' G eq_refl)
            as (Hd & [(B & _ & E & Cn) | (_ & E & Cn)]);
          cbn [uuidDraws] in Hd;
          remember (snd (saveSchema env s' wk)) as w2 eqn:Ew2; clear Ew2
      end; [| apply change_none; [assumption | assumption | lia]].
      destruct (getSchema_returned w w1 sch B G) as (Hq & Ht & _).
      cbn [questions metadata totalQuestions set_lastModified set_metadata]
        in E, Cn.
      rewrite Hq in E. rewrite Ht in Cn.
      apply change_none; [assumption | assumption | lia].
    + cbn [snd]. apply None_k; [reflexivity | lia].
  - rewrite (updateExtraction_run env id r w w1 sch G). cbv zeta.
    destruct (Js.index (prototype w1) (questions sch) id)
      as [[q | [p | | name]] |] eqn:I.
    + apply index_Own in I.
      match goal with
      | |- context [saveSchema env ?s' ?wk] =>
          destruct (saved w w1 wk sch s' G eq_refl)
            as (Hd & [(B & _ & E & Cn) | (_ & E & Cn)]);
          cbn [uuidDraws] in Hd;
          remember (snd (saveSchema env s' wk)) as w2 eqn:Ew2; clear Ew2
      end; [| apply change_none; [assumption | assumption | lia]].
      destruct (getSchema_returned w w1 sch B G) as (Hq & Ht & _).
      cbn [questions metadata totalQuestions set_lastModified] in E, Cn.
      rewrite Hq in E, I. rewrite Ht in Cn.
      apply (change_update env w _ id r q); try assumption. lia.
    + destruct (Js.truthyPrimitive p); cbn [snd];
        apply None_k; try reflexivity; lia.
    + match goal with
      | |- context [saveSchema env ?s' ?wk] =>
          destruct (saved w w1 wk sch s' G eq_refl)
            as (Hd & [(B & _ & E & Cn) | (_ & E & Cn)]);
          cbn [uuidDraws] in Hd;
          remember (snd (saveSchema env s' wk)) as w2 eqn:Ew2; clear Ew2
      end; [| apply change_none; [assumption | assumption | lia]].
      destruct (getSchema_returned w w1 sch B G) as (Hq & Ht & _).
      cbn [questions metadata totalQuestions set_lastModified set_metadata]
        in E, Cn.
      rewrite Hq in E. rewrite Ht in Cn.
      apply change_none; [assumption | assumption | lia].
    + match goal with
      | |- context [saveSchema env ?s' ?wk] =>
          destruct (saved w w1 wk sch s' G eq_refl)
            as (Hd & [(B & _ & E & Cn) | (_ & E & Cn)]);
          cbn [uuidDraws] in Hd;
          remember (snd (saveSchema env s' wk)) as w2 eqn:Ew2; clear Ew2
      end; [| apply change_none; [assumption | assumption | lia]].
      destruct (getSchema_returned w w1 sch B G) as (Hq & Ht & _).
      cbn [questions metadata totalQuestions set_lastModified set_metadata]
        in E, Cn.
      rewrite Hq in E. rewrite Ht in Cn.
      apply change_none; [assumption | assumption | lia].
    + cbn [snd]. apply None_k; [reflexivity | lia].
  - rewrite (deleteQuestion_run env id w w1 sch G).
    destruct (Js.truthyMember _) eqn:T;
      [| cbn [snd]; apply None_k; [reflexivity | lia]].
    match goal with
    | |- context [saveSchema env ?s' ?wk] =>
        destruct (saved w w1 wk sch s' G eq_refl)
          as (Hd & [(B & _ & E & Cn) | (_ & E & Cn)]);
        cbn [uuidDraws] in Hd;
        remember (snd (saveSchema env s' wk)) as w2 eqn:Ew2; clear Ew2
    end; [| apply change_none; [assumption | assumption | lia]].
    destruct (getSchema_returned w w1 sch B G) as (Hq & Ht & _).
    rewrite (found_after_getSchema w w1 sch id B G) in T.
    cbn [questions metadata totalQuestions] in E, Cn.
    rewrite Hq in E. rewrite Ht in Cn.
    apply change_delete; try assumption. lia.
  - rewrite (clearAllQuestions_run env w w1 sch G).
    match goal with
    | |- context [saveSchema env ?s' ?wk] =>
        destruct (saved w w1 wk sch s' G eq_refl)
          as (Hd & [(B & _ & E & Cn) | (_ & E & Cn)]);
        cbn [uuidDraws] in Hd;
        remember (snd (saveSchema env s' wk)) as w2 eqn:Ew2; clear Ew2
    end; [| apply change_none; [assumption | assumption | lia]].
    cbn [questions metadata totalQuestions] in E, Cn.
    apply change_clear; try assumption. lia.
Qed.

(** *** Single operations *)

Lemma lookup_item (w : World) (sch : LocalStorageSchema) (id : string) :
  item w = Some sch -> lookup w id = Js.get (questions sch) id.
Proof. intros H. unfold lookup. now rewrite H. Qed.


Lemma found_own (w : World) (id : string) (q : Question) :
  found w id = Some (Js.Own q) <-> lookup w id = Some q.
Proof.
  unfold found. rewrite lookup_entries. split.
  - apply index_Own.
  - apply index_own.
Qed.

Lemma found_inherited (w : World) (id : string) (i : Js.Inherited) :
  found w id = Some (Js.Inherit i) -> lookup w id = None.
Proof.
  unfold found. rewrite lookup_entries. intros H.
  now apply index_Inherit in H.
Qed.

Lemma thrown_Some {A} (r : Thrown + A) (w : World) (e : Thrown) :
  thrown (r, w) = Some e -> r = inl e.
Proof. unfold thrown. cbn. destruct r; congruence. Qed.

Lemma thrown_None {A} (r : (Thrown + A) * World) :
  thrown r = None -> exists a, r = (inr a, snd r).
Proof.
  destruct r as [[e | a] w]; unfold thrown; cbn; [discriminate |].
  intros _. now exists a.
Qed.

(** [saveSchema], when it returns: both writes were made. *)
Lemma saveSchema_returned (s : LocalStorageSchema) (w w' : World) :
  saveSchema env s w = (inr tt, w') ->
  inBrowser env = true
  /\ w' = mkWorld (Some s) (Some CURRENT_VERSION) (prototype w)
            (clockReads w) (uuidDraws w).
Proof.
  intros R. destruct (inBrowser env) eqn:B.
  - rewrite (saveSchema_inside env s w B) in R.
    destruct (containerFits env w s); [| discriminate].
    destruct (versionFits env _); [| discriminate].
    injection R as <-. now split.
  - rewrite (saveSchema_outside env s w B) in R. discriminate.
Qed.

(** [saveSchema], when it throws in a browser: the storage is full,
    and the container was written all the same if it was only the
    version item that found no room, which cannot be once that item
    holds the current version. *)
Lemma saveSchema_threw (s : LocalStorageSchema) (w w' : World)
  (e : Thrown) :
  inBrowser env = true ->
  saveSchema env s w = (inl e, w') ->
  e = storageFull
  /\ (w' = w
      \/ (versionItem w <> Some CURRENT_VERSION
          /\ w' = mkWorld (Some s) (versionItem w) (prototype w)
                    (clockReads w) (uuidDraws w))).
Proof.
  intros B R. rewrite (saveSchema_inside env s w B) in R.
  destruct (containerFits env w s).
  - destruct (versionFits env _) eqn:V; [discriminate |].
    injection R as <- <-. split; [reflexivity |]. right.
    split; [| reflexivity]. intros Hv.
    rewrite versioned_versionFits in V by exact Hv. discriminate.
  - injection R as <- <-. split; [reflexivity | now left].
Qed.


(** What a returning [confirmQuestion] has found and left. *)
Lemma confirmQuestion_returned (id : string) (w w' : World) :
  confirmQuestion env id w = (inr tt, w') ->
  exists sch w1,
    inBrowser env = true
    /\ getSchema env w = (inr sch, w1)
    /\ let t := now env (clockReads w1) in
       let t' := now env (S (clockReads w1)) in
       let touched := set_metadata (set_lastModified t' (metadata sch)) sch in
       let left s p :=
         mkWorld (Some s) (Some CURRENT_VERSION) p
           (S (S (clockReads w1))) (uuidDraws w1) in
       (exists q,
           Js.get (questions sch) id = Some q
           /\ w1 = w
           /\ w' = left (mkSchema (version sch)
                           (Js.assign (questions sch) id (confirmed t q))
                           (set_lastModified t' (metadata sch)))
                     (prototype w1))
       \/ (found w id = Some (Js.Inherit Js.ObjectPrototype)
           /\ w' = left touched
                     (Js.assign
                        (Js.assign (prototype w1) "confirmedAt"
                           (Js.Time t))
                        "processingStatus" (Js.Text "success")))
       \/ (exists name,
              found w id = Some (Js.Inherit (Js.Function name))
              /\ w' = left touched (prototype w1)).
Proof.
  intros R.
  destruct (getSchema env w) as [[e | sch] w1] eqn:G.
  { destruct (exec_getSchema_threw env (Confirm id) w w1 e G) as [_ T].
    cbn [thrownBy] in T. rewrite R in T. discriminate T. }
  rewrite (confirmQuestion_run env id w w1 sch G) in R. cbv zeta in R.
  destruct (Js.index (prototype w1) (questions sch) id)
    as [[q | [p | | name]] |] eqn:I.
  - apply saveSchema_returned in R as [B ->]. exists sch, w1.
    split; [exact B |]. split; [reflexivity |]. cbv zeta. left.
    apply index_Own in I.
    destruct (own_needs_container w w1 sch id q B G I) as [_ ->].
    exists q. auto.
  - destruct (Js.truthyPrimitive p); discriminate R.
  - apply saveSchema_returned in R as [B ->]. exists sch, w1.
    split; [exact B |]. split; [reflexivity |]. cbv zeta. right. left.
    rewrite <- (found_after_getSchema w w1 sch id B G). now split.
  - apply saveSchema_returned in R as [B ->]. exists sch, w1.
    split; [exact B |]. split; [reflexivity |]. cbv zeta. right. right.
    exists name. rewrite <- (found_after_getSchema w w1 sch id B G).
    now split.
  - discriminate R.
Qed.

(** [confirmQuestion], when it returns.  If the container holds a
    record under the id, the record is stamped with the time read first
    and set to [success]; the rest of the record and [Object.prototype]
    are as before, and [lastModified] is the time read second.  A
    record that was confirmed before gets the new time.  If the
    container holds no record under the id, the id is a name that it
    inherits from [Object.prototype]: the call returns all the same,
    the records are as before, and for [__proto__] it is
    [Object.prototype] that has been given a [confirmedAt] and the
    [processingStatus] [success].  In both cases the other records, the
    order of the ids and the count are as before. *)
Theorem confirmQuestion_stamps_record (id : string) (w w' : World) :
  confirmQuestion env id w = (inr tt, w') ->
  (exists sch', item w' = Some sch')
  /\ (forall id', id' <> id -> lookup w' id' = lookup w id')
  /\ keys w' = keys w
  /\ count w' = count w
  /\ ((exists q sch',
          lookup w id = Some q
          /\ item w' = Some sch'
          /\ lookup w' id
             = Some (set_processingStatus success
                       (set_confirmedAt (Some (now env (clockReads w))) q))
          /\ lastModified (metadata sch') = now env (S (clockReads w))
          /\ prototype w' = prototype w)
      \/ (lookup w id = None
          /\ entries w' = entries w
          /\ ((found w id = Some (Js.Inherit Js.ObjectPrototype)
               /\ (exists t,
                      Js.get (prototype w') "confirmedAt"
                      = Some (Js.Time t))
               /\ Js.get (prototype w') "processingStatus"
                  = Some (Js.Text "success"))
              \/ (exists name,
                     found w id = Some (Js.Inherit (Js.Function name))
                     /\ prototype w' = prototype w)))).
Proof.
  intros R.
  destruct (confirmQuestion_returned id w w' R)
    as (sch & w1 & B & G & C). cbv zeta in C.
  destruct (getSchema_returned w w1 sch B G)
    as (Hq & Hc & Hi & Hu & Hp & _).
  assert (L : forall k, lookup w k = Js.get (questions sch) k)
    by (intros k; now rewrite lookup_entries, Hq).
  destruct C as [(q & Hget & -> & ->) | [(F & ->) | (name & F & ->)]].
  - split; [eexists; reflexivity |].
    unfold lookup at 1, keys at 1, count at 1. unfold entries at 1.
    cbn [item questions metadata totalQuestions set_lastModified].
    split; [intros id' Hne; rewrite L; now apply get_assign_other |].
    split; [unfold keys; rewrite <- Hq;
            apply keys_assign_present; congruence |].
    split; [exact Hc |]. left. exists q. eexists.
    rewrite L. split; [exact Hget |]. split; [reflexivity |].
    unfold lookup. cbn [item questions metadata lastModified set_lastModified
                          prototype].
    split; [apply get_assign_same |]. split; reflexivity.
  - split; [eexists; reflexivity |].
    unfold lookup at 1, keys at 1, count at 1. unfold entries at 1 2.
    cbn [item questions metadata totalQuestions set_lastModified
           set_metadata].
    split; [intros id' _; now rewrite L |].
    split; [unfold keys; now rewrite <- Hq |].
    split; [exact Hc |]. right.
    split; [now apply found_inherited in F |].
    split; [now rewrite Hq |]. left.
    split; [exact F |]. cbn [prototype]. split.
    + exists (now env (clockReads w1)).
      rewrite get_assign_other by discriminate. apply get_assign_same.
    + apply get_assign_same.
  - split; [eexists; reflexivity |].
    unfold lookup at 1, keys at 1, count at 1. unfold entries at 1 2.
    cbn [item questions metadata totalQuestions set_lastModified
           set_metadata].
    split; [intros id' _; now rewrite L |].
    split; [unfold keys; now rewrite <- Hq |].
    split; [exact Hc |]. right.
    split; [now apply found_inherited in F |].
    split; [now rewrite Hq |]. right.
    exists name. split; [exact F | exact Hp].
Qed.

(** What a returning [updateExtraction] has found and left. *)
Lemma updateExtraction_returned (id : string) r (w w' : World) :
  updateExtraction env id r w = (inr tt, w') ->
  exists sch w1,
    inBrowser env = true
    /\ getSchema env w = (inr sch, w1)
    /\ let t := now env (clockReads w1) in
       let touched := set_metadata (set_lastModified t (metadata sch)) sch in
       let left s p :=
         mkWorld (Some s) (Some CURRENT_VERSION) p (S (clockReads w1))
           (uuidDraws w1) in
       (exists q,
           Js.get (questions sch) id = Some q
           /\ w1 = w
           /\ w' = left (mkSchema (version sch)
                           (Js.assign (questions sch) id (updated r q))
                           (set_lastModified t (metadata sch)))
                     (prototype w1))
       \/ (found w id = Some (Js.Inherit Js.ObjectPrototype)
           /\ w' = left touched
                     (Js.assign
                        (Js.assign
                           (Js.assign
                              (Js.assign
                                 (Js.assign (prototype w1) "extractedText"
                                    (Js.Text (ai.questionText r)))
                                 "confidence" (Js.Number (ai.confidence r)))
                              "noiseFiltered"
                              (Js.Boolean (ai.noiseFiltered r)))
                           "errorMessage" (textOrNull (ai.errorMessage r)))
                        "processingStatus"
                        (Js.Text (statusName (statusOf r)))))
       \/ (exists name,
              found w id = Some (Js.Inherit (Js.Function name))
              /\ w' = left touched (prototype w1)).
Proof.
  intros R.
  destruct (getSchema env w) as [[e | sch] w1] eqn:G.
  { destruct (exec_getSchema_threw env (UpdateExtraction id r) w w1 e G)
      as [_ T].
    cbn [thrownBy] in T. rewrite R in T. discriminate T. }
  rewrite (updateExtraction_run env id r w w1 sch G) in R. cbv zeta in R.
  destruct (Js.index (prototype w1) (questions sch) id)
    as [[q | [p | | name]] |] eqn:I.
  - apply saveSchema_returned in R as [B ->]. exists sch, w1.
    split; [exact B |]. split; [reflexivity |]. cbv zeta. left.
    apply index_Own in I.
    destruct (own_needs_container w w1 sch id q B G I) as [_ ->].
    exists q. auto.
  - destruct (Js.truthyPrimitive p); discriminate R.
  - apply saveSchema_returned in R as [B ->]. exists sch, w1.
    split; [exact B |]. split; [reflexivity |]. cbv zeta. right. left.
    rewrite <- (found_after_getSchema w w1 sch id B G). now split.
  - apply saveSchema_returned in R as [B ->]. exists sch, w1.
    split; [exact B |]. split; [reflexivity |]. cbv zeta. right. right.
    exists name. rewrite <- (found_after_getSchema w w1 sch id B G).
    now split.
  - discriminate R.
Qed.

(** [updateExtraction], when it returns.  If the container holds a
    record under the id, the text, the confidence, the noise flag and
    the error message of the record are replaced by the response's and
    the status is derived from the new error message; the id, the
    image, the size, the format, both time stamps, the grade level and
    the subject of the record are as before (the response's education
    level is not taken over), and so is [Object.prototype].  If the
    container holds no record under the id, the id is a name that it
    inherits from [Object.prototype]: the call returns all the same,
    the records are as before, and for [__proto__] it is
    [Object.prototype] that has been given the five fields, which every
    plain object inherits from then on.  In both cases the other
    records, the order of the ids and the count are as before. *)
Theorem updateExtraction_replaces_extraction (id : string)
  (r : ai.AIExtractionResponse) (w w' : World) :
  updateExtraction env id r w = (inr tt, w') ->
  (exists sch', item w' = Some sch')
  /\ (forall id', id' <> id -> lookup w' id' = lookup w id')
  /\ keys w' = keys w
  /\ count w' = count w
  /\ ((exists q q',
          lookup w id = Some q
          /\ lookup w' id = Some q'
          /\ (extractedText q' = ai.questionText r
              /\ confidence q' = ai.confidence r
              /\ noiseFiltered q' = ai.noiseFiltered r
              /\ errorMessage q' = ai.errorMessage r
              /\ processingStatus q'
                 = if Js.truthy (ai.errorMessage r) then failed else pending)
          /\ (question.id q' = question.id q
              /\ imageBase64 q' = imageBase64 q
              /\ fileSize q' = fileSize q
              /\ fileFormat q' = fileFormat q
              /\ uploadTimestamp q' = uploadTimestamp q
              /\ confirmedAt q' = confirmedAt q
              /\ gradeLevel q' = gradeLevel q
              /\ subject q' = subject q)
          /\ prototype w' = prototype w)
      \/ (lookup w id = None
          /\ entries w' = entries w
          /\ ((found w id = Some (Js.Inherit Js.ObjectPrototype)
               /\ Js.get (prototype w') "extractedText"
                  = Some (Js.Text (ai.questionText r))
               /\ Js.get (prototype w') "confidence"
                  = Some (Js.Number (ai.confidence r))
               /\ Js.get (prototype w') "noiseFiltered"
                  = Some (Js.Boolean (ai.noiseFiltered r))
               /\ Js.get (prototype w') "errorMessage"
                  = Some (textOrNull (ai.errorMessage r))
               /\ Js.get (prototype w') "processingStatus"
                  = Some (Js.Text (statusName (statusOf r))))
              \/ (exists name,
                     found w id = Some (Js.Inherit (Js.Function name))
                     /\ prototype w' = prototype w)))).
Proof.
  intros R.
  destruct (updateExtraction_returned id r w w' R)
    as (sch & w1 & B & G & C). cbv zeta in C.
  destruct (getSchema_returned w w1 sch B G)
    as (Hq & Hc & Hi & Hu & Hp & _).
  assert (L : forall k, lookup w k = Js.get (questions sch) k)
    by (intros k; now rewrite lookup_entries, Hq).
  destruct C as [(q & Hget & -> & ->) | [(F & ->) | (name & F & ->)]].
  - split; [eexists; reflexivity |].
    unfold lookup at 1, keys at 1, count at 1. unfold entries at 1.
    cbn [item questions metadata totalQuestions set_lastModified].
    split; [intros id' Hne; rewrite L; now apply get_assign_other |].
    split; [unfold keys; rewrite <- Hq;
            apply keys_assign_present; congruence |].
    split; [exact Hc |]. left. exists q, (updated r q).
    rewrite L. split; [exact Hget |].
    unfold lookup. cbn [item questions prototype].
    split; [apply get_assign_same |].
    split; [repeat split |]. split; [repeat split | reflexivity].
  - split; [eexists; reflexivity |].
    unfold lookup at 1, keys at 1, count at 1. unfold entries at 1 2.
    cbn [item questions metadata totalQuestions set_lastModified
           set_metadata].
    split; [intros id' _; now rewrite L |].
    split; [unfold keys; now rewrite <- Hq |].
    split; [exact Hc |]. right.
    split; [now apply found_inherited in F |].
    split; [now rewrite Hq |]. left.
    split; [exact F |]. cbn [prototype].
    repeat split;
      repeat (first [ apply get_assign_same
                    | rewrite get_assign_other by discriminate ]).
  - split; [eexists; reflexivity |].
    unfold lookup at 1, keys at 1, count at 1. unfold entries at 1 2.
    cbn [item questions metadata totalQuestions set_lastModified
           set_metadata].
    split; [intros id' _; now rewrite L |].
    split; [unfold keys; now rewrite <- Hq |].
    split; [exact Hc |]. right.
    split; [now apply found_inherited in F |].
    split; [now rewrite Hq |]. right.
    exists name. split; [exact F | exact Hp].
Qed.

(** What a returning [deleteQuestion] has found and left. *)
Lemma deleteQuestion_returned (id : string) (w w' : World) :
  deleteQuestion env id w = (inr tt, w') ->
  exists sch w1,
    inBrowser env = true
    /\ getSchema env w = (inr sch, w1)
    /\ Js.truthyMember (found w id) = true
    /\ w' = mkWorld
              (Some (mkSchema (version sch) (Js.delete (questions sch) id)
                       (mkMetadata (createdAt (metadata sch))
                          (now env (clockReads w1))
                          (totalQuestions (metadata sch) - 1))))
              (Some CURRENT_VERSION) (prototype w1) (S (clockReads w1))
              (uuidDraws w1).
Proof.
  intros R.
  destruct (getSchema env w) as [[e | sch] w1] eqn:G.
  { destruct (exec_getSchema_threw env (Delete id) w w1 e G) as [_ T].
    cbn [thrownBy] in T. rewrite R in T. discriminate T. }
  rewrite (deleteQuestion_run env id w w1 sch G) in R.
  destruct (Js.truthyMember _) eqn:T; [| discriminate R].
  apply saveSchema_returned in R as [B ->]. exists sch, w1.
  rewrite (found_after_getSchema w w1 sch id B G) in T. auto.
Qed.

(** [deleteQuestion], when it returns, has left no record under the
    id, the other records as they were, and the count one less.  It
    returns also for an id under which the container holds no record
    but inherits something, a name of [Object.prototype]: then no
    record is removed and the count is lowered all the same. *)
Theorem deleteQuestion_removes_record (id : string) (w w' : World) :
  deleteQuestion env id w = (inr tt, w') ->
  Js.truthyMember (found w id) = true
  /\ lookup w' id = None
  /\ (forall id', id' <> id -> lookup w' id' = lookup w id')
  /\ (forall q, In q (records w') -> In q (records w))
  /\ count w' = count w - 1
  /\ prototype w' = prototype w
  /\ (lookup w id = None ->
      (exists i, found w id = Some (Js.Inherit i))
      /\ records w' = records w).
Proof.
  intros R.
  destruct (deleteQuestion_returned id w w' R)
    as (sch & w1 & B & G & T & ->).
  destruct (getSchema_returned w w1 sch B G)
    as (Hq & Hc & Hi & Hu & Hp & _).
  assert (L : forall k, lookup w k = Js.get (questions sch) k)
    by (intros k; now rewrite lookup_entries, Hq).
  split; [exact T |].
  unfold lookup at 1 2, records at 1 3, count at 1.
  cbn [item questions metadata totalQuestions prototype].
  split; [apply get_delete_same |].
  split; [intros id' Hne; rewrite L; now apply get_delete_other |].
  split.
  { intros q0. rewrite (records_entries w), <- Hq.
    unfold Js.values. rewrite !in_map_iff.
    intros (kv & E & Hin). exists kv. split; [exact E |].
    now apply In_delete in Hin. }
  split; [now rewrite Hc |]. split; [exact Hp |].
  intros Hn. split.
  - unfold found in *. rewrite lookup_entries in Hn.
    unfold Js.index in *. rewrite Hn in *.
    destruct (Js.get (prototype w) id); [eauto |].
    destruct (String.eqb id "__proto__"); [eauto |].
    destruct (existsb _ _); [eauto | discriminate T].
  - rewrite L in Hn. rewrite (delete_absent _ _ Hn).
    now rewrite (records_entries w), <- Hq.
Qed.

Lemma createQuestion_returned i s f r (w w' : World) (id : string) :
  createQuestion env i s f r w = (inr id, w') ->
  exists sch w1,
    inBrowser env = true
    /\ getSchema env w = (inr sch, w1)
    /\ id = randomUUID env (uuidDraws w)
    /\ w' = mkWorld
              (Some (mkSchema (version sch)
                       (Js.assign (questions sch) id
                          (created id i s f r (now env (clockReads w1))))
                       (mkMetadata (createdAt (metadata sch))
                          (now env (clockReads w1))
                          (totalQuestions (metadata sch) + 1))))
              (Some CURRENT_VERSION) (prototype w1)
              (S (clockReads w1)) (S (uuidDraws w)).
Proof.
  intros R.
  destruct (getSchema env w) as [[e | sch] w1] eqn:G.
  { destruct (exec_getSchema_threw env (Create i s f r) w w1 e G)
      as [_ T].
    cbn [thrownBy] in T. rewrite R in T. discriminate T. }
  destruct (getSchema_keeps w) as (_ & _ & Hu & _). rewrite G in Hu.
  cbn [snd] in Hu.
  rewrite (createQuestion_run env i s f r w w1 sch G) in R. cbv zeta in R.
  match type of R with
  | context [saveSchema env ?s' ?wk] =>
      destruct (saveSchema env s' wk) as [[e | []] w2] eqn:S;
      [discriminate R |]
  end.
  apply saveSchema_returned in S as [B ->].
  injection R as <- <-. exists sch, w1.
  cbn [prototype clockReads uuidDraws]. rewrite Hu. auto.
Qed.

(** [createQuestion], when it returns, has added one to the count, set
    [lastModified] to the record's [uploadTimestamp] and drawn one id;
    the records under other ids are as before.  The record goes last
    when its id is new; if the id drawn is already in use, the record
    stored under it is replaced in place, and the count is raised all
    the same. *)
Theorem createQuestion_adds_record i s f r (w w' : World) (id : string) :
  createQuestion env i s f r w = (inr id, w') ->
  exists q sch',
    item w' = Some sch'
    /\ lookup w' id = Some q
    /\ lastModified (metadata sch') = uploadTimestamp q
    /\ count w' = count w + 1
    /\ uuidDraws w' = S (uuidDraws w)
    /\ (forall id', id' <> id -> lookup w' id' = lookup w id')
    /\ (lookup w id = None -> records w' = (records w ++ [q])%list)
    /\ (lookup w id <> None -> keys w' = keys w).
Proof.
  intros R.
  destruct (createQuestion_returned i s f r w w' id R)
    as (sch & w1 & B & G & Hid & ->).
  destruct (getSchema_returned w w1 sch B G) as (Hq & Hc & _ & _ & _).
  exists (created id i s f r (now env (clockReads w1))). eexists.
  split; [reflexivity |].
  unfold lookup at 1 2. unfold records at 1. unfold keys at 1.
  unfold entries at 1. unfold count at 1.
  cbn [item questions metadata lastModified totalQuestions uuidDraws].
  rewrite !lookup_entries, records_entries, <- Hq, Hc.
  split; [apply get_assign_same |]. split; [reflexivity |].
  split; [reflexivity |]. split; [reflexivity |].
  split; [intros id' Hne; rewrite lookup_entries, <- Hq;
          now apply get_assign_other |].
  split.
  - intros Hn. rewrite (assign_absent _ _ _ Hn).
    unfold Js.values. now rewrite map_app.
  - intros Hp. unfold keys. rewrite <- Hq. now apply keys_assign_present.
Qed.

Lemma clearAllQuestions_returned (w w' : World) :
  clearAllQuestions env w = (inr tt, w') ->
  exists sch w1,
    inBrowser env = true
    /\ getSchema env w = (inr sch, w1)
    /\ w' = mkWorld
              (Some (mkSchema (version sch) []
                       (mkMetadata (createdAt (metadata sch))
                          (now env (clockReads w1)) 0)))
              (Some CURRENT_VERSION) (prototype w1)
              (S (clockReads w1)) (uuidDraws w1).
Proof.
  intros R.
  destruct (getSchema env w) as [[e | sch] w1] eqn:G.
  { destruct (exec_getSchema_threw env ClearAll w w1 e G) as [_ T].
    cbn [thrownBy] in T. rewrite R in T. discriminate T. }
  rewrite (clearAllQuestions_run env w w1 sch G) in R.
  apply saveSchema_returned in R as [B ->]. exists sch, w1. auto.
Qed.

(** [clearAllQuestions], when it returns, has left a container without
    records and with count 0, which [getAllQuestions] then reads as the
    empty list; the version and the creation time of a container that
    was there are kept. *)
Theorem clearAllQuestions_empties_container (w w' : World) :
  clearAllQuestions env w = (inr tt, w') ->
  records w' = []
  /\ count w' = 0
  /\ getAllQuestions env w' = (inr [], w')
  /\ (forall sch, item w = Some sch ->
        exists sch', item w' = Some sch'
                     /\ version sch' = version sch
                     /\ createdAt (metadata sch')
                        = createdAt (metadata sch)).
Proof.
  intros R.
  destruct (clearAllQuestions_returned w w' R) as (sch & w1 & B & G & ->).
  split; [reflexivity |]. split; [reflexivity |]. split.
  - unfold getAllQuestions. rewrite bind_run.
    erewrite (getSchema_existing env); [| exact B | reflexivity].
    reflexivity.
  - intros s0 H.
    destruct (getSchema_returned w w1 sch B G)
      as (_ & _ & _ & _ & _ & Hs & _).
    destruct (Hs s0 H) as [-> _]. eexists. split; [reflexivity |].
    split; reflexivity.
Qed.

(** *** How operations fail *)

(** An operation, once [getSchema] has returned: it refuses what it
    found under the id and saves nothing, or it ends as its one call of
    [saveSchema] ends. *)
Lemma exec_shape (op : Op) (w w1 : World) (sch : LocalStorageSchema) :
  getSchema env w = (inr sch, w1) ->
  match refusal env op
          (Js.index (prototype w1) (questions sch) (target op)) with
  | Some e =>
      thrownBy env op w = Some e
      /\ item (exec env op w) = item w1
      /\ versionItem (exec env op w) = versionItem w1
  | None =>
      exists s wk,
        item wk = item w1
        /\ versionItem wk = versionItem w1
        /\ exec env op w = snd (saveSchema env s wk)
        /\ thrownBy env op w = thrown (saveSchema env s wk)
  end.
Proof.
  intros G.
  destruct op as [i s f r | id | id r | id | ];
    cbn [refusal target exec thrownBy].
  - rewrite (createQuestion_run env i s f r w w1 sch G). cbv zeta.
    match goal with
    | |- context [saveSchema env ?s' ?wk] =>
        exists s', wk; destruct (saveSchema env s' wk) as [[e | u] w2]
    end; repeat split.
  - rewrite (confirmQuestion_run env id w w1 sch G). cbv zeta.
    destruct (Js.index (prototype w1) (questions sch) id)
      as [[q | [p | | name]] |].
    + match goal with
      | |- context [saveSchema env ?s' ?wk] => exists s', wk
      end; repeat split; reflexivity.
    + destruct (Js.truthyPrimitive p); repeat split; reflexivity.
    + match goal with
      | |- context [saveSchema env ?s' ?wk] => exists s', wk
      end; repeat split; reflexivity.
    + match goal with
      | |- context [saveSchema env ?s' ?wk] => exists s', wk
      end; repeat split; reflexivity.
    + repeat split; reflexivity.
  - rewrite (updateExtraction_run env id r w w1 sch G). cbv zeta.
    destruct (Js.index (prototype w1) (questions sch) id)
      as [[q | [p | | name]] |].
    + match goal with
      | |- context [saveSchema env ?s' ?wk] => exists s', wk
      end; repeat split; reflexivity.
    + destruct (Js.truthyPrimitive p); repeat split; reflexivity.
    + match goal with
      | |- context [saveSchema env ?s' ?wk] => exists s', wk
      end; repeat split; reflexivity.
    + match goal with
      | |- context [saveSchema env ?s' ?wk] => exists s', wk
      end; repeat split; reflexivity.
    + repeat split; reflexivity.
  - rewrite (deleteQuestion_run env id w w1 sch G).
    destruct (Js.truthyMember _); [| repeat split; reflexivity].
    match goal with
    | |- context [saveSchema env ?s' ?wk] => exists s', wk
    end; repeat split; reflexivity.
  - rewrite (clearAllQuestions_run env w w1 sch G).
    match goal with
    | |- context [saveSchema env ?s' ?wk] => exists s', wk
    end; repeat split; reflexivity.
Qed.

(** An operation that has thrown has changed neither the records nor
    the count, with one exception: in a browser, where a container is
    stored but the version item does not hold the current version,
    [saveSchema] can have written the container and failed on the
    version item. *)
Lemma exec_thrown_keeps (op : Op) (w : World) (e : Thrown) :
  thrownBy env op w = Some e ->
  (entries (exec env op w) = entries w
   /\ count (exec env op w) = count w)
  \/ (inBrowser env = true
      /\ e = storageFull
      /\ item w <> None
      /\ versionItem w <> Some CURRENT_VERSION).
Proof.
  intros T.
  destruct (getSchema_keeps w) as (He & Hc & _ & _).
  destruct (getSchema env w) as [[e0 | sch] w1] eqn:G; cbn [snd] in *.
  { destruct (exec_getSchema_threw env op w w1 e0 G) as [-> _]. now left. }
  assert (Same : forall wk : World,
             item wk = item w1 ->
             entries wk = entries w /\ count wk = count w).
  { intros wk Hi. rewrite <- He, <- Hc. unfold entries, count.
    now rewrite Hi. }
  pose proof (exec_shape op w w1 sch G) as S.
  destruct (refusal env op _) as [e' |].
  - destruct S as (_ & Hi & _). left. now apply Same.
  - destruct S as (s & wk & Hi & Hv & -> & Tk). rewrite Tk in T.
    destruct (saveSchema env s wk) as [[e1 | u] w2] eqn:Sv;
      [| discriminate T].
    apply thrown_Some in T. injection T as ->. cbn [snd].
    destruct (inBrowser env) eqn:B.
    + destruct (saveSchema_threw s wk w2 e B Sv) as [-> [-> | [Hn ->]]];
        [left; now apply Same |].
      right. split; [reflexivity |]. split; [reflexivity |].
      destruct (getSchema_returned w w1 sch B G)
        as (_ & _ & _ & _ & _ & Hs & Hnone).
      destruct (item w) as [s0 |] eqn:H.
      * destruct (Hs s0 eq_refl) as [_ ->]. split; [discriminate |].
        now rewrite <- Hv.
      * exfalso. apply Hn. rewrite Hv. now apply Hnone.
    + rewrite (saveSchema_outside env s wk B) in Sv.
      injection Sv as _ <-. left. now apply Same.
Qed.

(** An operation that throws, for whatever reason (an id that is not
    there, a primitive value under the id, storage that is full, no
    browser), has changed neither the stored records nor the count,
    provided that the version item holds the current version, as it
    does once a write of the store has succeeded, or that nothing was
    stored, or that the error is not that of the full storage. *)
Theorem thrown_operation_keeps_store (op : Op) (w : World) (e : Thrown) :
  thrownBy env op w = Some e ->
  versionItem w = Some CURRENT_VERSION
  \/ item w = None
  \/ e <> storageFull ->
  entries (exec env op w) = entries w
  /\ count (exec env op w) = count w.
Proof.
  intros T H.
  destruct (exec_thrown_keeps op w e T) as [K | (_ & He & Hi & Hv)];
    [exact K |].
  exfalso. destruct H as [H | [H | H]]; auto.
Qed.

(** In a browser an operation throws one of four errors: the one with
    which it refuses what it found under the id, [Question not found]
    for nothing or something falsy and a [TypeError] for a primitive
    value it is to assign to; [Storage is full] when the new container
    or the version item finds no room; and, where there was no
    container, the quota error of [initializeStorage], not wrapped,
    when the empty container or the version item finds no room.  So
    with room for every container, the only failures are the refusals,
    and an operation that has nothing to refuse returns. *)
Theorem store_failures (op : Op) (w : World) :
  inBrowser env = true ->
  (forall e, thrownBy env op w = Some e ->
     e = storageFull
     \/ (e = quotaExceeded /\ item w = None)
     \/ refusal env op (found w (target op)) = Some e)
  /\ ((forall sch, hasRoom env sch = true) ->
      thrownBy env op w = refusal env op (found w (target op))).
Proof.
  intros B.
  destruct (getSchema env w) as [[e0 | sch] w1] eqn:G.
  - destruct (getSchema_threw w w1 e0 B G) as (-> & Hn & _).
    destruct (exec_getSchema_threw env op w w1 _ G) as [_ T].
    split.
    + intros e Te. rewrite T in Te. injection Te as <-. auto.
    + intros Room. exfalso.
      rewrite (getSchema_absent env w B Hn) in G.
      rewrite (room_containerFits env _ _ Room),
        (room_versionFits env _ Room) in G.
      discriminate G.
  - pose proof (exec_shape op w w1 sch G) as S.
    rewrite (found_after_getSchema w w1 sch (target op) B G) in S.
    destruct (refusal env op (found w (target op))) as [e' |].
    + destruct S as (T & _). split.
      * intros e Te. rewrite T in Te. injection Te as <-. auto.
      * intros _. exact T.
    + destruct S as (s & wk & _ & _ & _ & T). rewrite T. split.
      * intros e Te.
        destruct (saveSchema env s wk) as [[e1 | u] w2] eqn:Sv;
          [| discriminate Te].
        apply thrown_Some in Te. injection Te as ->.
        destruct (saveSchema_threw s wk w2 e B Sv) as [-> _]. now left.
      * intros Room. rewrite (saveSchema_inside env s wk B).
        now rewrite (room_containerFits env _ _ Room),
          (room_versionFits env _ Room).
Qed.

Lemma exec_outside (op : Op) (w : World) :
  inBrowser env = false ->
  item (exec env op w) = item w
  /\ versionItem (exec env op w) = versionItem w
  /\ thrownBy env op w
     = Some match refusal env op
                    (Js.index (prototype w) (@nil (string * Question))
                       (target op)) with
            | Some e => e
            | None => cannotSave
            end.
Proof.
  intros B.
  pose proof (getSchema_outside env w B) as G.
  pose proof (exec_shape op w _ _ G) as S.
  cbn [prototype item versionItem emptySchema questions] in S.
  destruct (refusal env op _) as [e' |].
  - destruct S as (T & Hi & Hv). auto.
  - destruct S as (s & wk & Hi & Hv & -> & ->).
    rewrite (saveSchema_outside env s wk B). cbn [snd]. auto.
Qed.

(** Once the version item holds the current version it keeps holding
    it through an operation that throws, and the records are as they
    were: the second write of [saveSchema] cannot fail then. *)
Lemma exec_thrown_versioned (op : Op) (w : World) (e : Thrown) :
  thrownBy env op w = Some e ->
  versionItem w = Some CURRENT_VERSION ->
  entries (exec env op w) = entries w
  /\ versionItem (exec env op w) = Some CURRENT_VERSION.
Proof.
  intros T V. split.
  { destruct (exec_thrown_keeps op w e T) as [[H _] | (_ & _ & _ & H)];
      [exact H | now contradiction H]. }
  destruct (inBrowser env) eqn:B.
  - assert (V1 : versionItem (snd (getSchema env w))
                 = Some CURRENT_VERSION).
    { destruct (getSchema_cases w B)
        as [(sch0 & _ & ->)
           | (_ & [(_ & _ & ->) | [(_ & _ & ->) | (_ & ->)]])];
        cbn [snd versionItem]; auto. }
    destruct (getSchema env w) as [[e0 | sch] w1] eqn:G; cbn [snd] in V1.
    + now destruct (exec_getSchema_threw env op w w1 e0 G) as [-> _].
    + pose proof (exec_shape op w w1 sch G) as S.
      destruct (refusal env op _) as [e' |].
      * destruct S as (_ & _ & ->). exact V1.
      * destruct S as (s & wk & _ & Hv & -> & Tk). rewrite Tk in T.
        destruct (saveSchema env s wk) as [[e1 | u] w2] eqn:Sv;
          [| discriminate T].
        cbn [snd]. rewrite <- Hv in V1.
        destruct (saveSchema_threw s wk w2 e1 B Sv) as [_ [-> | [Hn _]]];
          [exact V1 | now contradiction Hn].
  - destruct (exec_outside op w B) as (_ & -> & _). exact V.
Qed.

(** Outside a browser (server-side rendering) every read sees an empty
    container, whatever is stored: there is no record, and
    [getQuestionById] gives what an empty object inherits under the
    id, null for most.  Every operation throws, and the storage is as
    it was: an operation on an id throws its refusal of what the empty
    object has under the id, and everything else fails because nothing
    can be saved. *)
Theorem outside_browser_nothing_is_stored (w : World) :
  inBrowser env = false ->
  fst (getAllQuestions env w) = inr []
  /\ fst (getConfirmedQuestions env w) = inr []
  /\ (forall status, fst (getQuestionsByStatus env status w) = inr [])
  /\ (forall id,
        fst (getQuestionById env id w)
        = inr (Js.orNull (Js.index (prototype w) [] id))
        /\ forall q, fst (getQuestionById env id w)
                     <> inr (Some (Js.Own q)))
  /\ (forall op,
        item (exec env op w) = item w
        /\ versionItem (exec env op w) = versionItem w
        /\ thrownBy env op w
           = Some match refusal env op
                          (Js.index (prototype w) [] (target op)) with
                  | Some e => e
                  | None => cannotSave
                  end).
Proof.
  intros B.
  split; [unfold getAllQuestions;
          now rewrite bind_run, (getSchema_outside env w B) |].
  split; [unfold getConfirmedQuestions;
          now rewrite bind_run, (getSchema_outside env w B) |].
  split; [intros status; unfold getQuestionsByStatus;
          now rewrite bind_run, (getSchema_outside env w B) |].
  split.
  - intros id.
    assert (E : fst (getQuestionById env id w)
                = inr (Js.orNull (Js.index (prototype w) [] id))).
    { unfold getQuestionById.
      now rewrite bind_run, (getSchema_outside env w B). }
    split; [exact E |]. intros q. rewrite E. unfold Js.orNull, Js.index.
    cbn [Js.get].
    destruct (Js.get (prototype w) id);
      [destruct (Js.truthyMember _); discriminate |].
    destruct (String.eqb id "__proto__"); [discriminate |].
    destruct (existsb _ _); discriminate.
  - intros op. now apply exec_outside.
Qed.

(** *** Reads and the first access *)

(** A read is [getSchema] followed by a function of the schema and of
    what [Object.prototype] holds, which changes nothing. *)
Lemma read_repeatable {A} (f : LocalStorageSchema -> World -> A)
  (w w1 : World) (v : A) :
  inBrowser env = true ->
  bind (getSchema env) (fun s w0 => (inr (f s w0), w0)) w = (inr v, w1) ->
  bind (getSchema env) (fun s w0 => (inr (f s w0), w0)) w1 = (inr v, w1)
  /\ records w1 = records w
  /\ count w1 = count w
  /\ (item w <> None -> w1 = w).
Proof.
  intros B R. rewrite bind_run in R.
  destruct (getSchema env w) as [[e | sch] w0] eqn:G; [discriminate |].
  cbn in R. injection R as <- <-.
  destruct (getSchema_returned w w0 sch B G)
    as (Hq & Hc & Hi & _ & _ & Hs & _).
  split; [now rewrite bind_run, (getSchema_existing env w0 sch B Hi) |].
  split; [rewrite !records_entries; unfold entries at 1; now rewrite Hi, Hq |].
  split; [unfold count at 1; now rewrite Hi |].
  intros Hn. destruct (item w) as [s0 |] eqn:H; [| congruence].
  now destruct (Hs s0 eq_refl).
Qed.

(** In a browser the four reads can be repeated: a read that has
    returned returns the same again and changes nothing then; it never
    changes the records or the count, and it changes nothing at all
    where a container exists. *)
Theorem reads_are_repeatable (w : World) :
  inBrowser env = true ->
  (forall l w1,
      getAllQuestions env w = (inr l, w1) ->
      getAllQuestions env w1 = (inr l, w1)
      /\ records w1 = records w /\ count w1 = count w
      /\ (item w <> None -> w1 = w))
  /\ (forall id q w1,
        getQuestionById env id w = (inr q, w1) ->
        getQuestionById env id w1 = (inr q, w1)
        /\ records w1 = records w /\ count w1 = count w
        /\ (item w <> None -> w1 = w))
  /\ (forall status l w1,
        getQuestionsByStatus env status w = (inr l, w1) ->
        getQuestionsByStatus env status w1 = (inr l, w1)
        /\ records w1 = records w /\ count w1 = count w
        /\ (item w <> None -> w1 = w))
  /\ (forall l w1,
        getConfirmedQuestions env w = (inr l, w1) ->
        getConfirmedQuestions env w1 = (inr l, w1)
        /\ records w1 = records w /\ count w1 = count w
        /\ (item w <> None -> w1 = w)).
Proof.
  intros B. split; [| split; [| split]].
  - intros l w1.
    apply (read_repeatable (fun s _ => Js.values (questions s)) w w1 l B).
  - intros id q w1.
    apply (read_repeatable
             (fun s w0 =>
                Js.orNull (Js.index (prototype w0) (questions s) id))
             w w1 q B).
  - intros status l w1.
    apply (read_repeatable
             (fun s _ =>
                filter (fun q => statusEqb (processingStatus q) status)
                  (Js.values (questions s)))
             w w1 l B).
  - intros l w1.
    apply (read_repeatable
             (fun s _ =>
                Js.sort byConfirmationDesc
                  (filter isConfirmed (Js.values (questions s))))
             w w1 l B).
Qed.

(** The first access in a browser with nothing stored makes two
    writes: the empty container, stamped with the two times read, and
    then the version item.  If both find room, which they do when the
    storage has room, the access goes on with the empty container.  If
    the container finds none, the access fails with the storage's own
    quota error and nothing is stored; if only the version item finds
    none, it fails in the same way with the empty container stored. *)
Theorem first_access_creates_container (w : World) :
  inBrowser env = true ->
  item w = None ->
  let sch := {| version := "1.0.0";
                questions := [];
                metadata := {| createdAt := now env (clockReads w);
                               lastModified := now env (S (clockReads w));
                               totalQuestions := 0 |} |} in
  let after := fun i v =>
                 mkWorld i v (prototype w) (S (S (clockReads w)))
                   (uuidDraws w) in
  (containerFits env w sch = true ->
   versionFits env (after (Some sch) (versionItem w)) = true ->
   getAllQuestions env w
   = (inr [], after (Some sch) (Some CURRENT_VERSION))
   /\ initializeStorage env w
      = (inr sch, after (Some sch) (Some CURRENT_VERSION)))
  /\ (containerFits env w sch = true ->
      versionFits env (after (Some sch) (versionItem w)) = false ->
      getAllQuestions env w
      = (inl (DOMException "QuotaExceededError"),
         after (Some sch) (versionItem w)))
  /\ (containerFits env w sch = false ->
      getAllQuestions env w
      = (inl (DOMException "QuotaExceededError"),
         after None (versionItem w)))
  /\ (hasRoom env sch = true ->
      containerFits env w sch = true
      /\ versionFits env (after (Some sch) (versionItem w)) = true).
Proof.
  intros B H sch after.
  pose proof (getSchema_absent env w B H) as G. cbv zeta in G.
  fold (emptySchema (now env (clockReads w)) (now env (S (clockReads w))))
    in sch.
  fold sch in G.
  split; [| split; [| split]].
  - intros C V. unfold getAllQuestions. rewrite bind_run, G, C.
    unfold after in V. rewrite V. split; [reflexivity |].
    unfold getSchema in G. rewrite B in G. cbn [negb] in G.
    rewrite bind_run in G. unfold getItem at 1 in G. rewrite H in G.
    rewrite G, C, V. reflexivity.
  - intros C V. unfold getAllQuestions. rewrite bind_run, G, C.
    unfold after in V. now rewrite V.
  - intros C. unfold getAllQuestions. now rewrite bind_run, G, C.
  - intros Room. unfold containerFits, versionFits, after.
    cbn [item versionItem]. rewrite Room.
    destruct (versionItem w) as [v |]; [| now split].
    now destruct (String.eqb v CURRENT_VERSION).
Qed.

(** [initializeStorage] on a stored container checks its version: a
    container of version [1.0.0] is returned as it is, any other makes
    it throw; outside a browser it throws.  Nothing is changed in
    either case.  [getSchema], and so every read and write of the
    question store, does not check: it takes the stored container
    whatever its version. *)
Theorem version_is_checked_on_initialize_only (w : World)
  (sch : LocalStorageSchema) :
  item w = Some sch ->
  (inBrowser env = false ->
     initializeStorage env w
     = (inl (Error
          "Storage can only be initialized in browser environment"), w))
  /\ (inBrowser env = true ->
      (version sch = "1.0.0" -> initializeStorage env w = (inr sch, w))
      /\ (version sch <> "1.0.0" ->
          initializeStorage env w
          = (inl (Error ("Schema migration needed: " ++ version sch
                           ++ " → 1.0.0")), w))
      /\ getSchema env w = (inr sch, w)
      /\ getAllQuestions env w = (inr (Js.values (questions sch)), w)).
Proof.
  intros H. split.
  - intros B. unfold initializeStorage. now rewrite B.
  - intros B. unfold initializeStorage. rewrite B. cbn [negb].
    rewrite bind_run. unfold getItem. rewrite H.
    split; [| split; [| split]].
    + intros V. rewrite V. reflexivity.
    + intros V. apply String.eqb_neq in V. unfold CURRENT_VERSION.
      now rewrite V.
    + now apply getSchema_existing.
    + unfold getAllQuestions.
      now rewrite bind_run, (getSchema_existing env w sch B H).
Qed.

(** *** Invariants of the container *)

Lemma run_app_step (ops : list Op) (op : Op) (w : World) :
  run env (ops ++ [op])%list w = exec env op (run env ops w).
Proof. unfold run. now rewrite fold_left_app. Qed.

(** After any sequence of operations on a store that had no container,
    no id is stored twice and every record is stored under its own
    [id]. *)
Theorem ids_are_unique_keys (ops : list Op) (w : World) :
  item w = None ->
  NoDup (keys (run env ops w))
  /\ (forall k q, In (k, q) (entries (run env ops w)) -> question.id q = k).
Proof.
  intros H.
  assert (I0 : NoDup (keys w)
               /\ forall k q, In (k, q) (entries w) -> question.id q = k).
  { unfold keys, entries. rewrite H. split; [constructor | intros k q []]. }
  clear H. revert w I0.
  induction ops as [| op ops IH]; intros w I0; [exact I0 |].
  cbn [run fold_left]. apply IH. destruct I0 as [Hnd Hid].
  pose proof (exec_effect env op w) as E. unfold keys.
  remember (entries (exec env op w)) as o' eqn:Ho'. clear Ho'.
  destruct E as [ | i s f r k t | k q t Hget | k r q Hget | k | ].
  - now split.
  - split; [now apply NoDup_keys_assign |].
    intros k' q' Hin. apply In_assign in Hin as [Hin | Hin].
    + now apply Hid.
    + now injection Hin as -> ->.
  - split; [now apply NoDup_keys_assign |].
    intros k' q' Hin. apply In_assign in Hin as [Hin | Hin].
    + now apply Hid.
    + injection Hin as -> ->. cbn. apply Hid. now apply get_keys_In.
  - split; [now apply NoDup_keys_assign |].
    intros k' q' Hin. apply In_assign in Hin as [Hin | Hin].
    + now apply Hid.
    + injection Hin as -> ->. cbn. apply Hid. now apply get_keys_In.
  - split; [now apply NoDup_keys_delete |].
    intros k' q' Hin. apply In_delete in Hin. now apply Hid.
  - split; [constructor | intros k' q' []].
Qed.


(** Ids are only ever drawn, never given back. *)
Lemma uuidDraws_exec (op : Op) (w : World) :
  (uuidDraws w <= uuidDraws (exec env op w))%nat.
Proof.
  pose proof (exec_change op w) as C.
  remember (exec env op w) as w' eqn:Ew. clear Ew.
  destruct C; lia.
Qed.

(** The ids of the records stored are ids that were drawn. *)
Lemma exec_keys_drawn (op : Op) (w : World) :
  (forall k, In k (keys w) ->
             exists j, (j < uuidDraws w)%nat /\ k = randomUUID env j) ->
  forall k, In k (keys (exec env op w)) ->
            exists j, (j < uuidDraws (exec env op w))%nat
                      /\ k = randomUUID env j.
Proof.
  intros I0.
  assert (Old : forall k, In k (keys w) ->
                          exists j, (j < uuidDraws (exec env op w))%nat
                                    /\ k = randomUUID env j).
  { pose proof (uuidDraws_exec op w) as Hu.
    intros k Hk. destruct (I0 k Hk) as (j & Hj & ->). exists j.
    split; [lia | reflexivity]. }
  unfold keys in *.
  pose proof (exec_change op w) as C.
  remember (exec env op w) as w' eqn:Ew. clear Ew.
  destruct C
    as [op He _ _ | i s f r t He _ Hd | id q Hg He _ _
       | id r q Hg He _ _ | id _ He _ _ | He _ _]; rewrite He.
  - exact Old.
  - intros k Hk. apply in_map_iff in Hk as ([k' q] & <- & Hin).
    apply In_assign in Hin as [Hin | Hin].
    + apply Old. apply in_map_iff. now exists (k', q).
    + injection Hin as -> _. exists (uuidDraws w). rewrite Hd.
      split; [lia | reflexivity].
  - rewrite keys_assign_present by congruence. exact Old.
  - rewrite keys_assign_present by congruence. exact Old.
  - intros k' Hk'. rewrite keys_delete in Hk'.
    apply filter_In in Hk' as [Hk' _]. now apply Old.
  - intros k [].
Qed.


(** The count of the metadata against the records stored. *)
Lemma run_count_records (ops : list Op) (w : World) :
  (forall j k, randomUUID env j = randomUUID env k -> j = k) ->
  item w = None ->
  deletesOnlyRecords env ops w = true ->
  count (run env ops w) = Z.of_nat (List.length (records (run env ops w))).
Proof.
  intros Inj H.
  set (I := fun w : World =>
              count w = Z.of_nat (List.length (entries w))
              /\ NoDup (keys w)
              /\ forall k, In k (keys w) ->
                           exists j, (j < uuidDraws w)%nat
                                     /\ k = randomUUID env j).
  assert (I0 : I w).
  { unfold I, count, keys, entries. rewrite H. cbn.
    split; [reflexivity |]. split; [constructor | intros k []]. }
  assert (Step : forall op w,
             I w ->
             (forall id, op = Delete id ->
                         Js.truthyMember (found w id) = true ->
                         lookup w id <> None) ->
             I (exec env op w)).
  { clear w H I0. intros op w (Hc & Hnd & Hdr) Hdel.
    split; [| split; [| now apply exec_keys_drawn]].
    - unfold keys in *.
      pose proof (exec_change op w) as C.
      remember (exec env op w) as w' eqn:Ew. clear Ew.
      destruct C
        as [op He Hn _ | i s f r t He Hn Hd | id q Hg He Hn _
           | id r q Hg He Hn _ | id T He Hn _ | He Hn _];
        rewrite He, Hn.
      + exact Hc.
      + assert (Hfresh : Js.get (entries w) (randomUUID env (uuidDraws w))
                         = None).
        { apply get_None_keys. intros Hin.
          destruct (Hdr _ Hin) as (j & Hj & E). apply Inj in E. lia. }
        rewrite (assign_absent _ _ _ Hfresh), length_app. cbn. lia.
      + rewrite length_assign_present by congruence. exact Hc.
      + rewrite length_assign_present by congruence. exact Hc.
      + pose proof (Hdel id eq_refl T) as Hl. rewrite lookup_entries in Hl.
        pose proof (length_delete_present (entries w) id Hnd Hl) as L.
        lia.
      + cbn. reflexivity.
    - unfold keys in *.
      pose proof (exec_change op w) as C.
      remember (exec env op w) as w' eqn:Ew. clear Ew.
      destruct C
        as [op He Hn _ | i s f r t He Hn Hd | id q Hg He Hn _
           | id r q Hg He Hn _ | id T He Hn _ | He Hn _];
        rewrite He.
      + exact Hnd.
      + now apply NoDup_keys_assign.
      + now apply NoDup_keys_assign.
      + now apply NoDup_keys_assign.
      + now apply NoDup_keys_delete.
      + constructor. }
  intros D.
  assert (Run : I (run env ops w)).
  { clear H. revert w I0 D. induction ops as [| op ops IH]; intros w I0 D.
    - exact I0.
    - cbn [run fold_left]. cbn [deletesOnlyRecords] in D.
      apply andb_true_iff in D as [D1 D2].
      apply IH; [| exact D2]. apply Step; [exact I0 |].
      intros id -> T. destruct (lookup w id); [discriminate |].
      rewrite T in D1. discriminate D1. }
  destruct Run as [Hc _]. rewrite records_entries. unfold Js.values.
  now rewrite length_map.
Qed.

(** As long as [crypto.randomUUID] never gives the same id twice and
    [deleteQuestion] is not applied to a name that the container only
    inherits, the count kept in the metadata is the number of records
    stored, after any sequence of operations on a store that had no
    container.  (A [deleteQuestion] on such a name, [constructor] for
    one, removes nothing and lowers the count.) *)
Theorem count_is_number_of_records (ops : list Op) (w : World) :
  (forall j k, randomUUID env j = randomUUID env k -> j = k) ->
  item w = None ->
  deletesOnlyRecords env ops w = true ->
  count (run env ops w) = Z.of_nat (List.length (records (run env ops w))).
Proof. exact (run_count_records ops w). Qed.

(** No operation takes a confirmation back or touches what identifies a
    record: a stored record is still there after an operation unless it
    was deleted or all were cleared, with its id, image, size, format,
    upload time, grade level and subject as before, and confirmed if it
    was confirmed.  (Only a [createQuestion] that draws the id of the
    record anew would replace it.) *)
Theorem stored_record_persists (op : Op) (w : World) (id : string)
  (q : Question) :
  lookup w id = Some q ->
  (forall i s f r, op = Create i s f r ->
                   randomUUID env (uuidDraws w) <> id) ->
  match lookup (exec env op w) id with
  | None => op = Delete id \/ op = ClearAll
  | Some q' =>
      question.id q' = question.id q
      /\ imageBase64 q' = imageBase64 q
      /\ fileSize q' = fileSize q
      /\ fileFormat q' = fileFormat q
      /\ uploadTimestamp q' = uploadTimestamp q
      /\ gradeLevel q' = gradeLevel q
      /\ subject q' = subject q
      /\ (confirmedAt q <> None -> confirmedAt q' <> None)
  end.
Proof.
  intros Hl Hfresh. rewrite lookup_entries in Hl. rewrite lookup_entries.
  pose proof (exec_change op w) as C.
  remember (exec env op w) as w' eqn:Ew. clear Ew.
  destruct C
    as [op He _ _ | i s f r t He _ _ | k q0 Hg He _ _
       | k r q0 Hg He _ _ | k _ He _ _ | He _ _]; rewrite He.
  - rewrite Hl. repeat split; auto.
  - rewrite get_assign_other
      by (intros E; apply (Hfresh i s f r eq_refl); congruence).
    rewrite Hl. repeat split; auto.
  - destruct (String.eqb id k) eqn:E.
    + apply String.eqb_eq in E. subst k. rewrite get_assign_same.
      assert (q0 = q) by congruence. subst q0. cbn.
      repeat split; auto. discriminate.
    + apply String.eqb_neq in E. rewrite get_assign_other by exact E.
      rewrite Hl. repeat split; auto.
  - destruct (String.eqb id k) eqn:E.
    + apply String.eqb_eq in E. subst k. rewrite get_assign_same.
      assert (q0 = q) by congruence. subst q0. cbn.
      repeat split; auto.
    + apply String.eqb_neq in E. rewrite get_assign_other by exact E.
      rewrite Hl. repeat split; auto.
  - destruct (String.eqb id k) eqn:E.
    + apply String.eqb_eq in E. subst k. rewrite get_delete_same.
      now left.
    + apply String.eqb_neq in E. rewrite get_delete_other by exact E.
      rewrite Hl. repeat split; auto.
  - cbn. now right.
Qed.

End StoreOps.

(** *** Concrete runs of the store *)

Section StoreSamples.
Import question schema questions container.

Lemma to_int_not_nil (z : Z) :
  Z.to_int z <> Decimal.Pos Decimal.Nil /\ Z.to_int z <> Decimal.Neg Decimal.Nil.
Proof.
  split; intros E; pose proof (f_equal Z.of_int E) as E';
    rewrite DecimalZ.of_to in E'; cbn in E'; subst z; discriminate E.
Qed.

Lemma show_inj (a b : Z) : Js.show a = Js.show b -> a = b.
Proof.
  unfold Js.show. intros E.
  destruct (to_int_not_nil a) as [A1 A2], (to_int_not_nil b) as [B1 B2].
  pose proof (NilZero.isi (Z.to_int a) A1 A2) as Ia.
  pose proof (NilZero.isi (Z.to_int b) B1 B2) as Ib.
  rewrite E in Ia. rewrite Ia in Ib. injection Ib as Ib.
  now apply DecimalZ.to_int_inj.
Qed.

Lemma sampleEnv_ids_distinct (j k : nat) :
  randomUUID sampleEnv j = randomUUID sampleEnv k -> j = k.
Proof.
  cbn. intros E. injection E as E. apply show_inj in E. lia.
Qed.


Lemma confirmQuestion_stamps_record_witness :
  exists q sch',
    lookup stored "b" = Some q
    /\ item (snd (confirmQuestion sampleEnv "b" stored)) = Some sch'
    /\ lookup (snd (confirmQuestion sampleEnv "b" stored)) "b"
       = Some (set_processingStatus success
                 (set_confirmedAt (Some (now sampleEnv 0)) q))
    /\ lastModified (metadata sch') = now sampleEnv 1
    /\ keys (snd (confirmQuestion sampleEnv "b" stored)) = keys stored
    /\ count (snd (confirmQuestion sampleEnv "b" stored)) = count stored.
Proof.
  destruct (confirmQuestion_stamps_record sampleEnv "b" stored
              (snd (confirmQuestion sampleEnv "b" stored)) eq_refl)
    as (_ & _ & K & C & [(q & sch' & H1 & H2 & H3 & H4 & _)
                        | (H & _)]).
  - exists q, sch'. repeat split; assumption.
  - discriminate H.
Defined.

Lemma updateExtraction_replaces_extraction_witness :
  exists q q',
    lookup stored "c" = Some q
    /\ lookup (snd (updateExtraction sampleEnv "c"
                      (sampleFailure "Too blurry") stored)) "c" = Some q'
    /\ (extractedText q' = "" /\ confidence q' = 0%Q
        /\ noiseFiltered q' = false
        /\ errorMessage q' = Some "Too blurry"
        /\ processingStatus q' = failed)
    /\ confirmedAt q' = confirmedAt q
    /\ gradeLevel q' = gradeLevel q.
Proof.
  destruct (updateExtraction_replaces_extraction sampleEnv "c"
              (sampleFailure "Too blurry") stored
              (snd (updateExtraction sampleEnv "c"
                      (sampleFailure "Too blurry") stored)) eq_refl)
    as (_ & _ & _ & _ & [(q & q' & H1 & H2 & H3 & H4 & _) | (H & _)]).
  - exists q, q'. split; [exact H1 |]. split; [exact H2 |].
    split; [exact H3 |]. tauto.
  - discriminate H.
Defined.

Lemma deleteQuestion_removes_record_witness :
  lookup (snd (deleteQuestion sampleEnv "a" stored)) "a" = None
  /\ (forall id', id' <> "a" ->
        lookup (snd (deleteQuestion sampleEnv "a" stored)) id'
        = lookup stored id')
  /\ (forall q, In q (records (snd (deleteQuestion sampleEnv "a" stored))) ->
                In q (records stored))
  /\ count (snd (deleteQuestion sampleEnv "a" stored)) = count stored - 1.
Proof.
  destruct (deleteQuestion_removes_record sampleEnv "a" stored
              (snd (deleteQuestion sampleEnv "a" stored)) eq_refl)
    as (_ & H1 & H2 & H3 & H4 & _).
  repeat split; assumption.
Defined.

(** [constructor] is a name every container inherits: deleting it
    returns, removes nothing and lowers the count. *)
Lemma deleteQuestion_of_inherited_name :
  lookup stored "constructor" = None
  /\ fst (deleteQuestion sampleEnv "constructor" stored) = inr tt
  /\ records (snd (deleteQuestion sampleEnv "constructor" stored))
     = records stored
  /\ count stored = 3
  /\ count (snd (deleteQuestion sampleEnv "constructor" stored)) = 2.
Proof. repeat split. Qed.

(** Confirming [__proto__] returns and gives [Object.prototype] the
    two fields; the container then inherits a string under
    [processingStatus], and confirming that name throws the engine's
    [TypeError]. *)
Lemma confirmQuestion_of_proto :
  fst (confirmQuestion sampleEnv "__proto__" stored) = inr tt
  /\ records (snd (confirmQuestion sampleEnv "__proto__" stored))
     = records stored
  /\ prototype (snd (confirmQuestion sampleEnv "__proto__" stored))
     = [("confirmedAt", Js.Time (now sampleEnv 0));
        ("processingStatus", Js.Text "success")]
  /\ fst (confirmQuestion sampleEnv "processingStatus"
            (snd (confirmQuestion sampleEnv "__proto__" stored)))
     = inl (TypeError
              (cannotCreateProperty sampleEnv "confirmedAt"
                 (Js.Text "success"))).
Proof. repeat split. Qed.

Lemma createQuestion_adds_record_witness :
  exists q sch',
    item (snd (createQuestion sampleEnv "data:image/png;base64,DDDD" 512
                 "image/png" sampleSuccess stored)) = Some sch'
    /\ lookup (snd (createQuestion sampleEnv "data:image/png;base64,DDDD"
                      512 "image/png" sampleSuccess stored)) "q0" = Some q
    /\ lastModified (metadata sch') = uploadTimestamp q
    /\ count (snd (createQuestion sampleEnv "data:image/png;base64,DDDD"
                     512 "image/png" sampleSuccess stored))
       = count stored + 1
    /\ records (snd (createQuestion sampleEnv "data:image/png;base64,DDDD"
                       512 "image/png" sampleSuccess stored))
       = (records stored ++ [q])%list.
Proof.
  destruct (createQuestion_adds_record sampleEnv
              "data:image/png;base64,DDDD" 512 "image/png" sampleSuccess
              stored
              (snd (createQuestion sampleEnv "data:image/png;base64,DDDD"
                      512 "image/png" sampleSuccess stored))
              "q0" eq_refl)
    as (q & sch' & H1 & H2 & H3 & H4 & _ & _ & H7 & _).
  exists q, sch'. repeat split; try assumption. apply H7. reflexivity.
Defined.

Lemma clearAllQuestions_empties_container_witness :
  records (snd (clearAllQuestions sampleEnv stored)) = []
  /\ count (snd (clearAllQuestions sampleEnv stored)) = 0
  /\ getAllQuestions sampleEnv (snd (clearAllQuestions sampleEnv stored))
     = (inr [], snd (clearAllQuestions sampleEnv stored))
  /\ (forall sch, item stored = Some sch ->
        exists sch',
          item (snd (clearAllQuestions sampleEnv stored)) = Some sch'
          /\ version sch' = version sch
          /\ createdAt (metadata sch') = createdAt (metadata sch)).
Proof.
  apply (clearAllQuestions_empties_container sampleEnv stored). reflexivity.
Defined.

(** A browser whose storage is full. *)
Lemma thrown_operation_keeps_store_witness :
  entries (exec fullEnv
             (Confirm "b") stored)
  = entries stored
  /\ count (exec fullEnv
              (Confirm "b") stored)
     = count stored.
Proof.
  apply (thrown_operation_keeps_store
           fullEnv
           (Confirm "b") stored storageFull).
  - reflexivity.
  - left. reflexivity.
Defined.

Lemma store_failures_witness :
  thrownBy sampleEnv (Delete "zz") stored = Some (questionNotFound "zz").
Proof.
  apply (proj2 (store_failures sampleEnv (Delete "zz") stored eq_refl)).
  intros sch. reflexivity.
Defined.

Lemma outside_browser_nothing_is_stored_witness :
  fst (getAllQuestions
         serverEnv
         stored) = inr [].
Proof.
  apply (outside_browser_nothing_is_stored
           serverEnv stored).
  reflexivity.
Defined.

Lemma reads_are_repeatable_witness :
  getAllQuestions sampleEnv (snd (getAllQuestions sampleEnv fresh))
  = (inr [], snd (getAllQuestions sampleEnv fresh))
  /\ records (snd (getAllQuestions sampleEnv fresh)) = records fresh
  /\ count (snd (getAllQuestions sampleEnv fresh)) = count fresh
  /\ (item fresh <> None -> snd (getAllQuestions sampleEnv fresh) = fresh).
Proof.
  apply (proj1 (reads_are_repeatable sampleEnv fresh eq_refl)).
  reflexivity.
Defined.

Lemma first_access_creates_container_witness :
  getAllQuestions sampleEnv fresh
  = (inr [],
     mkWorld (Some {| version := "1.0.0";
                      questions := [];
                      metadata := {| createdAt := now sampleEnv 0;
                                     lastModified := now sampleEnv 1;
                                     totalQuestions := 0 |} |})
       (Some "1.0.0") [] 2 0)
  /\ initializeStorage sampleEnv fresh
     = (inr {| version := "1.0.0";
               questions := [];
               metadata := {| createdAt := now sampleEnv 0;
                              lastModified := now sampleEnv 1;
                              totalQuestions := 0 |} |},
        mkWorld (Some {| version := "1.0.0";
                         questions := [];
                         metadata := {| createdAt := now sampleEnv 0;
                                        lastModified := now sampleEnv 1;
                                        totalQuestions := 0 |} |})
          (Some "1.0.0") [] 2 0).
Proof.
  apply (proj1 (first_access_creates_container sampleEnv fresh
                  eq_refl eq_refl)); reflexivity.
Defined.

(** A storage with room for the empty container and none left for the
    version item: the first access throws with the container stored. *)
Lemma first_access_can_fail_between_the_writes :
  getAllQuestions
    (schema.mkEnv true (now sampleEnv) (randomUUID sampleEnv)
       (fun _ => false) (fun _ => true)
       (cannotCreateProperty sampleEnv))
    fresh
  = (inl (DOMException "QuotaExceededError"),
     mkWorld (Some {| version := "1.0.0";
                      questions := [];
                      metadata := {| createdAt := now sampleEnv 0;
                                     lastModified := now sampleEnv 1;
                                     totalQuestions := 0 |} |})
       None [] 2 0).
Proof. reflexivity. Qed.

Lemma version_is_checked_on_initialize_only_witness :
  initializeStorage sampleEnv
    (mkWorld (Some (mkSchema "0.9.0" (questions sampleContainer)
                      (metadata sampleContainer)))
       (Some "1.0.0") [] 0 0)
  = (inl (Error ("Schema migration needed: " ++ "0.9.0" ++ " → 1.0.0")),
     mkWorld (Some (mkSchema "0.9.0" (questions sampleContainer)
                      (metadata sampleContainer)))
       (Some "1.0.0") [] 0 0).
Proof.
  apply (proj2 (version_is_checked_on_initialize_only sampleEnv
                  (mkWorld (Some (mkSchema "0.9.0"
                                    (questions sampleContainer)
                                    (metadata sampleContainer)))
       (Some "1.0.0") [] 0 0)
                  (mkSchema "0.9.0" (questions sampleContainer)
                     (metadata sampleContainer))
                  eq_refl) eq_refl).
  discriminate.
Defined.

Lemma ids_are_unique_keys_witness :
  NoDup (keys (run sampleEnv
                 [Create "data:image/png;base64,AAAA" 1024 "image/png"
                    sampleSuccess;
                  Create "data:image/png;base64,BBBB" 2048 "image/png"
                    sampleSuccess;
                  Confirm "q1"]
                 fresh))
  /\ (forall k q,
        In (k, q)
           (entries (run sampleEnv
                       [Create "data:image/png;base64,AAAA" 1024
                          "image/png" sampleSuccess;
                        Create "data:image/png;base64,BBBB" 2048
                          "image/png" sampleSuccess;
                        Confirm "q1"]
                       fresh)) ->
        question.id q = k).
Proof.
  apply (ids_are_unique_keys sampleEnv). reflexivity.
Defined.

Lemma count_is_number_of_records_witness :
  count (run sampleEnv
           [Create "data:image/png;base64,AAAA" 1024 "image/png"
              sampleSuccess;
            Create "data:image/png;base64,BBBB" 2048 "image/png"
              sampleSuccess;
            Delete "q0"]
           fresh)
  = Z.of_nat
      (List.length
         (records (run sampleEnv
                     [Create "data:image/png;base64,AAAA" 1024 "image/png"
                        sampleSuccess;
                      Create "data:image/png;base64,BBBB" 2048 "image/png"
                        sampleSuccess;
                      Delete "q0"]
                     fresh))).
Proof.
  apply (count_is_number_of_records sampleEnv).
  - exact sampleEnv_ids_distinct.
  - reflexivity.
  - reflexivity.
Defined.

Lemma stored_record_persists_witness :
  match lookup (exec sampleEnv (UpdateExtraction "a" (sampleFailure "Too blurry"))
                  stored) "a" with
  | None =>
      UpdateExtraction "a" (sampleFailure "Too blurry") = Delete "a"
      \/ UpdateExtraction "a" (sampleFailure "Too blurry") = ClearAll
  | Some q' =>
      question.id q' = "a"
      /\ imageBase64 q' = "data:image/png;base64,AAAA"
      /\ fileSize q' = 1024
      /\ fileFormat q' = "image/png"
      /\ uploadTimestamp q' = 1000
      /\ gradeLevel q' = Some middle
      /\ subject q' = None
      /\ (Some 5000 <> None -> confirmedAt q' <> None)
  end.
Proof.
  apply (stored_record_persists sampleEnv
           (UpdateExtraction "a" (sampleFailure "Too blurry")) stored "a"
           (confirmed 5000
              (created "a" "data:image/png;base64,AAAA" 1024 "image/png"
                 sampleSuccess 1000))).
  - reflexivity.
  - intros i s f r E. discriminate E.
Defined.

End StoreSamples.

(** ** The extraction client: every run *)

Section ExtractionRuns.
Import extraction.
Variable env : Env.

Lemma delay_bounds (attempt : nat) : 1000 <= delay attempt <= 10000.
Proof.
  unfold delay.
  assert (1 <= 2 ^ Z.of_nat attempt) by (apply Z.pow_le_mono_r with (b := 0); lia).
  lia.
Qed.

(** How the loop ends: after some attempts that back off it runs out of
    attempts, or the next attempt returns, or the next attempt throws an
    error the [catch] block throws on. *)
Lemma attemptLoop_cases (maxRetries : Z) (remaining : nat) :
  forall (attempt : nat) (lastError : option Js.Error) (sent : nat)
         (waited : list Z),
    let r := attemptLoop env maxRetries remaining attempt lastError sent
               waited in
    exists k : nat,
      (k <= remaining)%nat
      /\ (forall j, (j < k)%nat -> backsOff env (attempt + j) = true)
      /\ timers r = (waited ++ map delay (seq attempt k))%list
      /\ ((k = remaining
           /\ calls r = (sent + k)%nat
           /\ outcome r
              = inl (exhausted maxRetries
                       match k with
                       | O => lastError
                       | S k' => errorOf env (attempt + k')
                       end))
          \/ ((k < remaining)%nat
              /\ calls r = (sent + S k)%nat
              /\ ((exists result,
                      tryBody env (create env (attempt + k)) = inr result
                      /\ outcome r = inr result)
                  \/ (exists error thrown,
                         tryBody env (create env (attempt + k)) = inl error
                         /\ handle error = Throw thrown
                         /\ outcome r = inl thrown)))).
Proof.
  induction remaining as [| remaining IH];
    intros attempt lastError sent waited r.
  - exists 0%nat. subst r. cbn.
    rewrite app_nil_r, Nat.add_0_r. split; [lia |].
    split; [intros j Hj; lia |]. split; [reflexivity |]. left. auto.
  - subst r. cbn [attemptLoop].
    destruct (tryBody env (create env attempt)) as [error | result] eqn:Etry.
    + destruct (handle error) as [thrown |] eqn:Eh.
      * exists 0%nat. cbn. rewrite app_nil_r, !Nat.add_0_r.
        split; [lia |]. split; [intros j Hj; lia |].
        split; [reflexivity |]. right. split; [lia |].
        split; [lia |]. right. exists error, thrown. auto.
      * destruct (IH (S attempt) (Some error) (S sent)
                    (waited ++ [delay attempt])%list)
          as (k & Hk & Hb & Ht & Hcase).
        exists (S k). split; [lia |]. split.
        { intros j Hj. destruct j as [| j].
          - rewrite Nat.add_0_r. unfold backsOff, errorOf.
            now rewrite Etry, Eh.
          - replace (attempt + S j)%nat with (S attempt + j)%nat by lia.
            apply Hb. lia. }
        split.
        { rewrite Ht. cbn [seq map]. now rewrite <- app_assoc. }
        destruct Hcase as [(Hk' & Hc & Ho) | (Hk' & Hc & Hres)].
        -- left. split; [lia |]. split; [lia |]. rewrite Ho. do 2 f_equal.
           destruct k as [| k'].
           ++ unfold errorOf. now rewrite Nat.add_0_r, Etry.
           ++ f_equal. lia.
        -- right. split; [lia |]. split; [lia |].
           replace (attempt + S k)%nat with (S attempt + k)%nat by lia.
           exact Hres.
    + exists 0%nat. cbn. rewrite app_nil_r, !Nat.add_0_r.
      split; [lia |]. split; [intros j Hj; lia |].
      split; [reflexivity |]. right. split; [lia |].
      split; [lia |]. left. exists result. auto.
Qed.

(** The ways in which a call with an API key ends. *)
Lemma extract_cases (imageBase64 : string)
  (educationLevel : question.GradeLevel) (maxRetries : Z) :
  isApiKeyConfigured env = true ->
  let r := extractQuestionFromImage env imageBase64 educationLevel
             maxRetries in
  exists k : nat,
    (k <= Z.to_nat maxRetries)%nat
    /\ (forall j, (j < k)%nat -> backsOff env j = true)
    /\ timers r = map delay (seq 0 k)
    /\ ((k = Z.to_nat maxRetries
         /\ calls r = k
         /\ outcome r
            = inl (exhausted maxRetries
                     match k with
                     | O => None
                     | S k' => errorOf env k'
                     end))
        \/ ((k < Z.to_nat maxRetries)%nat
            /\ calls r = S k
            /\ ((exists result,
                    tryBody env (create env k) = inr result
                    /\ outcome r = inr result)
                \/ (exists error thrown,
                       tryBody env (create env k) = inl error
                       /\ handle error = Throw thrown
                       /\ outcome r = inl thrown)))).
Proof.
  intros Hkey r. subst r. unfold extractQuestionFromImage. rewrite Hkey.
  cbn [negb].
  destruct (attemptLoop_cases maxRetries (Z.to_nat maxRetries) 0 None 0 [])
    as (k & Hk & Hb & Ht & Hcase).
  exists k. split; [exact Hk |]. split; [exact Hb |].
  split; [exact Ht |]. exact Hcase.
Qed.

(** Every call with an API key ends in one of three ways.  After [k]
    attempts that were answered with a 429 or a status of 500 or more,
    each followed by its wait: the allowance of attempts is used up and
    the call fails with [Failed after ... attempts]; or the next attempt
    returns and the call resolves with exactly what [JSON.parse] gave
    for its payload; or the next attempt fails otherwise and the call
    rejects with what the [catch] block throws for that error. *)
Theorem extraction_ends_in_three_ways (imageBase64 : string)
  (educationLevel : question.GradeLevel) (maxRetries : Z) :
  isApiKeyConfigured env = true ->
  let r := extractQuestionFromImage env imageBase64 educationLevel
             maxRetries in
  exists k : nat,
    (k <= Z.to_nat maxRetries)%nat
    /\ (forall j, (j < k)%nat -> backsOff env j = true)
    /\ timers r = map delay (seq 0 k)
    /\ ((k = Z.to_nat maxRetries
         /\ calls r = k
         /\ outcome r
            = inl (exhausted maxRetries
                     match k with
                     | O => None
                     | S k' => errorOf env k'
                     end))
        \/ ((k < Z.to_nat maxRetries)%nat
            /\ calls r = S k
            /\ ((exists result,
                    tryBody env (create env k) = inr result
                    /\ outcome r = inr result)
                \/ (exists error thrown,
                       tryBody env (create env k) = inl error
                       /\ handle error = Throw thrown
                       /\ outcome r = inl thrown)))).
Proof. exact (extract_cases imageBase64 educationLevel maxRetries). Qed.

Lemma Forall_map_delay (l : list nat) :
  Forall (fun t => 1000 <= t <= 10000) (map delay l).
Proof.
  induction l as [| a l IH]; cbn; constructor;
    [apply delay_bounds | exact IH].
Qed.

Lemma sum_bounded (l : list Z) :
  Forall (fun t => 1000 <= t <= 10000) l ->
  fold_right Z.add 0 l <= 10000 * Z.of_nat (List.length l).
Proof.
  induction 1 as [| t l Ht _ IH]; cbn [fold_right List.length]; lia.
Qed.

(** A call never sends more requests than [maxRetries] allows, waits at
    most once per request, each time between 1 and 10 seconds, so for
    at most [10 * maxRetries] seconds in all; without an API key it
    sends none and waits 1.5 seconds. *)
Theorem extraction_effort_is_bounded (imageBase64 : string)
  (educationLevel : question.GradeLevel) (maxRetries : Z) :
  let r := extractQuestionFromImage env imageBase64 educationLevel
             maxRetries in
  (isApiKeyConfigured env = false -> calls r = 0%nat /\ timers r = [1500])
  /\ (isApiKeyConfigured env = true ->
      (calls r <= Z.to_nat maxRetries)%nat
      /\ (List.length (timers r) <= calls r)%nat
      /\ Forall (fun t => 1000 <= t <= 10000) (timers r)
      /\ fold_right Z.add 0 (timers r) <= 10000 * Z.max 0 maxRetries).
Proof.
  cbv zeta. split.
  - intros Hkey. unfold extractQuestionFromImage. rewrite Hkey.
    split; reflexivity.
  - intros Hkey.
    destruct (extract_cases imageBase64 educationLevel
                maxRetries Hkey) as (k & Hk & _ & Ht & Hcase).
    assert (Hlen : List.length
                     (timers (extractQuestionFromImage env imageBase64
                                educationLevel maxRetries)) = k)
      by (rewrite Ht; now rewrite length_map, length_seq).
    assert (Hall : Forall (fun t => 1000 <= t <= 10000)
                     (timers (extractQuestionFromImage env imageBase64
                                educationLevel maxRetries)))
      by (rewrite Ht; apply Forall_map_delay).
    pose proof (sum_bounded _ Hall) as Hsum. rewrite Hlen in Hsum.
    destruct Hcase as [(Hk' & Hc & _) | (Hk' & Hc & _)];
      rewrite Hc, Hlen; repeat split; try assumption; lia.
Qed.

(** A call never rejects with an error of status 401, 429 or 500 and
    above: for a 401 it throws its own invalid-key error, the others it
    retries until it throws its own [Failed after ... attempts]. *)
Theorem rejections_carry_no_retried_status (imageBase64 : string)
  (educationLevel : question.GradeLevel) (maxRetries : Z)
  (error : Js.Error) :
  outcome (extractQuestionFromImage env imageBase64 educationLevel
             maxRetries) = inl error ->
  Js.status error <> Some 401
  /\ Js.status error <> Some 429
  /\ (forall s, Js.status error = Some s -> s < 500).
Proof.
  intros Ho.
  assert (NoStatus : forall e : Js.Error,
             Js.status e = None ->
             Js.status e <> Some 401 /\ Js.status e <> Some 429
             /\ forall s, Js.status e = Some s -> s < 500)
    by (intros e ->; repeat split; discriminate).
  destruct (isApiKeyConfigured env) eqn:Hkey.
  - destruct (extract_cases imageBase64 educationLevel
                maxRetries Hkey) as (k & _ & _ & _ & Hcase).
    cbv zeta in Hcase. rewrite Ho in Hcase.
    destruct Hcase as [(_ & _ & E) | (_ & _ & [(res & _ & E)
                                                | (e0 & thrown & _ & Hh & E)])].
    + injection E as ->. now apply NoStatus.
    + discriminate.
    + injection E as ->. unfold handle, statusIs, statusAtLeast500 in Hh.
      destruct (Js.status e0) as [s |] eqn:Es.
      * destruct (s =? 401) eqn:E401.
        { injection Hh as <-. now apply NoStatus. }
        destruct (s =? 429) eqn:E429; [discriminate |].
        destruct (negb (s =? 0) && (500 <=? s)) eqn:E500; [discriminate |].
        injection Hh as <-. rewrite Es.
        apply Z.eqb_neq in E401, E429.
        apply andb_false_iff in E500.
        split; [congruence |]. split; [congruence |].
        intros s' E'. injection E' as <-.
        destruct E500 as [E0 | E5].
        -- apply negb_false_iff, Z.eqb_eq in E0. lia.
        -- apply Z.leb_gt in E5. lia.
      * cbn in Hh. injection Hh as <-. now apply NoStatus.
  - unfold extractQuestionFromImage in Ho. rewrite Hkey in Ho. discriminate.
Qed.

(** An error that is neither a 401 nor a 429 nor a 500 and above (a 400,
    a 404, a network error without status) is not retried: the call
    rejects with that very error, and no request follows. *)
Theorem other_errors_fail_at_once (imageBase64 : string)
  (educationLevel : question.GradeLevel) (maxRetries : Z) (k : nat)
  (error : Js.Error) :
  isApiKeyConfigured env = true ->
  Z.of_nat k < maxRetries ->
  (forall j, (j < k)%nat -> backsOff env j = true) ->
  create env k = Rejected error ->
  (Js.status error = None
   \/ exists s, Js.status error = Some s
                /\ s <> 401 /\ s <> 429 /\ s < 500) ->
  extractQuestionFromImage env imageBase64 educationLevel maxRetries
  = {| outcome := inl error;
       calls := S k;
       timers := map delay (seq 0 k) |}.
Proof.
  intros Hkey Hk Hb Hc Hs.
  apply (extract_throws_at env) with (error := error); try assumption.
  - now rewrite Hc.
  - unfold handle, statusIs, statusAtLeast500.
    destruct Hs as [-> | (s & -> & H401 & H429 & H500)]; [reflexivity |].
    apply Z.eqb_neq in H401, H429. rewrite H401, H429. cbn [orb].
    replace (500 <=? s) with false by (symmetry; apply Z.leb_gt; lia).
    now rewrite andb_false_r.
Qed.

(** When every attempt is answered with a 429 or a status of 500 or
    more, the call makes [maxRetries] requests, waits after each of
    them, the last included, and fails with the message of the last
    error.  With [maxRetries] zero or negative it makes no request and
    fails at once, with [undefined] for the message of the last
    error. *)
Theorem exhaustion_waits_after_last_attempt (imageBase64 : string)
  (educationLevel : question.GradeLevel) (maxRetries : Z) :
  isApiKeyConfigured env = true ->
  (forall j, (j < Z.to_nat maxRetries)%nat -> backsOff env j = true) ->
  extractQuestionFromImage env imageBase64 educationLevel maxRetries
  = {| outcome :=
         inl (Js.newError
                ("Failed after " ++ Js.show maxRetries ++ " attempts: "
                   ++ match Z.to_nat maxRetries with
                      | O => "undefined"
                      | S n =>
                          match errorOf env n with
                          | Some e => Js.message e
                          | None => "undefined"
                          end
                      end));
       calls := Z.to_nat maxRetries;
       timers := map delay (seq 0 (Z.to_nat maxRetries)) |}.
Proof.
  intros Hkey Hb. unfold extractQuestionFromImage. rewrite Hkey.
  cbn [negb].
  replace (Z.to_nat maxRetries) with (Z.to_nat maxRetries + 0)%nat at 1
    by lia.
  rewrite (attemptLoop_backoffs env) by exact Hb.
  cbn [attemptLoop Nat.add app]. unfold exhausted, lastMessage.
  destruct (Z.to_nat maxRetries); reflexivity.
Qed.

End ExtractionRuns.

Lemma extraction_ends_in_three_ways_witness :
  let r := extraction.extractQuestionFromImage
             (extraction.scripted true
                [extraction.Rejected extraction.rateLimited]
                extraction.fine)
             "data:image/png;base64,AAAA" question.middle 3 in
  exists k : nat,
    (k <= Z.to_nat 3)%nat
    /\ extraction.timers r = map extraction.delay (seq 0 k)
    /\ (extraction.calls r = k \/ extraction.calls r = S k).
Proof.
  destruct (extraction_ends_in_three_ways
              (extraction.scripted true
                 [extraction.Rejected extraction.rateLimited]
                 extraction.fine)
              "data:image/png;base64,AAAA" question.middle 3 eq_refl)
    as (k & Hk & _ & Ht & Hcase).
  exists k. split; [exact Hk |]. split; [exact Ht |].
  destruct Hcase as [(_ & Hc & _) | (_ & Hc & _)]; [left | right]; exact Hc.
Defined.

Lemma extraction_effort_is_bounded_witness :
  let r := extraction.extractQuestionFromImage
             (extraction.scripted true [] (extraction.Rejected
                                             extraction.serverError))
             "data:image/png;base64,AAAA" question.middle 5 in
  (extraction.calls r <= Z.to_nat 5)%nat
  /\ (List.length (extraction.timers r) <= extraction.calls r)%nat
  /\ Forall (fun t => 1000 <= t <= 10000) (extraction.timers r)
  /\ fold_right Z.add 0 (extraction.timers r) <= 10000 * Z.max 0 5.
Proof.
  apply (proj2 (extraction_effort_is_bounded
                  (extraction.scripted true []
                     (extraction.Rejected extraction.serverError))
                  "data:image/png;base64,AAAA" question.middle 5)).
  reflexivity.
Defined.

Lemma rejections_carry_no_retried_status_witness :
  Js.status (Js.mkError (Some 404) "Not Found") <> Some 401
  /\ Js.status (Js.mkError (Some 404) "Not Found") <> Some 429
  /\ (forall s, Js.status (Js.mkError (Some 404) "Not Found") = Some s ->
                s < 500).
Proof.
  apply (rejections_carry_no_retried_status
           (extraction.scripted true
              [extraction.Rejected (Js.mkError (Some 404) "Not Found")]
              extraction.fine)
           "data:image/png;base64,AAAA" question.middle 3
           (Js.mkError (Some 404) "Not Found")).
  reflexivity.
Defined.

Lemma other_errors_fail_at_once_witness :
  extraction.extractQuestionFromImage
    (extraction.scripted true
       [extraction.Rejected extraction.serverError;
        extraction.Rejected (Js.mkError None "fetch failed")]
       extraction.fine)
    "data:image/png;base64,AAAA" question.middle 3
  = {| extraction.outcome := inl (Js.mkError None "fetch failed");
       extraction.calls := 2;
       extraction.timers := map extraction.delay (seq 0 1) |}.
Proof.
  apply (other_errors_fail_at_once
           (extraction.scripted true
              [extraction.Rejected extraction.serverError;
               extraction.Rejected (Js.mkError None "fetch failed")]
              extraction.fine)
           "data:image/png;base64,AAAA" question.middle 3 1
           (Js.mkError None "fetch failed")).
  - reflexivity.
  - lia.
  - intros j Hj. destruct j; [reflexivity | lia].
  - reflexivity.
  - now left.
Defined.

Lemma exhaustion_waits_after_last_attempt_witness :
  extraction.extractQuestionFromImage
    (extraction.scripted true [] (extraction.Rejected extraction.rateLimited))
    "data:image/png;base64,AAAA" question.middle 2
  = {| extraction.outcome :=
         inl (Js.newError
                ("Failed after " ++ Js.show 2 ++ " attempts: "
                   ++ "Too Many Requests"));
       extraction.calls := 2;
       extraction.timers := [1000; 2000] |}
  /\ extraction.extractQuestionFromImage
       (extraction.scripted true [] extraction.fine)
       "data:image/png;base64,AAAA" question.middle 0
     = {| extraction.outcome :=
            inl (Js.newError
                   ("Failed after " ++ Js.show 0 ++ " attempts: "
                      ++ "undefined"));
          extraction.calls := 0;
          extraction.timers := [] |}.
Proof.
  split.
  - apply (exhaustion_waits_after_last_attempt
             (extraction.scripted true []
                (extraction.Rejected extraction.rateLimited))
             "data:image/png;base64,AAAA" question.middle 2 eq_refl).
    intros j Hj. destruct j as [| [| j]]; [reflexivity | reflexivity |].
    cbn in Hj. lia.
  - apply (exhaustion_waits_after_last_attempt
             (extraction.scripted true [] extraction.fine)
             "data:image/png;base64,AAAA" question.middle 0 eq_refl).
    intros j Hj. cbn in Hj. lia.
Defined.

(** ** The client configuration *)

Section Client.
Import client.

Lemma orElse_truthy (a b : option string) :
  Js.truthy (orElse a b) = Js.truthy a || Js.truthy b.
Proof. unfold orElse. destruct (Js.truthy a) eqn:E; [now rewrite E | reflexivity]. Qed.

(** The client is constructed with the first of the two variables that
    is set and not empty, and with the empty string when neither is;
    [isApiKeyConfigured] holds exactly when that key is not empty, so
    the mock is used exactly when the client has no key. *)
Theorem mock_mode_iff_client_has_no_key (env : ProcessEnv) :
  (exists key, apiKey env = Some key
               /\ (isApiKeyConfigured env = true <-> key <> ""))
  /\ (Js.truthy (NEXT_PUBLIC_DASHSCOPE_API_KEY env) = true ->
      apiKey env = NEXT_PUBLIC_DASHSCOPE_API_KEY env)
  /\ (Js.truthy (NEXT_PUBLIC_DASHSCOPE_API_KEY env) = false ->
      Js.truthy (DASHSCOPE_API_KEY env) = true ->
      apiKey env = DASHSCOPE_API_KEY env)
  /\ (Js.truthy (NEXT_PUBLIC_DASHSCOPE_API_KEY env) = false ->
      Js.truthy (DASHSCOPE_API_KEY env) = false ->
      apiKey env = Some "" /\ isApiKeyConfigured env = false).
Proof.
  unfold apiKey, isApiKeyConfigured, orElse.
  destruct (NEXT_PUBLIC_DASHSCOPE_API_KEY env) as [[| c s] |];
    destruct (DASHSCOPE_API_KEY env) as [[| c' s'] |]; cbn;
    (split; [eexists; split; [reflexivity |]; split; congruence |]);
    repeat split; congruence.
Qed.

End Client.

(** ** The validator: results and messages *)

Section ValidatorResults.
Import imageValidator.

(** A validation result is valid exactly when it carries no message,
    for each of the three functions, and [validateImage] accepts a file
    exactly when both checks accept it. *)
Lemma validation_results_consistent (file : File) :
  (isValid (validateImageFormat file) = true
   <-> errorMessage (validateImageFormat file) = None)
  /\ (isValid (validateImageSize file) = true
      <-> errorMessage (validateImageSize file) = None)
  /\ (isValid (validateImage file) = true
      <-> errorMessage (validateImage file) = None)
  /\ isValid (validateImage file)
     = isValid (validateImageFormat file)
       && isValid (validateImageSize file).
Proof.
  unfold validateImage, validateImageFormat, validateImageSize.
  destruct (includes SUPPORTED_FORMATS (type file));
    destruct (MAX_FILE_SIZE <? size file); cbn;
    repeat split; congruence.
Qed.

(** A file that is too large is never reported with less than 5.00 MB,
    and from one byte over the limit up to 5 248 122 bytes the message
    reads [5.00MB], next to the request to stay under 5MB. *)
Theorem size_message_starts_at_five (file : File) :
  5 * 1024 * 1024 < size file ->
  (exists cents, validateImageSize file = sizeError cents /\ 500 <= cents)
  /\ (size file <= 5248122 ->
      errorMessage (validateImageSize file)
      = Some "Image is too large (5.00MB). Please use an image under 5MB.")
  /\ (5248122 < size file ->
      exists cents, validateImageSize file = sizeError cents /\ 501 <= cents).
Proof.
  intros Hsize.
  rewrite (validateImageSize_large file Hsize).
  assert (D : forall c, 0 < c ->
            c * 2097152 <= 200 * size file + 1048576 ->
            c <= (200 * size file + 1048576) / 2097152).
  { intros c _ H. apply Z.div_le_lower_bound; lia. }
  split; [| split].
  - eexists. split; [reflexivity |]. apply D; lia.
  - intros Hup.
    assert (E : (200 * size file + 1048576) / 2097152 = 500).
    { apply Z.le_antisymm; [| apply D; lia].
      apply Z.lt_succ_r. apply Z.div_lt_upper_bound; lia. }
    rewrite E. reflexivity.
  - intros Hlo. eexists. split; [reflexivity |]. apply D; lia.
Qed.

Lemma size_message_starts_at_five_witness :
  errorMessage (validateImageSize (mkFile "image/png" 5242881))
  = Some "Image is too large (5.00MB). Please use an image under 5MB.".
Proof.
  apply (proj1 (proj2 (size_message_starts_at_five
                         (mkFile "image/png" 5242881) ltac:(cbn; lia)))).
  cbn. lia.
Defined.

End ValidatorResults.

(** ** The compressor: edges *)

Section CompressorEdges.
Import imageValidator.
Local Open Scope Q_scope.

(** The rounding as before, now with a relative error of at most
    [2^-12] (that of JavaScript numbers is [2^-53]). *)
Variable fl : Q -> Q.
Variable eps : Q.
Hypothesis eps_tiny : 0 <= eps /\ eps <= 1 # 4096.
Hypothesis fl_monotone : forall x y : Q, x <= y -> fl x <= fl y.
Hypothesis fl_integer :
  forall z : Z, (Z.abs z <= 2 ^ 53)%Z -> fl (inject_Z z) == inject_Z z.
Hypothesis fl_error :
  forall x : Q, 1 # 4294967296 <= x -> x <= 1200 ->
                Qabs (fl x - x) <= eps * x.

Lemma eps_tiny_small : 0 <= eps /\ eps <= 1 # 2.
Proof. destruct eps_tiny. split; lra. Qed.

(** The scaled edge lies strictly between 1199 and 1201 times the ratio
    of the edges. *)
Lemma scaled_edge_window (a b : Z) :
  (0 < a)%Z -> (a <= b)%Z -> (b < 2 ^ 32)%Z ->
  let e := fl (fl (inject_Z a / inject_Z b) * maxDimension) in
  1199 * inject_Z a < e * inject_Z b /\ e * inject_Z b < 1201 * inject_Z a.
Proof.
  intros Ha Hab Hb e.
  destruct (scaled_edge fl eps eps_tiny_small fl_monotone fl_integer
              fl_error a b Ha Hab Hb) as [_ E].
  fold e in E. apply Qabs_Qle_condition in E. destruct E as [El Eu].
  assert (A1 : 1 <= inject_Z a)
    by (change 1 with (inject_Z 1); rewrite <- Zle_Qle; lia).
  destruct eps_tiny as [e0 e1].
  remember (inject_Z a) as A. remember (inject_Z b) as B.
  remember e as E'. clear HeqE' e HeqA HeqB.
  assert (P : 0 <= eps * A) by (apply Qmult_le_0_compat; lra).
  assert (P1 : eps * A <= (1 # 4096) * A)
    by (apply Qmult_le_compat_r; lra).
  assert (P2 : 0 <= eps * eps * A).
  { setoid_replace (eps * eps * A) with (eps * (eps * A)) by ring.
    apply Qmult_le_0_compat; lra. }
  assert (P3 : eps * eps * A <= (1 # 4096) * A).
  { setoid_replace (eps * eps * A) with (eps * (eps * A)) by ring.
    apply Qle_trans with (1 * (eps * A)); [| lra].
    apply Qmult_le_compat_r; lra. }
  split; lra.
Qed.

Lemma Qfloor_unit (x : Q) : 0 <= x -> x < 1 -> Qfloor x = 0%Z.
Proof.
  intros H0 H1. pose proof (Qfloor_le x) as L. pose proof (Qlt_floor x) as U.
  assert (inject_Z (Qfloor x) < inject_Z 1) by (change (inject_Z 1) with 1; lra).
  assert (inject_Z 0 < inject_Z (Qfloor x + 1))
    by (change (inject_Z 0) with 0; lra).
  rewrite <- Zlt_Qlt in *. lia.
Qed.

Lemma Qfloor_ge_1 (x : Q) : 1 <= x -> (1 <= Qfloor x)%Z.
Proof.
  intros H. change 1%Z with (Qfloor (inject_Z 1)). now apply Qfloor_resp_le.
Qed.

Lemma Q_of_Z_lt (a b : Z) : (a < b)%Z -> inject_Z a < inject_Z b.
Proof. now rewrite <- Zlt_Qlt. Qed.

Lemma Q_of_Z_le (a b : Z) : (a <= b)%Z -> inject_Z a <= inject_Z b.
Proof. now rewrite <- Zle_Qle. Qed.

Lemma branch_big_wide (w h : Z) :
  (1200 < w)%Z -> (h < w)%Z ->
  compressDimensions fl w h
  = (maxDimension,
     fl (fl (inject_Z h / inject_Z w) * maxDimension)).
Proof.
  intros Hw Hhw. unfold compressDimensions.
  replace (Js.Qgtb (inject_Z w) maxDimension) with true.
  - cbn [orb].
    replace (Js.Qgtb (inject_Z w) (inject_Z h)) with true; [reflexivity |].
    symmetry. apply Qgtb_true. now apply Q_of_Z_lt.
  - symmetry. apply Qgtb_true. unfold maxDimension.
    change 1200 with (inject_Z 1200). now apply Q_of_Z_lt.
Qed.

Lemma branch_big_tall (w h : Z) :
  (1200 < h)%Z -> (w <= h)%Z ->
  compressDimensions fl w h
  = (fl (fl (inject_Z w / inject_Z h) * maxDimension), maxDimension).
Proof.
  intros Hh Hwh. unfold compressDimensions.
  replace (Js.Qgtb (inject_Z h) maxDimension) with true.
  - rewrite orb_true_r.
    replace (Js.Qgtb (inject_Z w) (inject_Z h)) with false; [reflexivity |].
    symmetry. apply Qgtb_false. now apply Q_of_Z_le.
  - symmetry. apply Qgtb_true. unfold maxDimension.
    change 1200 with (inject_Z 1200). now apply Q_of_Z_lt.
Qed.

Lemma branch_small (w h : Z) :
  (w <= 1200)%Z -> (h <= 1200)%Z ->
  compressDimensions fl w h = (inject_Z w, inject_Z h).
Proof.
  intros Hw Hh. unfold compressDimensions.
  replace (Js.Qgtb (inject_Z w) maxDimension) with false.
  - replace (Js.Qgtb (inject_Z h) maxDimension) with false; [reflexivity |].
    symmetry. apply Qgtb_false. unfold maxDimension.
    change 1200 with (inject_Z 1200). now apply Q_of_Z_le.
  - symmetry. apply Qgtb_false. unfold maxDimension.
    change 1200 with (inject_Z 1200). now apply Q_of_Z_le.
Qed.

(** An image with an edge over 1200 is scaled so that its longer edge
    is exactly 1200 (the height when both are equal), and no image is
    ever enlarged: neither computed dimension exceeds the source's. *)
Theorem compression_never_enlarges (imgWidth imgHeight : Z) :
  (0 < imgWidth < 2 ^ 32)%Z ->
  (0 < imgHeight < 2 ^ 32)%Z ->
  let width := fst (compressDimensions fl imgWidth imgHeight) in
  let height := snd (compressDimensions fl imgWidth imgHeight) in
  (width <= inject_Z imgWidth /\ height <= inject_Z imgHeight)
  /\ ((1200 < imgWidth)%Z -> (imgHeight < imgWidth)%Z ->
      width = 1200 /\ height <= 1200)
  /\ ((1200 < imgHeight)%Z -> (imgWidth <= imgHeight)%Z ->
      height = 1200 /\ width <= 1200).
Proof.
  intros [Hw0 Hw32] [Hh0 Hh32]. cbv zeta.
  assert (W0 : 0 < inject_Z imgWidth)
    by (change 0 with (inject_Z 0); apply Q_of_Z_lt; lia).
  assert (H0 : 0 < inject_Z imgHeight)
    by (change 0 with (inject_Z 0); apply Q_of_Z_lt; lia).
  destruct (Z_lt_le_dec imgHeight imgWidth) as [Wide | Tall].
  - destruct (Z_lt_le_dec 1200 imgWidth) as [Big | Small].
    + rewrite (branch_big_wide _ _ Big Wide). cbn [fst snd].
      destruct (scaled_edge_window imgHeight imgWidth ltac:(lia) ltac:(lia)
                  ltac:(lia)) as [_ U].
      destruct (scaled_edge fl eps eps_tiny_small fl_monotone fl_integer
                  fl_error imgHeight imgWidth ltac:(lia) ltac:(lia)
                  ltac:(lia)) as [L _].
      cbv zeta in U, L.
      remember (fl (fl (inject_Z imgHeight / inject_Z imgWidth)
                    * maxDimension)) as e. clear Heqe.
      assert (W1 : 1201 <= inject_Z imgWidth)
        by (change 1201 with (inject_Z 1201); apply Q_of_Z_le; lia).
      assert (Eh : e <= inject_Z imgHeight).
      { apply Qnot_lt_le. intros C.
        assert (inject_Z imgHeight * inject_Z imgWidth
                < e * inject_Z imgWidth)
          by (apply Qmult_lt_compat_r; assumption).
        assert (1201 * inject_Z imgHeight
                <= inject_Z imgHeight * inject_Z imgWidth).
        { rewrite (Qmult_comm (inject_Z imgHeight)).
          apply Qmult_le_compat_r; lra. }
        lra. }
      unfold maxDimension.
      split; [split; [lra | exact Eh] |].
      split; [intros _ _; split; [reflexivity | exact L] |].
      intros _ C. lia.
    + rewrite (branch_small imgWidth imgHeight) by lia. cbn [fst snd].
      split; [split; apply Qle_refl |]. split; intros; lia.
  - destruct (Z_lt_le_dec 1200 imgHeight) as [Big | Small].
    + rewrite (branch_big_tall _ _ Big Tall). cbn [fst snd].
      destruct (scaled_edge_window imgWidth imgHeight ltac:(lia) ltac:(lia)
                  ltac:(lia)) as [_ U].
      destruct (scaled_edge fl eps eps_tiny_small fl_monotone fl_integer
                  fl_error imgWidth imgHeight ltac:(lia) ltac:(lia)
                  ltac:(lia)) as [L _].
      cbv zeta in U, L.
      remember (fl (fl (inject_Z imgWidth / inject_Z imgHeight)
                    * maxDimension)) as e. clear Heqe.
      assert (H1 : 1201 <= inject_Z imgHeight)
        by (change 1201 with (inject_Z 1201); apply Q_of_Z_le; lia).
      assert (Ew : e <= inject_Z imgWidth).
      { apply Qnot_lt_le. intros C.
        assert (inject_Z imgWidth * inject_Z imgHeight
                < e * inject_Z imgHeight)
          by (apply Qmult_lt_compat_r; assumption).
        assert (1201 * inject_Z imgWidth
                <= inject_Z imgWidth * inject_Z imgHeight).
        { rewrite (Qmult_comm (inject_Z imgWidth)).
          apply Qmult_le_compat_r; lra. }
        lra. }
      unfold maxDimension.
      split; [split; [exact Ew | lra] |].
      split; [intros _ C; lia |].
      intros _ _. split; [reflexivity | exact L].
    + rewrite (branch_small imgWidth imgHeight) by lia. cbn [fst snd].
      split; [split; apply Qle_refl |]. split; intros; lia.
Qed.

(** The canvas loses an edge for extreme shapes: when one edge is at
    least 1201 times the other, the canvas is 1200 along the long edge
    and 0 along the short one.  When neither edge is more than 1199
    times the other, both canvas edges are at least 1. *)
Theorem canvas_edge_vanishes_for_extreme_shapes (imgWidth imgHeight : Z) :
  (0 < imgWidth < 2 ^ 32)%Z ->
  (0 < imgHeight < 2 ^ 32)%Z ->
  ((1201 * imgWidth <= imgHeight)%Z ->
     canvasDimensions fl imgWidth imgHeight = (0, 1200)%Z)
  /\ ((1201 * imgHeight <= imgWidth)%Z ->
      canvasDimensions fl imgWidth imgHeight = (1200, 0)%Z)
  /\ ((imgHeight <= 1199 * imgWidth)%Z ->
      (imgWidth <= 1199 * imgHeight)%Z ->
      (1 <= fst (canvasDimensions fl imgWidth imgHeight))%Z
      /\ (1 <= snd (canvasDimensions fl imgWidth imgHeight))%Z).
Proof.
  intros [Hw0 Hw32] [Hh0 Hh32].
  assert (W0 : 0 < inject_Z imgWidth)
    by (change 0 with (inject_Z 0); apply Q_of_Z_lt; lia).
  assert (H0 : 0 < inject_Z imgHeight)
    by (change 0 with (inject_Z 0); apply Q_of_Z_lt; lia).
  assert (Pos : forall e a b : Q, 0 < b -> 0 < a -> 1199 * a < e * b -> 0 < e).
  { intros e a b Hb Ha H. apply Qnot_le_lt. intros C.
    assert (e * b <= 0 * b) by (apply Qmult_le_compat_r; lra). lra. }
  assert (Lt1 : forall e a b : Q,
             0 < b -> e * b < 1201 * a -> 1201 * a <= b -> e < 1).
  { intros e a b Hb H1 H2. apply Qnot_le_lt. intros C.
    assert (1 * b <= e * b) by (apply Qmult_le_compat_r; lra). lra. }
  assert (Ge1 : forall e a b : Q,
             0 < b -> 1199 * a < e * b -> b <= 1199 * a -> 1 <= e).
  { intros e a b Hb H1 H2. apply Qnot_lt_le. intros C.
    assert (e * b <= 1 * b) by (apply Qmult_le_compat_r; lra). lra. }
  unfold canvasDimensions. split; [| split].
  - intros Hx.
    rewrite (branch_big_tall imgWidth imgHeight) by lia.
    destruct (scaled_edge_window imgWidth imgHeight ltac:(lia) ltac:(lia)
                ltac:(lia)) as [L U]. cbv zeta in L, U.
    f_equal.
    apply Qfloor_unit.
    + apply Qlt_le_weak. eapply Pos; [exact H0 | exact W0 | exact L].
    + eapply Lt1; [exact H0 | exact U |].
      change 1201 with (inject_Z 1201). rewrite <- inject_Z_mult.
      now apply Q_of_Z_le.
  - intros Hx.
    rewrite (branch_big_wide imgWidth imgHeight) by lia.
    destruct (scaled_edge_window imgHeight imgWidth ltac:(lia) ltac:(lia)
                ltac:(lia)) as [L U]. cbv zeta in L, U.
    f_equal.
    apply Qfloor_unit.
    + apply Qlt_le_weak. eapply Pos; [exact W0 | exact H0 | exact L].
    + eapply Lt1; [exact W0 | exact U |].
      change 1201 with (inject_Z 1201). rewrite <- inject_Z_mult.
      now apply Q_of_Z_le.
  - intros Hh Hw.
    destruct (Z_lt_le_dec imgHeight imgWidth) as [Wide | Tall].
    + destruct (Z_lt_le_dec 1200 imgWidth) as [Big | Small].
      * rewrite (branch_big_wide _ _ Big Wide). cbn [fst snd].
        destruct (scaled_edge_window imgHeight imgWidth ltac:(lia)
                    ltac:(lia) ltac:(lia)) as [L U]. cbv zeta in L, U.
        split; [change (Qfloor maxDimension) with 1200%Z; lia |].
        apply Qfloor_ge_1.
        eapply Ge1; [exact W0 | exact L |].
        change 1199 with (inject_Z 1199). rewrite <- inject_Z_mult.
        now apply Q_of_Z_le.
      * rewrite (branch_small imgWidth imgHeight) by lia. cbn [fst snd].
        rewrite !Qfloor_Z. lia.
    + destruct (Z_lt_le_dec 1200 imgHeight) as [Big | Small].
      * rewrite (branch_big_tall _ _ Big Tall). cbn [fst snd].
        destruct (scaled_edge_window imgWidth imgHeight ltac:(lia)
                    ltac:(lia) ltac:(lia)) as [L U]. cbv zeta in L, U.
        split; [| change (Qfloor maxDimension) with 1200%Z; lia].
        apply Qfloor_ge_1.
        eapply Ge1; [exact H0 | exact L |].
        change 1199 with (inject_Z 1199). rewrite <- inject_Z_mult.
        now apply Q_of_Z_le.
      * rewrite (branch_small imgWidth imgHeight) by lia. cbn [fst snd].
        rewrite !Qfloor_Z. lia.
Qed.

End CompressorEdges.

Lemma compression_never_enlarges_witness :
  let width :=
    fst (imageValidator.compressDimensions imageValidator.roundDown64
           3001 4000) in
  let height :=
    snd (imageValidator.compressDimensions imageValidator.roundDown64
           3001 4000) in
  ((width <= inject_Z 3001)%Q /\ (height <= inject_Z 4000)%Q)
  /\ (1200 < 3001 -> 4000 < 3001 -> width = 1200%Q /\ (height <= 1200)%Q)
  /\ (1200 < 4000 -> 3001 <= 4000 -> height = 1200%Q /\ (width <= 1200)%Q).
Proof.
  apply (compression_never_enlarges imageValidator.roundDown64
           (1 # 4294967296)%Q).
  - split; discriminate.
  - exact roundDown64_monotone.
  - intros z _. apply roundDown64_integer.
  - intros x Hx _. now apply roundDown64_error.
  - lia.
  - lia.
Defined.

Lemma canvas_edge_vanishes_for_extreme_shapes_witness :
  imageValidator.canvasDimensions imageValidator.roundDown64 1 10000
  = (0, 1200).
Proof.
  apply (proj1 (canvas_edge_vanishes_for_extreme_shapes
                  imageValidator.roundDown64 (1 # 4294967296)%Q
                  ltac:(split; discriminate)
                  roundDown64_monotone
                  (fun z _ => roundDown64_integer z)
                  (fun x Hx _ => roundDown64_error x Hx)
                  1 10000 ltac:(lia) ltac:(lia))).
  lia.
Defined.

(** ** The storage metrics *)

Section Metrics.
Import question schema questions container.
Variable env : Env.






End Metrics.


(** ** The upload page *)

Section UploadPage.
Import question schema questions container.
Import ImageUploader uploadPage.
Variable env : Env.
Variable quotaMessage : string.

(** [extractText] either leaves the storage alone or has called
    [createQuestion] once, with a result whose [errorMessage] is null
    or empty. *)
Lemma extractText_world (service : extraction.Env)
  (f : imageValidator.File) (b : string) (a : App) :
  world (extractText env quotaMessage service f b a) = world a
  \/ exists r,
       Js.truthy (ai.errorMessage r) = false
       /\ world (extractText env quotaMessage service f b a)
          = exec env
              (Create b (imageValidator.size f) (imageValidator.type f) r)
              (world a).
Proof.
  unfold extractText.
  destruct (extraction.outcome _) as [err | result]; [now left |].
  destruct (Js.truthy (ai.errorMessage result)) eqn:T; [now left |].
  right. exists result. split; [exact T |]. cbn [exec].
  now destruct (createQuestion env _ _ _ _ _) as [[err | id] w'].
Qed.

Lemma handleConfirm_world (a : App) :
  world (snd (handleConfirm env quotaMessage a)) = world a
  \/ exists id,
       world (snd (handleConfirm env quotaMessage a))
       = exec env (Confirm id) (world a).
Proof.
  unfold handleConfirm.
  destruct (questionId (ui a)) as [[| c i] |]; [now left | | now left].
  right. exists (String c i). cbn [exec].
  now destruct (confirmQuestion env _ _) as [[err | u] w'].
Qed.

Lemma handleConfirm_returns (a : App) :
  fst (handleConfirm env quotaMessage a) = inr tt.
Proof.
  unfold handleConfirm.
  destruct (questionId (ui a)) as [[| c i] |]; try reflexivity.
  now destruct (confirmQuestion env _ _) as [[err | u] w'].
Qed.

Lemma handle_world (e : Event) (p : Page) :
  exists ops,
    Forall performs ops
    /\ world (app (handle env quotaMessage e p))
       = run env ops (world (app p)).
Proof.
  destruct e as [[f |] read service | level | | service]; cbn [handle].
  - cbn [app]. unfold handleFileSelect.
    destruct (negb _); [now exists [] |].
    destruct read as [b |]; [| now exists []].
    destruct (extractText_world service f b
                (mkApp (setPreview b
                          (setFile (Some f)
                             (setQuestionId None
                                (setExtractedResult None
                                   (setError None (ui (app p)))))))
                   (world (app p)) (requests (app p))))
      as [E | (r & T & E)]; cbn [world] in E.
    + now exists [].
    + eexists [_]. split; [| exact E]. repeat constructor. exact T.
  - now exists [].
  - now exists [].
  - destruct (confirmationShown _); [| now exists []].
    unfold ConfirmationView.handleConfirm.
    pose proof (handleConfirm_world (app p)) as W.
    destruct (handleConfirm env quotaMessage (app p)) as [[err | u] a'];
      cbn [snd app] in *.
    + destruct W as [W | (id & W)]; [now exists [] |].
      exists [Confirm id]. split; [repeat constructor | exact W].
    + destruct W as [W | (id & W)]; [now exists [] |].
      exists [Confirm id]. split; [repeat constructor | exact W].
  - destruct (confirmationShown _); [| now exists []].
    cbn [ConfirmationView.handleRetry app]. unfold handleRetry.
    destruct (file (ui (app p))) as [f |]; [| now exists []].
    destruct (preview (ui (app p))) as [| c b]; [now exists [] |].
    destruct (extractText_world service f (String c b) (app p))
      as [E | (r & T & E)].
    + now exists [].
    + eexists [_]. split; [| exact E]. repeat constructor. exact T.
Qed.

Lemma handleAll_app (events : list Event) (e : Event) (p : Page) :
  handleAll env quotaMessage (events ++ [e])%list p
  = handle env quotaMessage e (handleAll env quotaMessage events p).
Proof. unfold handleAll. now rewrite fold_left_app. Qed.

Lemma run_app (ops ops' : list Op) (w : World) :
  run env (ops ++ ops')%list w = run env ops' (run env ops w).
Proof. unfold run. now rewrite fold_left_app. Qed.

Lemma handleAll_world (events : list Event) (p : Page) :
  exists ops,
    Forall performs ops
    /\ world (app (handleAll env quotaMessage events p))
       = run env ops (world (app p)).
Proof.
  induction events as [| e events IH] using rev_ind.
  - now exists [].
  - rewrite handleAll_app. destruct IH as (ops & F & E).
    destruct (handle_world e (handleAll env quotaMessage events p))
      as (ops' & F' & E').
    exists (ops ++ ops')%list. split; [now apply Forall_app |].
    now rewrite run_app, <- E.
Qed.

Lemma performs_asUploaded (ops : list Op) (w : World) :
  Forall performs ops ->
  Forall asUploaded (records w) ->
  Forall asUploaded (records (run env ops w)).
Proof.
  intros F. revert w. induction F as [| op ops P F IH]; intros w H.
  - exact H.
  - cbn [run fold_left]. apply IH. clear IH F.
    rewrite records_entries in *.
    pose proof (exec_effect env op w) as E.
    remember (entries (exec env op w)) as o' eqn:Ho'. clear Ho'.
    destruct E as [ | i s f r k t | k q t Hget | k r q Hget | k | ].
    + exact H.
    + apply Forall_values_assign; [exact H |]. cbn in P.
      unfold asUploaded. cbn. unfold statusOf. rewrite P.
      repeat split; try discriminate. intros C. now contradiction C.
    + apply Forall_values_assign; [exact H |].
      apply get_In in Hget. rewrite Forall_forall in H.
      destruct (H q Hget) as (T & _ & _).
      unfold asUploaded. cbn. repeat split; try discriminate. exact T.
    + contradiction P.
    + contradiction P.
    + contradiction P.
Qed.

Lemma extract_calls (service : extraction.Env) (b : string)
  (level : GradeLevel) :
  (extraction.calls (extraction.extractQuestionFromImage service b level 3)
   <= 3)%nat.
Proof.
  destruct (extraction.isApiKeyConfigured service) eqn:K.
  - destruct (extract_cases service b level 3 K) as (k & Hk & _ & _ & C).
    change (Z.to_nat 3) with 3%nat in *.
    destruct C as [(_ & -> & _) | (Hk' & -> & _)]; lia.
  - unfold extraction.extractQuestionFromImage. rewrite K. cbn. lia.
Qed.

Lemma extractText_requests (service : extraction.Env)
  (f : imageValidator.File) (b : string) (a : App) :
  (requests a <= requests (extractText env quotaMessage service f b a)
   <= requests a + 3)%nat.
Proof.
  pose proof (extract_calls service b (educationLevel (ui a))) as C.
  unfold extractText.
  destruct (extraction.outcome _) as [err | result]; [cbn; lia |].
  destruct (Js.truthy _); [cbn; lia |].
  destruct (createQuestion env _ _ _ _ _) as [[err | id] w']; cbn; lia.
Qed.

Lemma handle_requests (e : Event) (p : Page) :
  (requests (app p) <= requests (app (handle env quotaMessage e p))
   <= requests (app p) + 3)%nat.
Proof.
  destruct e as [[f |] read service | level | | service]; cbn [handle].
  - cbn [app]. unfold handleFileSelect.
    destruct (negb _); [cbn; lia |].
    destruct read as [b |]; [| cbn; lia].
    match goal with
    | |- context [extractText _ _ _ _ _ ?a] =>
        pose proof (extractText_requests service f b a) as R
    end.
    exact R.
  - cbn. lia.
  - cbn. lia.
  - destruct (confirmationShown _); [| lia].
    unfold ConfirmationView.handleConfirm.
    destruct (handleConfirm env quotaMessage (app p)) as [[err | u] a']
      eqn:Hc; unfold handleConfirm in Hc;
      destruct (questionId (ui (app p))) as [[| c i] |];
      try destruct (confirmQuestion env _ _) as [[err' | u'] w'];
      try discriminate Hc; injection Hc as _ <-; cbn; lia.
  - destruct (confirmationShown _); [| lia].
    cbn [ConfirmationView.handleRetry app]. unfold handleRetry.
    destruct (file (ui (app p))) as [f |]; [| lia].
    destruct (preview (ui (app p))) as [| c b]; [lia |].
    apply extractText_requests.
Qed.

(** Whatever is done on the page, opened on a store without records:
    every record stored is one the extraction reported no error for,
    none is [failed], and a record is [success] exactly when it is
    confirmed.  And the page has sent at most three requests to the
    extraction service per event. *)
Theorem page_stores_only_clean_records (events : list Event) (w : World) :
  records w = [] ->
  let p := handleAll env quotaMessage events (opened w) in
  Forall asUploaded (records (world (app p)))
  /\ (requests (app p) <= 3 * List.length events)%nat.
Proof.
  intros H. cbv zeta. split.
  - destruct (handleAll_world events (opened w)) as (ops & F & ->).
    apply performs_asUploaded; [exact F |]. cbn. rewrite H. constructor.
  - clear H. induction events as [| e events IH] using rev_ind.
    + cbn. lia.
    + rewrite handleAll_app, length_app. cbn [List.length].
      pose proof (handle_requests e
                    (handleAll env quotaMessage events (opened w))) as R.
      lia.
Qed.

Lemma create_threw i s f r (w w' : World) (e : Thrown) :
  versionItem w = Some CURRENT_VERSION ->
  createQuestion env i s f r w = (inl e, w') ->
  entries w' = entries w /\ versionItem w' = Some CURRENT_VERSION.
Proof.
  intros V R.
  pose proof (exec_thrown_versioned env (Create i s f r) w e) as H.
  cbn [exec thrownBy] in H. unfold thrown in H. rewrite R in H.
  now apply H.
Qed.

Lemma confirm_threw id (w w' : World) (e : Thrown) :
  versionItem w = Some CURRENT_VERSION ->
  confirmQuestion env id w = (inl e, w') ->
  entries w' = entries w /\ versionItem w' = Some CURRENT_VERSION.
Proof.
  intros V R.
  pose proof (exec_thrown_versioned env (Confirm id) w e) as H.
  cbn [exec thrownBy] in H. unfold thrown in H. rewrite R in H.
  now apply H.
Qed.

Lemma create_returned i s f r (w w' : World) (id : string) :
  createQuestion env i s f r w = (inr id, w') ->
  id = randomUUID env (uuidDraws w)
  /\ versionItem w' = Some CURRENT_VERSION
  /\ exists t,
       entries w' = Js.assign (entries w) id (created id i s f r t).
Proof.
  intros R.
  destruct (createQuestion_returned env i s f r w w' id R)
    as (sch & w1 & B & G & Hid & ->).
  destruct (getSchema_returned env w w1 sch B G) as (Hq & _).
  split; [exact Hid |]. split; [reflexivity |].
  eexists. unfold entries at 1. cbn [item questions].
  now rewrite Hq.
Qed.

Lemma extractText_inStep (service : extraction.Env)
  (f : imageValidator.File) (b : string) (a : App) :
  file (ui a) <> None ->
  inStep a -> inStep (extractText env quotaMessage service f b a).
Proof.
  intros Hf I. unfold extractText.
  destruct (extraction.outcome _) as [err | result].
  - intros id Hid. cbn in Hid. destruct (I id Hid) as (_ & Hv & q & Hq).
    split; [exact Hf |]. split; [exact Hv |]. exists q. exact Hq.
  - destruct (Js.truthy (ai.errorMessage result)) eqn:T.
    + intros id Hid. cbn in Hid.
      destruct (I id Hid) as (_ & Hv & q & Hl & Hs & Hc & _).
      split; [exact Hf |]. split; [exact Hv |]. exists q. cbn.
      repeat split; try assumption; discriminate.
    + destruct (createQuestion env _ _ _ _ _) as [[err | id'] w'] eqn:R.
      * intros id Hid. cbn in Hid.
        destruct (I id Hid) as (_ & Hv & q & Hl & Hq).
        apply (create_threw _ _ _ _ _ _ _ Hv) in R as [R Hv'].
        split; [exact Hf |]. split; [exact Hv' |].
        exists q. cbn [world ui].
        split; [| exact Hq].
        now rewrite lookup_entries, R, <- lookup_entries.
      * apply create_returned in R as (_ & Hv & t & R).
        intros id Hid. cbn in Hid. injection Hid as <-.
        split; [exact Hf |]. split; [exact Hv |].
        eexists. cbn [world ui].
        rewrite lookup_entries, R, get_assign_same.
        split; [reflexivity |]. cbn. unfold statusOf. rewrite T.
        split; [reflexivity |]. split; [reflexivity |].
        intros r [= <-]. auto.
Qed.

Lemma handle_inStep (e : Event) (p : Page) :
  inStep (app p) -> inStep (app (handle env quotaMessage e p)).
Proof.
  intros I.
  destruct e as [[f |] read service | level | | service]; cbn [handle app].
  - unfold handleFileSelect. destruct (negb _).
    + intros id Hid. discriminate Hid.
    + destruct read as [b |].
      * apply extractText_inStep; [discriminate |].
        intros id Hid. discriminate Hid.
      * intros id Hid. discriminate Hid.
  - exact I.
  - exact I.
  - destruct (confirmationShown _); [| exact I].
    unfold ConfirmationView.handleConfirm.
    pose proof (handleConfirm_returns (app p)) as Hr.
    destruct (handleConfirm env quotaMessage (app p)) as [[err | u] a']
      eqn:Hc; [discriminate Hr |]. cbn [app].
    unfold handleConfirm in Hc.
    destruct (questionId (ui (app p))) as [[| c i] |] eqn:Q;
      try (injection Hc as _ <-; exact I).
    destruct (confirmQuestion env _ _) as [[err | u'] w'] eqn:R;
      injection Hc as _ <-.
    + intros id Hid. cbn in Hid.
      rewrite Hid in Q. destruct (I id Hid) as (Hf & Hv & q & Hl & Hq).
      apply (confirm_threw _ _ _ _ Hv) in R as [R Hv'].
      split; [exact Hf |]. split; [exact Hv' |].
      exists q. cbn [world ui].
      split; [| exact Hq].
      now rewrite lookup_entries, R, <- lookup_entries.
    + intros id Hid. discriminate Hid.
  - destruct (confirmationShown _); [| exact I].
    cbn [ConfirmationView.handleRetry app]. unfold handleRetry.
    destruct (file (ui (app p))) as [f |] eqn:F; [| exact I].
    destruct (preview (ui (app p))) as [| c b]; [exact I |].
    apply extractText_inStep; [| exact I]. rewrite F. discriminate.
Qed.

Lemma handleAll_inStep (events : list Event)
  (w : World) :
  inStep (app (handleAll env quotaMessage events (opened w))).
Proof.
  induction events as [| e events IH] using rev_ind.
  - intros id Hid. discriminate Hid.
  - rewrite handleAll_app. now apply handle_inStep.
Qed.


(** A file that fails the validation, or that cannot be read, reaches
    neither the extraction service nor the storage: no request is sent,
    the world is as before, no toast is shown, the page holds no
    question and shows an error, the validator's or its own.  The
    preview of an earlier file stays on display. *)
Theorem rejected_file_reaches_nothing (p : Page)
  (f : imageValidator.File) (read : option string)
  (service : extraction.Env) :
  imageValidator.isValid (imageValidator.validateImage f) = false
  \/ read = None ->
  let p' := handle env quotaMessage (SelectFile (Some f) read service) p in
  world (app p') = world (app p)
  /\ requests (app p') = requests (app p)
  /\ view p' = view p
  /\ questionId (ui (app p')) = None
  /\ extractedResult (ui (app p')) = None
  /\ confirmationShown (ui (app p')) = false
  /\ error (ui (app p'))
     = (if imageValidator.isValid (imageValidator.validateImage f)
        then Some "Failed to process image. Please try again."
        else imageValidator.errorMessage (imageValidator.validateImage f))
  /\ error (ui (app p')) <> None
  /\ preview (ui (app p')) = preview (ui (app p)).
Proof.
  intros H. cbv zeta. cbn [handle app view]. unfold handleFileSelect.
  destruct (imageValidator.isValid (imageValidator.validateImage f)) eqn:V;
    cbn [negb].
  - destruct H as [H | ->]; [discriminate H |]. cbn.
    unfold confirmationShown. cbn.
    repeat split; try discriminate.
    now destruct (preview (ui (app p))).
  - cbn. unfold confirmationShown. cbn.
    repeat split.
    + now destruct (preview (ui (app p))).
    + revert V. unfold imageValidator.validateImage,
        imageValidator.validateImageFormat,
        imageValidator.validateImageSize.
      destruct (imageValidator.includes _ _);
        destruct (imageValidator.MAX_FILE_SIZE <? imageValidator.size f);
        cbn; congruence.
Qed.


(** A click on the confirm button always ends with the success toast,
    never with the error toast: the uploader's own handler catches what
    the store throws.  When saving fails, the page still holds the
    question and shows the view, with the store's message as error
    next to the toast; and the records are as before, on every page
    reached from an opened one and wherever the version item holds the
    current version. *)
Theorem failed_save_is_announced_as_success (p : Page) :
  confirmationShown (ui (app p)) = true ->
  let p' := handle env quotaMessage ClickConfirm p in
  ConfirmationView.toasts (view p')
  = (ConfirmationView.toasts (view p)
       ++ [ConfirmationView.success "太棒了！" "你的错题已成功保存。"])%list
  /\ ConfirmationView.isSaving (view p') = false
  /\ forall id e,
       questionId (ui (app p)) = Some id ->
       thrown (confirmQuestion env id (world (app p))) = Some e ->
       ((exists events w,
            p = handleAll env quotaMessage events (opened w))
        \/ versionItem (world (app p)) = Some CURRENT_VERSION ->
        entries (world (app p')) = entries (world (app p)))
       /\ questionId (ui (app p')) = Some id
       /\ confirmationShown (ui (app p')) = true
       /\ error (ui (app p'))
          = Some (orDefault (messageOf quotaMessage e)
                    "Failed to save question.").
Proof.
  intros S. cbv zeta. cbn [handle]. rewrite S.
  unfold ConfirmationView.handleConfirm.
  pose proof (handleConfirm_returns (app p)) as Hr.
  destruct (handleConfirm env quotaMessage (app p)) as [[err | u] a']
    eqn:Hc; [discriminate Hr |]. cbn [view app].
  split; [reflexivity |]. split; [reflexivity |].
  intros id e Q T. unfold handleConfirm in Hc. rewrite Q in Hc.
  unfold confirmationShown in S. rewrite Q in S.
  destruct id as [| c i].
  { destruct (preview (ui (app p))); [discriminate S |].
    destruct (extractedResult (ui (app p))); discriminate S. }
  destruct (confirmQuestion env _ _) as [[err | u'] w'] eqn:R;
    [| discriminate T].
  injection T as ->. injection Hc as _ <-. cbn [world ui].
  split.
  { intros V.
    assert (Hv : versionItem (world (app p)) = Some CURRENT_VERSION).
    { destruct V as [(events & w & ->) | V]; [| exact V].
      now destruct (handleAll_inStep events w _ Q) as (_ & Hv & _). }
    now destruct (confirm_threw _ _ _ _ Hv R). }
  split; [exact Q |]. split; [| reflexivity].
  unfold confirmationShown. cbn. now rewrite Q.
Qed.

End UploadPage.

(** *** Concrete runs of the page *)

Section UploadPageSamples.
Import question schema questions container.
Import ImageUploader uploadPage.

Lemma page_stores_only_clean_records_witness :
  Forall asUploaded
    (records
       (world
          (app (handleAll sampleEnv sampleQuotaMessage
                  (sampleEvents ++ [ClickConfirm])%list (opened fresh)))))
  /\ (requests
        (app (handleAll sampleEnv sampleQuotaMessage
                (sampleEvents ++ [ClickConfirm])%list (opened fresh)))
      <= 3 * 2)%nat.
Proof.
  apply (page_stores_only_clean_records sampleEnv sampleQuotaMessage
           (sampleEvents ++ [ClickConfirm])%list fresh).
  reflexivity.
Defined.


Lemma rejected_file_reaches_nothing_witness :
  requests
    (app (handle sampleEnv sampleQuotaMessage
            (SelectFile (Some samplePdf) (Some sampleDataUrl) answering)
            samplePage))
  = 1%nat
  /\ error
       (ui (app (handle sampleEnv sampleQuotaMessage
                   (SelectFile (Some samplePdf) (Some sampleDataUrl)
                      answering)
                   samplePage)))
     = Some "Invalid file format. Please upload an image file (JPEG, PNG, or WebP). Your file type: application/pdf"
  /\ preview
       (ui (app (handle sampleEnv sampleQuotaMessage
                   (SelectFile (Some samplePdf) (Some sampleDataUrl)
                      answering)
                   samplePage)))
     = sampleDataUrl.
Proof.
  destruct (rejected_file_reaches_nothing sampleEnv sampleQuotaMessage
              samplePage samplePdf (Some sampleDataUrl) answering
              (or_introl eq_refl))
    as (_ & R & _ & _ & _ & _ & E & _ & P).
  split; [exact R |]. split; [exact E | exact P].
Defined.


Lemma failed_save_is_announced_as_success_witness :
  ConfirmationView.toasts
    (view (handle fullEnv sampleQuotaMessage ClickConfirm samplePage))
  = [ConfirmationView.success "太棒了！" "你的错题已成功保存。"]
  /\ error
       (ui (app (handle fullEnv sampleQuotaMessage ClickConfirm
                   samplePage)))
     = Some "Storage is full. Please delete old questions to make space."
  /\ records
       (world (app (handle fullEnv sampleQuotaMessage ClickConfirm
                      samplePage)))
     = records (world (app samplePage)).
Proof.
  destruct (failed_save_is_announced_as_success fullEnv
              sampleQuotaMessage samplePage
              ltac:(vm_compute; reflexivity))
    as (T & _ & F).
  destruct (F "q0" storageFull ltac:(vm_compute; reflexivity)
              ltac:(vm_compute; reflexivity))
    as (E & _ & _ & M).
  split; [exact T |]. split; [exact M |].
  rewrite !records_entries. rewrite E; [reflexivity |].
  right. vm_compute. reflexivity.
Defined.

(** The page after the version item was removed from the storage, in
    a browser with room for the container and none left for the
    version item: the confirmation is stored, and the page shows the
    store's error all the same. *)
Lemma failed_save_can_have_stored :
  let env := schema.mkEnv true (now sampleEnv) (randomUUID sampleEnv)
               (fun _ => false) (fun _ => true)
               (cannotCreateProperty sampleEnv) in
  let p := mkPage
             (mkApp (ui (app samplePage))
                (mkWorld (item (world (app samplePage))) None [] 1 1)
                1)
             (view samplePage) in
  let p' := handle env sampleQuotaMessage ClickConfirm p in
  thrown (confirmQuestion env "q0" (world (app p))) = Some storageFull
  /\ error (ui (app p'))
     = Some "Storage is full. Please delete old questions to make space."
  /\ (exists q, lookup (world (app p)) "q0" = Some q
                /\ confirmedAt q = None)
  /\ (exists q, lookup (world (app p')) "q0" = Some q
                /\ confirmedAt q = Some (now sampleEnv 1)).
Proof.
  cbv zeta. split; [vm_compute; reflexivity |].
  split; [vm_compute; reflexivity |].
  split; eexists; split; vm_compute; reflexivity.
Qed.

End UploadPageSamples.
